(** * FreeMatch trainer with pseudo-label oscillation: a shallow embedding

    This development embeds [src/trainer.py] (class [FreeMatchTrainer]) and
    proves properties of its training-loop state machine: warmup, the
    per-iteration update sequence, the sharpness-aware perturb/restore
    cycle, the pseudo-label bank, evaluation cadence and checkpointing.

    Conventions of the embedding.
    - Element arithmetic is generic in a [Scalar] structure with two
      instances: IEEE binary64 floats (primitive floats), on which the code
      is run at concrete inputs, and the canonical rationals [Qc], which
      stand for exact arithmetic.
    - A tensor is its flat storage: a [list R]. A batch of logits or of
      probabilities is a list of rows.
    - Python exceptions are values of [exn]; a method of the trainer is a
      function [World -> World * result A], where the world is the trainer
      object, the checkpoint files on disk and the log of the calls made to
      the collaborators. The world survives an exception, as the Python
      object does.
    - The collaborators that are not part of [trainer.py] (networks, EMA
      wrapper, optimizer, scheduler, gradient scaler, loss criteria,
      autograd, sklearn metrics, tensorboard) are the fields of the class
      [Collab]; every theorem holds for all of them.
    - Devices, CUDA timing events and printed text are left out: moving a
      tensor between devices keeps its values, and nothing read by the
      trainer depends on the timers. *)

From Stdlib Require Import ZArith QArith Qcanon Floats Ascii Lia.
From stdpp Require Import gmap strings list.

Local Open Scope Z_scope.

(** ** Scalars *)

Class Scalar (R : Type) : Type := {
  s_of_Z : Z -> R;
  s_add : R -> R -> R;
  s_sub : R -> R -> R;
  s_mul : R -> R -> R;
  s_div : R -> R -> R;
  s_sqrt : R -> R;
  s_ltb : R -> R -> bool
}.

Declare Scope scalar_scope.
Delimit Scope scalar_scope with S.
Infix "+" := s_add : scalar_scope.
Infix "-" := s_sub : scalar_scope.
Infix "*" := s_mul : scalar_scope.
Infix "/" := s_div : scalar_scope.

(** IEEE binary64: division by zero gives an infinity or a NaN, as in torch. *)
Definition float_of_Z (z : Z) : float :=
  match z with
  | Z0 => PrimFloat.zero
  | Zpos _ => PrimFloat.of_uint63 (Uint63.of_Z z)
  | Zneg p => PrimFloat.opp (PrimFloat.of_uint63 (Uint63.of_Z (Zpos p)))
  end.

#[export] Instance float_scalar : Scalar float := {|
  s_of_Z := float_of_Z;
  s_add := PrimFloat.add;
  s_sub := PrimFloat.sub;
  s_mul := PrimFloat.mul;
  s_div := PrimFloat.div;
  s_sqrt := PrimFloat.sqrt;
  s_ltb := PrimFloat.ltb
|}.

(** Exact arithmetic: the field of rationals in canonical form. The square
    root is not rational; it is a parameter of the instance. *)
Definition Qc_ltb (a b : Qc) : bool :=
  match (a ?= b)%Qc with Lt => true | _ => false end.

Definition exact_scalar (sqrt : Qc -> Qc) : Scalar Qc := {|
  s_of_Z := fun z => Q2Qc (inject_Z z);
  s_add := Qcplus;
  s_sub := Qcminus;
  s_mul := Qcmult;
  s_div := Qcdiv;
  s_sqrt := sqrt;
  s_ltb := Qc_ltb
|}.

(** ** Tensors *)

Section Tensors.
Context {R : Type} {SR : Scalar R}.

Definition vec : Type := list R.
Definition mat : Type := list vec.

Definition s_of_nat (n : nat) : R := s_of_Z (Z.of_nat n).

(** [torch.ones(n)] *)
Definition ones (n : nat) : vec := repeat (s_of_Z 1) n.

(** [t / c] for a Python number [c] *)
Definition div_scalar (t : vec) (c : R) : vec := map (fun x => (x / c)%S) t.

(** [t * c] for a zero-dimensional tensor [c] *)
Definition mul_scalar (t : vec) (c : R) : vec := map (fun x => (x * c)%S) t.

(** [t.sum()], accumulated from zero *)
Definition tsum (t : vec) : R := fold_left s_add t (s_of_Z 0).

(** [t.mean()]: the sum over the number of elements (0/0 on an empty tensor) *)
Definition mean (t : vec) : R := (tsum t / s_of_nat (length t))%S.

(** [torch.ones(n, c) / c] *)
Definition uniform_rows (n c : nat) : mat :=
  repeat (div_scalar (ones c) (s_of_nat c)) n.

(** [t.norm(2)] *)
Definition norm2 (t : vec) : R := s_sqrt (tsum (map (fun x => (x * x)%S) t)).
End Tensors.

(** A tensor that may take part in an autograd graph: its values and
    whether gradients flow through it. *)
Record GTensor (R : Type) : Type := mkGT {
  values : list (list R);
  requires_grad : bool
}.
Arguments mkGT {R} _ _.
Arguments values {R} _.
Arguments requires_grad {R} _.

(** [t.detach()] *)
Definition detach {R} (t : GTensor R) : GTensor R := mkGT (values t) false.

(** ** Python exceptions and the trainer monad *)

Inductive exn : Type :=
  | AssertionError
  | NameError (name : string)       (* includes UnboundLocalError *)
  | AttributeError (attr : string)
  | KeyError (key : string)
  | FileNotFoundError (path : string)
  | RuntimeError (msg : string)
  | ZeroDivisionError
  | TypeError (msg : string)
  | ValueError (msg : string)
  | IndexError.

Inductive result (A : Type) : Type :=
  | Ok (a : A)
  | Raise (e : exn).
Arguments Ok {A} _.
Arguments Raise {A} _.

Definition is_ok {A} (r : result A) : bool :=
  match r with Ok _ => true | Raise _ => false end.

(** The value of a result that is not an exception. *)
Definition from_ok {A} (d : A) (r : result A) : A :=
  match r with Ok a => a | Raise _ => d end.

(** Pure computations that may raise. *)
Definition rbind {A B} (r : result A) (k : A -> result B) : result B :=
  match r with Ok a => k a | Raise e => Raise e end.

(** Python's [a % b] on integers. [Z.modulo] has the sign of the divisor,
    as Python's; a zero divisor raises. *)
Definition py_mod (a b : Z) : result Z :=
  if b =? 0 then Raise ZeroDivisionError else Ok (a mod b).

(** ** Configuration *)

(** The fields of [cfg] read by [trainer.py]. Iteration budgets are Python
    integers; the number of classes is a tensor dimension. *)
Record Config (R : Type) : Type := {
  NUM_TRAIN_ITERS : Z;
  NUM_EVAL_ITERS : Z;
  NUM_WARMUP_ITERS : Z;
  NUM_LOG_ITERS : Z;
  ULB_LOSS_RATIO : R;
  ENT_LOSS_RATIO : R;
  X_SHARP : bool;
  RHO : R;
  NUM_CLASSES : nat;
  AMP_ENABLED : bool;
  POLOSS : bool;
  USE_TB : bool;
  CONT_TRAIN : bool;
  RESUME : string;
  LOG_DIR : string;
  RUN_NAME : string;
  OUTPUT_DIR : string
}.
Arguments NUM_TRAIN_ITERS {R} _.
Arguments NUM_EVAL_ITERS {R} _.
Arguments NUM_WARMUP_ITERS {R} _.
Arguments NUM_LOG_ITERS {R} _.
Arguments ULB_LOSS_RATIO {R} _.
Arguments ENT_LOSS_RATIO {R} _.
Arguments X_SHARP {R} _.
Arguments RHO {R} _.
Arguments NUM_CLASSES {R} _.
Arguments AMP_ENABLED {R} _.
Arguments POLOSS {R} _.
Arguments USE_TB {R} _.
Arguments CONT_TRAIN {R} _.
Arguments RESUME {R} _.
Arguments LOG_DIR {R} _.
Arguments RUN_NAME {R} _.
Arguments OUTPUT_DIR {R} _.

(** ** Collaborators *)

(** What [trainer.py] imports from torch, sklearn, [networks], [data] and
    [utils]. State that lives inside a collaborator is an abstract type;
    an operation that mutates it returns the new state. *)
Class Collab (R : Type) : Type := {
  Img : Type;            (* one image *)
  Buf : Type;            (* model state besides the parameters: buffers, modes *)
  Ema : Type;            (* the EMA wrapper: shadow model, decay, mode *)
  Opt : Type;
  Sch : Type;
  Scaler : Type;
  Tb : Type;
  StateDict : Type;
  Graph : Type;          (* the autograd graph recorded by one forward pass *)

  (* construction, as in __init__ *)
  build_model : Config R -> list (list R) * Buf;
  build_ema : Config R -> list (list R) -> Buf -> Ema;
  build_tb : Config R -> Tb;
  build_optim : Config R -> list (list R) -> Opt;
  build_sched : Config R -> Opt -> Sch;
  build_scaler : Scaler;

  (* nn.Module modes *)
  model_train : Buf -> Buf;
  model_eval : Buf -> Buf;
  net_train : Ema -> Buf -> Ema * Buf;
  net_eval : Ema -> Buf -> Ema * Buf;
  enable_running_stats : Buf -> Buf;
  disable_running_stats : Buf -> Buf;

  (* forward passes; [out['logits']] with its graph and the new buffers *)
  net_call : Ema -> list (list R) -> Buf -> list Img -> GTensor R * Graph * Buf;
  model_call : list (list R) -> Buf -> list Img -> GTensor R * Graph * Buf;
  net_update : Ema -> list (list R) -> Buf -> Ema;

  (* losses *)
  ce_criterion : list (list R) -> list nat -> R;
  sat_criterion : list (list R) -> list (list R) -> R -> list R -> list R ->
                  R * list R * R * list R * list R;
  saf_criterion : list R -> list (list R) -> list R -> list R -> R * list R;

  (* torch functions on rows *)
  softmax : list R -> list R;
  row_max : list R -> R * nat;

  (* autograd: gradient of the labeled loss of a pass; [.grad] after backward *)
  autograd_grad : Graph -> list nat -> list (option (list R));
  backward : list Graph -> list (option (list R)) -> list (option (list R));
  scaled_backward : Scaler -> list Graph -> list (option (list R)) ->
                    list (option (list R));
  zero_grad : list (option (list R)) -> list (option (list R));

  (* optimizer, scheduler, gradient scaler *)
  optim_step : Opt -> list (list R) -> list (option (list R)) -> Opt * list (list R);
  scaler_step : Scaler -> Opt -> list (list R) -> list (option (list R)) ->
                Opt * list (list R);
  scaler_update : Scaler -> Scaler;
  sched_step : Sch -> Opt -> Sch * Opt;
  lr : Opt -> R;

  (* sklearn.metrics, macro averaged where the code asks for it *)
  accuracy_score : list nat -> list nat -> R;
  precision_score : list nat -> list nat -> R;
  recall_score : list nat -> list nat -> R;
  f1_score : list nat -> list nat -> R;

  (* tensorboard *)
  tb_update : Tb -> gmap string R -> Z -> Tb;

  (* state dicts *)
  model_state_dict : list (list R) -> Buf -> StateDict;
  ema_state_dict : Ema -> StateDict;
  optimizer_state_dict : Opt -> StateDict;
  scheduler_state_dict : Sch -> StateDict;
  model_load_state_dict : StateDict -> list (list R) -> Buf -> result (list (list R) * Buf);
  ema_load_state_dict : StateDict -> Ema -> result Ema;
  optimizer_load_state_dict : StateDict -> Opt -> result Opt;
  scheduler_load_state_dict : StateDict -> Sch -> result Sch
}.

(** ** The trainer object and the world around it *)

Section World.
Context {R : Type} {SR : Scalar R} {CR : Collab R}.

(** Batches yielded by the loaders of the data manager. *)
Record BatchLb : Type := {
  lb_img_w : list Img;
  lb_label : list nat
}.

Record BatchUlb : Type := {
  ulb_img_w : list Img;
  ulb_img_s : list Img;
  ulb_idx : list nat
}.

(** [self.dm]: a pass over a loader yields a finite sequence of batches. *)
Record DataManager : Type := {
  train_lb_dl : list BatchLb;
  train_ulb_dl : list BatchUlb;
  test_dl : list BatchLb;
  ulb_dataset_len : nat           (* len(self.dm.train_ulb_dl.dataset) *)
}.

(** The attributes of [self]. [self.model] and [self.net.model] are the
    same object: its parameters, their [.grad] and its other state are
    [parameters], [grad] and [buffers]. [scaler], [tb], [grad_w] and
    [eps] are attributes that exist only once assigned. *)
Record Trainer : Type := {
  cfg : Config R;
  dm : DataManager;
  parameters : list (list R);
  grad : list (option (list R));
  buffers : Buf;
  net : Ema;
  optim : Opt;
  sched : Sch;
  scaler : option Scaler;
  tb : option Tb;
  curr_iter : Z;
  best_test_iter : Z;
  best_test_acc : R;
  p_t : list R;
  label_hist : list R;
  tau_t : R;
  grad_w : option (list (option (list R)));
  eps : option (list (option (list R)))
}.

(** Values stored in a checkpoint dictionary. *)
Inductive Value : Type :=
  | VInt (z : Z)
  | VNum (x : R)
  | VTensor (t : list R)
  | VState (sd : StateDict).

(** Calls to collaborators, in the order they are made. *)
Inductive Call : Type :=
  | CForward
  | CAutogradGrad
  | CBackward
  | COptimStep
  | CScalerStep
  | CScalerUpdate
  | CSchedStep
  | CEmaUpdate
  | CZeroGrad
  | CValidate
  | CSave (path : string)
  | CLoad (path : string)
  | CTbUpdate (it : Z)
  | CPprint.

Record World : Type := {
  self : Trainer;
  fs : gmap string (gmap string Value);   (* files written by torch.save *)
  calls : list Call
}.

(** A method of the trainer. *)
Definition M (A : Type) : Type := World -> World * result A.

Definition ret {A} (a : A) : M A := fun w => (w, Ok a).
Definition raise {A} (e : exn) : M A := fun w => (w, Raise e).
Definition bind {A B} (m : M A) (k : A -> M B) : M B :=
  fun w => match m w with
           | (w', Ok a) => k a w'
           | (w', Raise e) => (w', Raise e)
           end.
Definition lift {A} (r : result A) : M A := fun w => (w, r).
Definition get : M Trainer := fun w => (w, Ok (self w)).
(** An update of [self] that also returns a value. *)
Definition act {A} (f : Trainer -> Trainer * A) : M A :=
  fun w => ({| self := fst (f (self w)); fs := fs w; calls := calls w |},
            Ok (snd (f (self w)))).
Definition modify (f : Trainer -> Trainer) : M unit :=
  fun w => ({| self := f (self w); fs := fs w; calls := calls w |}, Ok tt).
Definition call (c : Call) : M unit :=
  fun w => ({| self := self w; fs := fs w; calls := calls w ++ [c] |}, Ok tt).
Definition when (b : bool) (m : M unit) : M unit := if b then m else ret tt.
Definition assert (b : bool) : M unit := if b then ret tt else raise AssertionError.
End World.

Declare Scope py_scope.
Delimit Scope py_scope with py.
Notation "x <- m ;; k" := (bind m (fun x => k))
  (at level 100, m at next level, right associativity) : py_scope.
Notation "m ;; k" := (bind m (fun _ => k))
  (at level 100, right associativity) : py_scope.

(** ** Attribute assignment *)

Section Setters.
Context {R : Type} {SR : Scalar R} {CR : Collab R}.

(** [t] with [parameters] replaced by [x] *)
Definition set_parameters (x : list (list R)) (t : Trainer) : Trainer :=
  {| cfg := cfg t; dm := dm t; parameters := x; grad := grad t;
     buffers := buffers t; net := net t; optim := optim t;
     sched := sched t; scaler := scaler t; tb := tb t;
     curr_iter := curr_iter t; best_test_iter := best_test_iter t;
     best_test_acc := best_test_acc t; p_t := p_t t;
     label_hist := label_hist t; tau_t := tau_t t; grad_w := grad_w t;
     eps := eps t |}.

(** [t] with [grad] replaced by [x] *)
Definition set_grad (x : list (option (list R))) (t : Trainer) : Trainer :=
  {| cfg := cfg t; dm := dm t; parameters := parameters t; grad := x;
     buffers := buffers t; net := net t; optim := optim t;
     sched := sched t; scaler := scaler t; tb := tb t;
     curr_iter := curr_iter t; best_test_iter := best_test_iter t;
     best_test_acc := best_test_acc t; p_t := p_t t;
     label_hist := label_hist t; tau_t := tau_t t; grad_w := grad_w t;
     eps := eps t |}.

(** [t] with [buffers] replaced by [x] *)
Definition set_buffers (x : Buf) (t : Trainer) : Trainer :=
  {| cfg := cfg t; dm := dm t; parameters := parameters t; grad := grad t;
     buffers := x; net := net t; optim := optim t; sched := sched t;
     scaler := scaler t; tb := tb t; curr_iter := curr_iter t;
     best_test_iter := best_test_iter t; best_test_acc := best_test_acc t;
     p_t := p_t t; label_hist := label_hist t; tau_t := tau_t t;
     grad_w := grad_w t; eps := eps t |}.

(** [t] with [net] replaced by [x] *)
Definition set_net (x : Ema) (t : Trainer) : Trainer :=
  {| cfg := cfg t; dm := dm t; parameters := parameters t; grad := grad t;
     buffers := buffers t; net := x; optim := optim t; sched := sched t;
     scaler := scaler t; tb := tb t; curr_iter := curr_iter t;
     best_test_iter := best_test_iter t; best_test_acc := best_test_acc t;
     p_t := p_t t; label_hist := label_hist t; tau_t := tau_t t;
     grad_w := grad_w t; eps := eps t |}.

(** [t] with [optim] replaced by [x] *)
Definition set_optim (x : Opt) (t : Trainer) : Trainer :=
  {| cfg := cfg t; dm := dm t; parameters := parameters t; grad := grad t;
     buffers := buffers t; net := net t; optim := x; sched := sched t;
     scaler := scaler t; tb := tb t; curr_iter := curr_iter t;
     best_test_iter := best_test_iter t; best_test_acc := best_test_acc t;
     p_t := p_t t; label_hist := label_hist t; tau_t := tau_t t;
     grad_w := grad_w t; eps := eps t |}.

(** [t] with [sched] replaced by [x] *)
Definition set_sched (x : Sch) (t : Trainer) : Trainer :=
  {| cfg := cfg t; dm := dm t; parameters := parameters t; grad := grad t;
     buffers := buffers t; net := net t; optim := optim t; sched := x;
     scaler := scaler t; tb := tb t; curr_iter := curr_iter t;
     best_test_iter := best_test_iter t; best_test_acc := best_test_acc t;
     p_t := p_t t; label_hist := label_hist t; tau_t := tau_t t;
     grad_w := grad_w t; eps := eps t |}.

(** [t] with [scaler] replaced by [x] *)
Definition set_scaler (x : option Scaler) (t : Trainer) : Trainer :=
  {| cfg := cfg t; dm := dm t; parameters := parameters t; grad := grad t;
     buffers := buffers t; net := net t; optim := optim t;
     sched := sched t; scaler := x; tb := tb t; curr_iter := curr_iter t;
     best_test_iter := best_test_iter t; best_test_acc := best_test_acc t;
     p_t := p_t t; label_hist := label_hist t; tau_t := tau_t t;
     grad_w := grad_w t; eps := eps t |}.

(** [t] with [tb] replaced by [x] *)
Definition set_tb (x : option Tb) (t : Trainer) : Trainer :=
  {| cfg := cfg t; dm := dm t; parameters := parameters t; grad := grad t;
     buffers := buffers t; net := net t; optim := optim t;
     sched := sched t; scaler := scaler t; tb := x;
     curr_iter := curr_iter t; best_test_iter := best_test_iter t;
     best_test_acc := best_test_acc t; p_t := p_t t;
     label_hist := label_hist t; tau_t := tau_t t; grad_w := grad_w t;
     eps := eps t |}.

(** [t] with [curr_iter] replaced by [x] *)
Definition set_curr_iter (x : Z) (t : Trainer) : Trainer :=
  {| cfg := cfg t; dm := dm t; parameters := parameters t; grad := grad t;
     buffers := buffers t; net := net t; optim := optim t;
     sched := sched t; scaler := scaler t; tb := tb t; curr_iter := x;
     best_test_iter := best_test_iter t; best_test_acc := best_test_acc t;
     p_t := p_t t; label_hist := label_hist t; tau_t := tau_t t;
     grad_w := grad_w t; eps := eps t |}.

(** [t] with [best_test_iter] replaced by [x] *)
Definition set_best_test_iter (x : Z) (t : Trainer) : Trainer :=
  {| cfg := cfg t; dm := dm t; parameters := parameters t; grad := grad t;
     buffers := buffers t; net := net t; optim := optim t;
     sched := sched t; scaler := scaler t; tb := tb t;
     curr_iter := curr_iter t; best_test_iter := x;
     best_test_acc := best_test_acc t; p_t := p_t t;
     label_hist := label_hist t; tau_t := tau_t t; grad_w := grad_w t;
     eps := eps t |}.

(** [t] with [best_test_acc] replaced by [x] *)
Definition set_best_test_acc (x : R) (t : Trainer) : Trainer :=
  {| cfg := cfg t; dm := dm t; parameters := parameters t; grad := grad t;
     buffers := buffers t; net := net t; optim := optim t;
     sched := sched t; scaler := scaler t; tb := tb t;
     curr_iter := curr_iter t; best_test_iter := best_test_iter t;
     best_test_acc := x; p_t := p_t t; label_hist := label_hist t;
     tau_t := tau_t t; grad_w := grad_w t; eps := eps t |}.

(** [t] with [p_t] replaced by [x] *)
Definition set_p_t (x : list R) (t : Trainer) : Trainer :=
  {| cfg := cfg t; dm := dm t; parameters := parameters t; grad := grad t;
     buffers := buffers t; net := net t; optim := optim t;
     sched := sched t; scaler := scaler t; tb := tb t;
     curr_iter := curr_iter t; best_test_iter := best_test_iter t;
     best_test_acc := best_test_acc t; p_t := x;
     label_hist := label_hist t; tau_t := tau_t t; grad_w := grad_w t;
     eps := eps t |}.

(** [t] with [label_hist] replaced by [x] *)
Definition set_label_hist (x : list R) (t : Trainer) : Trainer :=
  {| cfg := cfg t; dm := dm t; parameters := parameters t; grad := grad t;
     buffers := buffers t; net := net t; optim := optim t;
     sched := sched t; scaler := scaler t; tb := tb t;
     curr_iter := curr_iter t; best_test_iter := best_test_iter t;
     best_test_acc := best_test_acc t; p_t := p_t t; label_hist := x;
     tau_t := tau_t t; grad_w := grad_w t; eps := eps t |}.

(** [t] with [tau_t] replaced by [x] *)
Definition set_tau_t (x : R) (t : Trainer) : Trainer :=
  {| cfg := cfg t; dm := dm t; parameters := parameters t; grad := grad t;
     buffers := buffers t; net := net t; optim := optim t;
     sched := sched t; scaler := scaler t; tb := tb t;
     curr_iter := curr_iter t; best_test_iter := best_test_iter t;
     best_test_acc := best_test_acc t; p_t := p_t t;
     label_hist := label_hist t; tau_t := x; grad_w := grad_w t;
     eps := eps t |}.

(** [t] with [grad_w] replaced by [x] *)
Definition set_grad_w (x : option (list (option (list R)))) (t : Trainer) : Trainer :=
  {| cfg := cfg t; dm := dm t; parameters := parameters t; grad := grad t;
     buffers := buffers t; net := net t; optim := optim t;
     sched := sched t; scaler := scaler t; tb := tb t;
     curr_iter := curr_iter t; best_test_iter := best_test_iter t;
     best_test_acc := best_test_acc t; p_t := p_t t;
     label_hist := label_hist t; tau_t := tau_t t; grad_w := x;
     eps := eps t |}.

(** [t] with [eps] replaced by [x] *)
Definition set_eps (x : option (list (option (list R)))) (t : Trainer) : Trainer :=
  {| cfg := cfg t; dm := dm t; parameters := parameters t; grad := grad t;
     buffers := buffers t; net := net t; optim := optim t;
     sched := sched t; scaler := scaler t; tb := tb t;
     curr_iter := curr_iter t; best_test_iter := best_test_iter t;
     best_test_acc := best_test_acc t; p_t := p_t t;
     label_hist := label_hist t; tau_t := tau_t t; grad_w := grad_w t;
     eps := x |}.

End Setters.

(** ** Tensor operations that can raise *)

Section TensorOps.
Context {R : Type} {SR : Scalar R}.

Definition shape_error {A} : result A :=
  Raise (RuntimeError "The size of tensor a must match the size of tensor b").

(** Elementwise operations on tensors of one shape. Broadcasting is not
    modelled: operands of different sizes raise. *)
Definition vadd (a b : list R) : result (list R) :=
  if Nat.eqb (length a) (length b) then Ok (zip_with s_add a b) else shape_error.

Definition vsub (a b : list R) : result (list R) :=
  if Nat.eqb (length a) (length b) then Ok (zip_with s_sub a b) else shape_error.

Fixpoint msub (a b : list (list R)) : result (list (list R)) :=
  match a, b with
  | [], [] => Ok []
  | r :: a', s :: b' =>
      rbind (vsub r s) (fun d => rbind (msub a' b') (fun m => Ok (d :: m)))
  | _, _ => shape_error
  end.

(** [nn.MSELoss()(a, b)]: the mean over all elements of the squared
    difference. *)
Definition mse_loss (a b : list (list R)) : result R :=
  rbind (msub a b) (fun d => Ok (mean (map (fun x => (x * x)%S) (concat d)))).

(** [bank[idx]] for a tensor of row indices *)
Fixpoint index_rows (bank : list (list R)) (idx : list nat) : result (list (list R)) :=
  match idx with
  | [] => Ok []
  | i :: idx' =>
      match bank !! i with
      | Some row => rbind (index_rows bank idx') (fun m => Ok (row :: m))
      | None => Raise IndexError
      end
  end.

(** [bank[idx] = rows]. Torch does not say which row stays when an index
    occurs twice in [idx]; the rows are written here one index after the
    other, and the statements about the banks are made for batches
    without a repeated index. *)
Fixpoint index_put (bank : list (list R)) (idx : list nat) (rows : list (list R))
  : result (list (list R)) :=
  match idx, rows with
  | [], [] => Ok bank
  | i :: idx', row :: rows' =>
      match bank !! i with
      | Some old =>
          if Nat.eqb (length old) (length row)
          then index_put (<[i := row]> bank) idx' rows'
          else shape_error
      | None => Raise IndexError
      end
  | _, _ => Raise (RuntimeError "shape mismatch: value tensor cannot be broadcast to indexing result")
  end.

(** [t.chunk(2)] along the first dimension, unpacked into two names: chunks
    of [ceil(n/2)] rows; a single row gives a single chunk and the unpacking
    raises. *)
Definition chunk2 (t : list (list R)) : result (list (list R) * list (list R)) :=
  let n := length t in
  let k := Nat.div2 (n + 1) in
  if Nat.eqb n 1 then Raise (ValueError "not enough values to unpack (expected 2, got 1)")
  else Ok (firstn k t, skipn k t).

(** [torch.cat(ts)] along the first dimension *)
Definition cat {A} (ts : list (list A)) : result (list A) :=
  match ts with
  | [] => Raise (RuntimeError "torch.cat(): expected a non-empty list of Tensors")
  | _ => Ok (concat ts)
  end.

(** [torch.mean(m, dim=0)]: the mean of every column. The number of columns
    is read off the first row: a tensor without rows has no width in this
    representation, where torch keeps the width of a tensor of shape
    [[0, C]]. The statements about the statistics of the warmup are made
    for at least one row. *)
Definition column (j : nat) (m : list (list R)) : list R := omap (fun row => row !! j) m.
Definition ncols (m : list (list R)) : nat :=
  match m with [] => 0%nat | r :: _ => length r end.
Definition mean_dim0 (m : list (list R)) : list R :=
  map (fun j => mean (column j m)) (seq 0 (ncols m)).

(** [torch.bincount(xs, minlength=n)] *)
Definition bincount (xs : list nat) (minlength : nat) : list nat :=
  let n := match xs with [] => minlength | _ => Nat.max minlength (S (list_max xs)) end in
  map (fun k => count_occ Nat.eq_dec xs k) (seq 0 n).

End TensorOps.

(** [os.path.join(a, b)] on POSIX *)
Fixpoint ends_with_sep (s : string) : bool :=
  match s with
  | EmptyString => false
  | String c EmptyString => Ascii.eqb c "/"%char
  | String _ s' => ends_with_sep s'
  end.

Definition osp_join (a b : string) : string :=
  if String.prefix "/" b then b
  else if (String.eqb a "" || ends_with_sep a)%bool then a +:+ b
  else a +:+ "/" +:+ b.

(** ** Checkpoints and evaluation *)

Section Checkpoint.
Context {R : Type} {SR : Scalar R} {CR : Collab R}.
Local Open Scope py_scope.

(** [FreeMatchTrainer.norm], with its default [p = 2]: the norm of the
    concatenation of the gradients that are not [None]. *)
Definition norm (tensor_list : list (option (list R))) : result R :=
  rbind (cat (omap id tensor_list)) (fun t => Ok (norm2 t)).

(** [torch.save(d, path)] *)
Definition torch_save (d : gmap string Value) (path : string) : M unit :=
  fun w => ({| self := self w; fs := <[path := d]> (fs w);
               calls := calls w ++ [CSave path] |}, Ok tt).

(** [torch.load(path)] *)
Definition torch_load (path : string) : M (gmap string Value) :=
  fun w => ({| self := self w; fs := fs w; calls := calls w ++ [CLoad path] |},
            match fs w !! path with
            | Some d => Ok d
            | None => Raise (FileNotFoundError path)
            end).

(** The dictionary built by [__save__model__]. [.cpu()] moves a tensor to
    host memory and keeps its values; devices are not part of the model. *)
Definition save_dict (t : Trainer) : gmap string Value :=
  <["model_state_dict" := VState (model_state_dict (parameters t) (buffers t))]> (
  <["ema_state_dict" := VState (ema_state_dict (net t))]> (
  <["optimizer_state_dict" := VState (optimizer_state_dict (optim t))]> (
  <["scheduler_state_dict" := VState (scheduler_state_dict (sched t))]> (
  <["curr_iter" := VInt (curr_iter t)]> (
  <["best_test_iter" := VInt (best_test_iter t)]> (
  <["best_test_acc" := VNum (best_test_acc t)]> (
  <["tau_t" := VTensor [tau_t t]]> (
  <["p_t" := VTensor (p_t t)]> (
  <["label_hist" := VTensor (label_hist t)]> ∅))))))))).

Definition __save__model__ (save_dir save_name : string) : M unit :=
  t <- get ;;
  torch_save (save_dict t) (osp_join save_dir save_name).

(** [ckpt[key]] *)
Definition ckpt_get (ckpt : gmap string Value) (key : string) : result Value :=
  match ckpt !! key with
  | Some v => Ok v
  | None => Raise (KeyError key)
  end.

(** The attributes of the embedding are typed; a checkpoint entry of another
    kind than the one [__save__model__] writes is refused when it is read. *)
Definition as_state (v : Value) : result StateDict :=
  match v with VState sd => Ok sd | _ => Raise (TypeError "state dict expected") end.
Definition as_int (v : Value) : result Z :=
  match v with VInt z => Ok z | _ => Raise (TypeError "int expected") end.
Definition as_num (v : Value) : result R :=
  match v with VNum x => Ok x | _ => Raise (TypeError "number expected") end.
Definition as_tensor (v : Value) : result (list R) :=
  match v with VTensor t => Ok t | _ => Raise (TypeError "tensor expected") end.
Definition as_scalar_tensor (v : Value) : result R :=
  match v with VTensor [x] => Ok x | _ => Raise (TypeError "scalar tensor expected") end.

Definition __load__model__ (load_path : string) : M unit :=
  ckpt <- torch_load load_path ;;
  sd <- lift (rbind (ckpt_get ckpt "model_state_dict") as_state) ;;
  t <- get ;;
  pb <- lift (model_load_state_dict sd (parameters t) (buffers t)) ;;
  modify (fun t => set_parameters (fst pb) (set_buffers (snd pb) t)) ;;
  sd <- lift (rbind (ckpt_get ckpt "ema_state_dict") as_state) ;;
  t <- get ;;
  e <- lift (ema_load_state_dict sd (net t)) ;;
  modify (set_net e) ;;
  sd <- lift (rbind (ckpt_get ckpt "optimizer_state_dict") as_state) ;;
  t <- get ;;
  o <- lift (optimizer_load_state_dict sd (optim t)) ;;
  modify (set_optim o) ;;
  sd <- lift (rbind (ckpt_get ckpt "scheduler_state_dict") as_state) ;;
  t <- get ;;
  s <- lift (scheduler_load_state_dict sd (sched t)) ;;
  modify (set_sched s) ;;
  (* Algorithm specific loading *)
  x <- lift (rbind (ckpt_get ckpt "curr_iter") as_int) ;;
  modify (set_curr_iter x) ;;
  x <- lift (rbind (ckpt_get ckpt "tau_t") as_scalar_tensor) ;;
  modify (set_tau_t x) ;;
  x <- lift (rbind (ckpt_get ckpt "p_t") as_tensor) ;;
  modify (set_p_t x) ;;
  x <- lift (rbind (ckpt_get ckpt "label_hist") as_tensor) ;;
  modify (set_label_hist x) ;;
  x <- lift (rbind (ckpt_get ckpt "best_test_iter") as_int) ;;
  modify (set_best_test_iter x) ;;
  x <- lift (rbind (ckpt_get ckpt "best_test_acc") as_num) ;;
  modify (set_best_test_acc x).

(** [self.net(img)]: one forward pass through the EMA wrapper. *)
Definition net_forward (img : list Img) : M (GTensor R * Graph) :=
  out <- act (fun t => let out := net_call (net t) (parameters t) (buffers t) img in
                       (set_buffers (snd out) t, fst out)) ;;
  call CForward ;;
  ret out.

(** [self.model(img)]: one forward pass through the online model. *)
Definition model_forward (img : list Img) : M (GTensor R * Graph) :=
  out <- act (fun t => let out := model_call (parameters t) (buffers t) img in
                       (set_buffers (snd out) t, fst out)) ;;
  call CForward ;;
  ret out.

(** The accumulators of [validate]. *)
Record ValAcc : Type := {
  total_loss : R;
  total_num : nat;
  labels : list nat;
  preds : list nat
}.

Fixpoint validate_loop (batches : list BatchLb) (a : ValAcc) : M ValAcc :=
  match batches with
  | [] => ret a
  | batch :: rest =>
      let img_lb_w := lb_img_w batch in
      let label := lb_label batch in
      out <- net_forward img_lb_w ;;
      let logits := values (fst out) in
      let loss := ce_criterion logits label in
      validate_loop rest
        {| labels := labels a ++ label;
           preds := preds a ++ map (fun row => snd (row_max row)) logits;
           total_num := total_num a + length img_lb_w;
           total_loss := (total_loss a + loss * s_of_nat (length img_lb_w))%S |}
  end.

(** [validate]. The forward pass, the criterion and the metrics of sklearn
    are total functions here, and the confusion matrix and the report,
    which are only printed (lines 416-423), are left out: the statements
    about the trainer an evaluation leaves are made for an evaluation
    that returns. *)
Definition validate : M (gmap string R) :=
  call CValidate ;;
  modify (fun t => let eb := net_eval (net t) (buffers t) in
                   set_net (fst eb) (set_buffers (snd eb) t)) ;;
  t <- get ;;
  a <- validate_loop (test_dl (dm t))
         {| total_loss := s_of_Z 0; total_num := 0; labels := []; preds := [] |} ;;
  let acc := accuracy_score (labels a) (preds a) in
  let precision := precision_score (labels a) (preds a) in
  let recall := recall_score (labels a) (preds a) in
  let f1 := f1_score (labels a) (preds a) in
  modify (fun t => let eb := net_train (net t) (buffers t) in
                   set_net (fst eb) (set_buffers (snd eb) t)) ;;
  if Nat.eqb (total_num a) 0 then raise ZeroDivisionError
  else ret (<["validation/loss" := (total_loss a / s_of_nat (total_num a))%S]> (
            <["validation/accuracy" := acc]> (
            <["validation/precision" := precision]> (
            <["validation/recall" := recall]> (
            <["validation/f1" := f1]> ∅))))).

End Checkpoint.

(** ** Calls to the stateful collaborators *)

Section Steps.
Context {R : Type} {SR : Scalar R} {CR : Collab R}.
Local Open Scope py_scope.

(** [self.scaler], an attribute that exists only when AMP is enabled *)
Definition self_scaler : M Scaler :=
  t <- get ;;
  match scaler t with
  | Some sc => ret sc
  | None => raise (AttributeError "scaler")
  end.

(** [loss.backward()] for a loss built on the graphs [gs] *)
Definition loss_backward (gs : list Graph) : M unit :=
  modify (fun t => set_grad (backward gs (grad t)) t) ;;
  call CBackward.

(** [self.scaler.scale(loss).backward()] *)
Definition scaler_scale_backward (gs : list Graph) : M unit :=
  sc <- self_scaler ;;
  modify (fun t => set_grad (scaled_backward sc gs (grad t)) t) ;;
  call CBackward.

(** [self.optim.step()] *)
Definition self_optim_step : M unit :=
  modify (fun t => let op := optim_step (optim t) (parameters t) (grad t) in
                   set_optim (fst op) (set_parameters (snd op) t)) ;;
  call COptimStep.

(** [self.scaler.step(self.optim.optimizer)] *)
Definition self_scaler_step : M unit :=
  sc <- self_scaler ;;
  modify (fun t => let op := scaler_step sc (optim t) (parameters t) (grad t) in
                   set_optim (fst op) (set_parameters (snd op) t)) ;;
  call CScalerStep.

(** [self.scaler.update()] *)
Definition self_scaler_update : M unit :=
  sc <- self_scaler ;;
  modify (set_scaler (Some (scaler_update sc))) ;;
  call CScalerUpdate.

(** [self.sched.step()] *)
Definition self_sched_step : M unit :=
  modify (fun t => let so := sched_step (sched t) (optim t) in
                   set_sched (fst so) (set_optim (snd so) t)) ;;
  call CSchedStep.

(** [self.net.update()] *)
Definition self_net_update : M unit :=
  modify (fun t => set_net (net_update (net t) (parameters t) (buffers t)) t) ;;
  call CEmaUpdate.

(** [self.model.zero_grad()] *)
Definition self_model_zero_grad : M unit :=
  modify (fun t => set_grad (zero_grad (grad t)) t) ;;
  call CZeroGrad.

End Steps.

(** ** Warmup *)

Section Warmup.
Context {R : Type} {SR : Scalar R} {CR : Collab R}.
Local Open Scope py_scope.

(** The inner loop of a warmup iteration: softmax of the online model's
    logits over the test loader. *)
Fixpoint warmup_probs (batches : list BatchLb) (probs : list (list (list R)))
  : M (list (list (list R))) :=
  match batches with
  | [] => ret probs
  | batch :: rest =>
      out <- model_forward (lb_img_w batch) ;;
      let logits := values (fst out) in
      warmup_probs rest (probs ++ [map softmax logits])
  end.

(** Lines 188-204: the statistics are overwritten from the test loader. *)
Definition warmup_stats : M unit :=
  modify (fun t => set_buffers (model_eval (buffers t)) t) ;;
  t <- get ;;
  probs <- warmup_probs (test_dl (dm t)) [] ;;
  probs <- lift (cat probs) ;;
  let max_probs := map (fun row => fst (row_max row)) probs in
  let max_idx := map (fun row => snd (row_max row)) probs in
  modify (set_tau_t (mean max_probs)) ;;
  modify (set_p_t (mean_dim0 probs)) ;;
  let label_hist := map s_of_nat (bincount max_idx (ncols probs)) in
  modify (set_label_hist (div_scalar label_hist (tsum label_hist))).

(** The body of the warmup loop after the exit test (lines 151-204). *)
Definition warmup_step (batch_lb : BatchLb) : M unit :=
  let img_lb_w := lb_img_w batch_lb in
  let label_lb := lb_label batch_lb in
  out <- net_forward img_lb_w ;;
  let logits := values (fst out) in
  let loss := ce_criterion logits label_lb in
  t <- get ;;
  (if AMP_ENABLED (cfg t)
   then scaler_scale_backward [snd out] ;; self_scaler_step ;; self_scaler_update
   else loss_backward [snd out] ;; self_optim_step) ;;
  t <- get ;;
  m <- lift (py_mod (curr_iter t + 1) (NUM_LOG_ITERS (cfg t))) ;;
  when (m =? 0) (call CPprint) ;;
  modify (fun t => set_curr_iter (curr_iter t + 1) t) ;;
  warmup_stats.

(** [for batch_lb in self.dm.train_lb_dl: ...] *)
Fixpoint warmup_loop (batches : list BatchLb) : M unit :=
  match batches with
  | [] => ret tt
  | batch_lb :: rest =>
      t <- get ;;
      if NUM_WARMUP_ITERS (cfg t) <=? curr_iter t
      then modify (set_curr_iter 0)       (* self.curr_iter = 0; break *)
      else warmup_step batch_lb ;; warmup_loop rest
  end.

Definition warmup_train : M unit :=
  modify (fun t => set_buffers (model_train (buffers t)) t) ;;
  t <- get ;;
  warmup_loop (train_lb_dl (dm t)).

End Warmup.

(** ** The sharpness-aware perturbation *)

Section Sharpness.
Context {R : Type} {SR : Scalar R}.

(** [for p, v in zip(params, eps): if v is not None: p.add_(v)]. The loop
    mutates the parameters in place: what it has written before an
    exception stays written. *)
Fixpoint perturb_params (ps : list (list R)) (eps : list (option (list R)))
  : list (list R) * option exn :=
  match ps, eps with
  | p :: ps', v :: eps' =>
      match v with
      | None => let r := perturb_params ps' eps' in (p :: fst r, snd r)
      | Some v =>
          match vadd p v with
          | Ok p' => let r := perturb_params ps' eps' in (p' :: fst r, snd r)
          | Raise e => (p :: ps', Some e)
          end
      end
  | _, _ => (ps, None)
  end.

(** [p.grad += g] *)
Definition grad_iadd (pg g : option (list R)) : result (option (list R)) :=
  match pg, g with
  | Some a, Some b => rbind (vadd a b) (fun c => Ok (Some c))
  | _, _ => Raise (TypeError "unsupported operand type(s) for +=")
  end.

(** [for p, v, g in zip(params, eps, grad_w):
       if v is not None: p.sub_(v); p.grad += g]
    on the parameters [ps] and their gradients [gs]. *)
Fixpoint restore_params (ps : list (list R)) (gs : list (option (list R)))
    (eps grad_w : list (option (list R)))
  : list (list R) * list (option (list R)) * option exn :=
  match ps, eps, grad_w with
  | p :: ps', v :: eps', g :: grad_w' =>
      let pg := match gs with [] => None | x :: _ => x end in
      let gs' := tail gs in
      match v with
      | None =>
          let r := restore_params ps' gs' eps' grad_w' in
          (p :: fst (fst r), pg :: snd (fst r), snd r)
      | Some v =>
          match vsub p v with
          | Ok p' =>
              match grad_iadd pg g with
              | Ok pg' =>
                  let r := restore_params ps' gs' eps' grad_w' in
                  (p' :: fst (fst r), pg' :: snd (fst r), snd r)
              | Raise e => (p' :: ps', gs, Some e)
              end
          | Raise e => (p :: ps', gs, Some e)
          end
      end
  | _, _, _ => (ps, gs, None)
  end.

End Sharpness.

(** ** The pseudo-label bank *)

Section Bank.
Context {R : Type} {SR : Scalar R} {CR : Collab R}.

(** The locals of [train] that live across iterations. [loss_po] is bound
    only once the sharpness-aware branch has assigned it. *)
Record Locals : Type := {
  label_bank_w : GTensor R;
  label_bank_s : GTensor R;
  loss_po : option R
}.

(** [torch.softmax(t, dim=-1)] *)
Definition gsoftmax (t : GTensor R) : GTensor R :=
  mkGT (map softmax (values t)) (requires_grad t).

(** [a - b] *)
Definition gsub (a b : GTensor R) : result (GTensor R) :=
  rbind (msub (values a) (values b))
        (fun d => Ok (mkGT d (requires_grad a || requires_grad b))).

(** [bank[idx]] *)
Definition gindex (bank : GTensor R) (idx : list nat) : result (GTensor R) :=
  rbind (index_rows (values bank) idx) (fun m => Ok (mkGT m (requires_grad bank))).

(** [bank[idx] = t] *)
Definition gindex_put (bank : GTensor R) (idx : list nat) (t : GTensor R)
  : result (GTensor R) :=
  rbind (index_put (values bank) idx (values t))
        (fun m => Ok (mkGT m (requires_grad bank || requires_grad t))).

(** Lines 289-304: the consistency term of the iteration. *)
Definition po_term (l : Locals) (idx : list nat)
    (logits_ulb_w_hat logits_ulb_s_hat : GTensor R) : result R :=
  rbind (gindex (label_bank_w l) idx) (fun label_w_expanded =>
  rbind (gindex (label_bank_s l) idx) (fun label_s_expanded =>
  let pseudo_label_g := gsoftmax logits_ulb_w_hat in
  let pseudo_label_s := gsoftmax logits_ulb_s_hat in
  rbind (gsub pseudo_label_g (detach label_w_expanded)) (fun po =>
  rbind (gsub pseudo_label_s (detach label_s_expanded)) (fun po_s =>
  mse_loss (values po) (values po_s))))).

(** Lines 313-314: the bank rows of the batch are overwritten. *)
Definition bank_update (l : Locals) (idx : list nat)
    (logits_ulb_w_hat logits_ulb_s_hat : GTensor R) : result Locals :=
  let pseudo_label_g := gsoftmax logits_ulb_w_hat in
  let pseudo_label_s := gsoftmax logits_ulb_s_hat in
  rbind (gindex_put (label_bank_w l) idx (detach pseudo_label_g)) (fun bw =>
  rbind (gindex_put (label_bank_s l) idx (detach pseudo_label_s)) (fun bs =>
  Ok {| label_bank_w := bw; label_bank_s := bs; loss_po := loss_po l |})).

End Bank.

Arguments Locals : clear implicits.

(** ** One training iteration *)

Section Train.
Context {R : Type} {SR : Scalar R} {CR : Collab R}.
Local Open Scope py_scope.

(** The locals of [train] assigned afresh in every iteration. [graphs] are
    the forward passes the composite loss was built on. *)
Record Losses : Type := {
  loss : R;
  loss_lb : R;
  loss_sat : R;
  loss_saf : R;
  mask : list R;
  hist_p_ulb_s : list R;
  graphs : list Graph
}.

(** [self.eps] and [self.grad_w], attributes assigned by the sharpness-aware
    branch *)
Definition self_eps : M (list (option (list R))) :=
  t <- get ;;
  match eps t with Some e => ret e | None => raise (AttributeError "eps") end.

Definition self_grad_w : M (list (option (list R))) :=
  t <- get ;;
  match grad_w t with Some g => ret g | None => raise (AttributeError "grad_w") end.

(** Lines 269-272: model perturbation. *)
Definition perturb_model : M unit :=
  e <- self_eps ;;
  x <- act (fun t => let r := perturb_params (parameters t) e in
                     (set_parameters (fst r) t, snd r)) ;;
  match x with None => ret tt | Some x => raise x end.

(** Lines 319-323 and 329-333: the parameters are restored and the
    first-pass gradient is added to [.grad]. *)
Definition restore_model : M unit :=
  e <- self_eps ;;
  g <- self_grad_w ;;
  x <- act (fun t => let r := restore_params (parameters t) (grad t) e g in
                     (set_parameters (fst (fst r)) (set_grad (snd (fst r)) t), snd r)) ;;
  match x with None => ret tt | Some x => raise x end.

(** Lines 264-267: the first-pass gradient of the labeled loss and the
    perturbation scaled by [rho / norm]. *)
Definition sharp_eps (g1 : Graph) (label_lb : list nat) : M unit :=
  modify (set_grad_w (Some (autograd_grad g1 label_lb))) ;;
  call CAutogradGrad ;;
  gw <- self_grad_w ;;
  t <- get ;;
  n <- lift (norm gw) ;;
  let scale := (RHO (cfg t) / n)%S in
  modify (set_eps (Some (map (fun g => match g with
                                       | Some g => Some (mul_scalar g scale)
                                       | None => None
                                       end) gw))).

(** Lines 256-261: the losses without sharpness-aware mode. [loss_po] is
    not assigned on this path. *)
Definition plain_losses (l : Locals R) (g1 : Graph) (loss_lb : R)
    (logits_ulb_w logits_ulb_s : list (list R)) : M (Losses * Locals R) :=
  t <- get ;;
  let '(loss_sat, mask, tau, p, h) :=
    sat_criterion logits_ulb_w logits_ulb_s (tau_t t) (p_t t) (label_hist t) in
  modify (fun t => set_tau_t tau (set_p_t p (set_label_hist h t))) ;;
  t <- get ;;
  let '(loss_saf, hist_p_ulb_s) :=
    saf_criterion mask logits_ulb_s (p_t t) (label_hist t) in
  let loss := (loss_lb + ULB_LOSS_RATIO (cfg t) * loss_sat
               + ENT_LOSS_RATIO (cfg t) * loss_saf)%S in
  ret ({| loss := loss; loss_lb := loss_lb; loss_sat := loss_sat;
          loss_saf := loss_saf; mask := mask; hist_p_ulb_s := hist_p_ulb_s;
          graphs := [g1] |}, l).

(** Lines 264-314: the sharpness-aware branch. *)
Definition sharp_losses (l : Locals R) (g1 : Graph) (img : list Img)
    (label_lb : list nat) (idx : list nat) (num_lb : nat)
    (logits_ulb_w : list (list R)) : M (Losses * Locals R) :=
  sharp_eps g1 label_lb ;;
  perturb_model ;;
  (* second propagation step *)
  modify (fun t => set_buffers (disable_running_stats (buffers t)) t) ;;
  out_hat <- net_forward img ;;
  let logits_hat := fst out_hat in
  let logits_lb_hat := firstn num_lb (values logits_hat) in
  ch <- lift (chunk2 (skipn num_lb (values logits_hat))) ;;
  let logits_ulb_w_hat := mkGT (fst ch) (requires_grad logits_hat) in
  let logits_ulb_s_hat := mkGT (snd ch) (requires_grad logits_hat) in
  let loss_lb := ce_criterion logits_lb_hat label_lb in
  t <- get ;;
  let '(loss_sat, mask, tau, p, h) :=
    sat_criterion logits_ulb_w (values logits_ulb_s_hat)
                  (tau_t t) (p_t t) (label_hist t) in
  modify (fun t => set_tau_t tau (set_p_t p (set_label_hist h t))) ;;
  t <- get ;;
  let '(loss_saf, hist_p_ulb_s) :=
    saf_criterion mask (values logits_ulb_s_hat) (p_t t) (label_hist t) in
  loss_po <- lift (po_term l idx logits_ulb_w_hat logits_ulb_s_hat) ;;
  let loss :=
    if POLOSS (cfg t)
    then (loss_lb + ULB_LOSS_RATIO (cfg t) * loss_sat
          + ENT_LOSS_RATIO (cfg t) * loss_saf + loss_po)%S
    else (loss_lb + ULB_LOSS_RATIO (cfg t) * loss_sat
          + ENT_LOSS_RATIO (cfg t) * loss_saf)%S in
  l' <- lift (bank_update l idx logits_ulb_w_hat logits_ulb_s_hat) ;;
  ret ({| loss := loss; loss_lb := loss_lb; loss_sat := loss_sat;
          loss_saf := loss_saf; mask := mask; hist_p_ulb_s := hist_p_ulb_s;
          graphs := [g1; snd out_hat] |},
       {| label_bank_w := label_bank_w l'; label_bank_s := label_bank_s l';
          loss_po := Some loss_po |}).

(** Lines 233-314: batch unpacking, the shape assertion, the first forward
    pass and the losses. *)
Definition forward_losses (l : Locals R) (batch_lb : BatchLb) (batch_ulb : BatchUlb)
  : M (Losses * Locals R) :=
  let img_lb_w := lb_img_w batch_lb in
  let label_lb := lb_label batch_lb in
  let img_ulb_w := ulb_img_w batch_ulb in
  let img_ulb_s := ulb_img_s batch_ulb in
  let idx := ulb_idx batch_ulb in
  let num_lb := length img_lb_w in
  let num_ulb := length img_ulb_w in
  assert (Nat.eqb num_ulb (length img_ulb_s)) ;;
  let img := img_lb_w ++ img_ulb_w ++ img_ulb_s in
  t <- get ;;
  when (X_SHARP (cfg t))
       (modify (fun t => set_buffers (enable_running_stats (buffers t)) t)) ;;
  out <- net_forward img ;;
  let logits := values (fst out) in
  let logits_lb := firstn num_lb logits in
  ch <- lift (chunk2 (skipn num_lb logits)) ;;
  let logits_ulb_w := fst ch in
  let logits_ulb_s := snd ch in
  let loss_lb := ce_criterion logits_lb label_lb in
  if negb (X_SHARP (cfg t))
  then plain_losses l (snd out) loss_lb logits_ulb_w logits_ulb_s
  else sharp_losses l (snd out) img label_lb idx num_lb logits_ulb_w.

(** Lines 316-334: backward pass, restoration of the perturbed parameters,
    optimizer step. *)
Definition backward_and_step (ls : Losses) : M unit :=
  t <- get ;;
  if AMP_ENABLED (cfg t)
  then scaler_scale_backward (graphs ls) ;;
       when (X_SHARP (cfg t)) restore_model ;;
       self_scaler_step ;;
       self_scaler_update
  else loss_backward (graphs ls) ;;
       when (X_SHARP (cfg t)) restore_model ;;
       self_optim_step.

(** [loss_po.item()]: reading a local that was never assigned raises. *)
Definition read_loss_po (l : Locals R) : M R :=
  match loss_po l with
  | Some x => ret x
  | None => raise (NameError "loss_po")
  end.

(** Lines 344-356: the record logged in tensorboard. *)
Definition make_log_dict (ls : Losses) (l : Locals R) : M (gmap string R) :=
  po <- read_loss_po l ;;
  t <- get ;;
  ret (<["train/lb_loss" := loss_lb ls]> (
       <["train/sat_loss" := loss_sat ls]> (
       <["train/saf_loss" := loss_saf ls]> (
       <["train/po_loss" := po]> (
       <["train/total_loss" := loss ls]> (
       <["train/mask" := (s_of_Z 1 - mean (mask ls))%S]> (
       <["train/tau_t" := tau_t t]> (
       <["train/p_t" := mean (p_t t)]> (
       <["train/label_hist" := mean (label_hist t)]> (
       <["train/label_hist_s" := mean (hist_p_ulb_s ls)]> (
       <["train/lr" := lr (optim t)]> ∅))))))))))).

(** [self.tb.update(log_dict, it)]; [self.tb] exists only when tensorboard
    logging is enabled. *)
Definition self_tb : M Tb :=
  t <- get ;;
  match tb t with
  | Some b => ret b
  | None => raise (AttributeError "tb")
  end.

Definition self_tb_update (log_dict : gmap string R) (it : Z) : M unit :=
  b <- self_tb ;;
  modify (set_tb (Some (tb_update b log_dict it))) ;;
  call (CTbUpdate it).

(** Lines 358-380: evaluation and checkpointing at the evaluation cadence.
    Returns the log record, updated when the evaluation ran. *)
Definition eval_block (log_dict : gmap string R) : M (gmap string R) :=
  t <- get ;;
  m <- lift (py_mod (curr_iter t + 1) (NUM_EVAL_ITERS (cfg t))) ;;
  if m =? 0 then
    validate_dict <- validate ;;
    let log_dict := validate_dict ∪ log_dict in
    t <- get ;;
    let save_dir :=
      osp_join (osp_join (LOG_DIR (cfg t)) (RUN_NAME (cfg t))) (OUTPUT_DIR (cfg t)) in
    acc <- lift (match validate_dict !! "validation/accuracy" with
                 | Some a => Ok a
                 | None => Raise (KeyError "validation/accuracy")
                 end) ;;
    when (s_ltb (best_test_acc t) acc)
         (modify (set_best_test_acc acc) ;;
          modify (fun t => set_best_test_iter (curr_iter t) t) ;;
          __save__model__ save_dir "best_checkpoint.pth") ;;
    __save__model__ save_dir "last_checkpoint.pth" ;;
    t <- get ;;
    let log_dict :=
      <["best_acc" := best_test_acc t]> (
      <["best_iter" := s_of_Z (best_test_iter t)]> log_dict) in
    self_tb_update log_dict (curr_iter t) ;;
    ret log_dict
  else ret log_dict.

(** Lines 229-390: the body of the training loop after the exit test. *)
Definition train_step (l : Locals R) (batch_lb : BatchLb) (batch_ulb : BatchUlb)
  : M (Locals R) :=
  ll <- forward_losses l batch_lb batch_ulb ;;
  backward_and_step (fst ll) ;;
  self_sched_step ;;
  self_net_update ;;
  self_model_zero_grad ;;
  log_dict <- make_log_dict (fst ll) (snd ll) ;;
  log_dict <- eval_block log_dict ;;
  t <- get ;;
  m <- lift (py_mod (curr_iter t + 1) (NUM_LOG_ITERS (cfg t))) ;;
  when (m =? 0) (call CPprint) ;;
  modify (fun t => set_curr_iter (curr_iter t + 1) t) ;;
  ret (snd ll).

(** [for (batch_lb, batch_ulb) in zip(train_lb_dl, train_ulb_dl): ...] *)
Fixpoint train_loop (batches : list (BatchLb * BatchUlb)) (l : Locals R) : M unit :=
  match batches with
  | [] => ret tt
  | (batch_lb, batch_ulb) :: rest =>
      t <- get ;;
      if NUM_TRAIN_ITERS (cfg t) <=? curr_iter t
      then ret tt                                   (* break *)
      else l' <- train_step l batch_lb batch_ulb ;; train_loop rest l'
  end.

(** The banks created at the start of [train]. *)
Definition initial_locals (t : Trainer) : Locals R :=
  let num_samples := ulb_dataset_len (dm t) in
  let pseudo_label_dim := NUM_CLASSES (cfg t) in
  {| label_bank_w := mkGT (uniform_rows num_samples pseudo_label_dim) false;
     label_bank_s := mkGT (uniform_rows num_samples pseudo_label_dim) false;
     loss_po := None |}.

Definition train : M unit :=
  modify (fun t => set_buffers (model_train (buffers t)) t) ;;
  t <- get ;;
  train_loop (zip (train_lb_dl (dm t)) (train_ulb_dl (dm t))) (initial_locals t).

(** [FreeMatchTrainer.__init__] on a fresh object; [d] is the data manager
    built from the configuration and [files] the disk. Moving the
    statistics to the device at the end keeps their values. *)
Definition initial_trainer (c : Config R) (d : DataManager) : Trainer :=
  let mb := build_model c in
  let e := build_ema c (fst mb) (model_train (snd mb)) in
  let eb := net_train e (model_train (snd mb)) in
  let o := build_optim c (fst mb) in
  let p := div_scalar (ones (NUM_CLASSES c)) (s_of_nat (NUM_CLASSES c)) in
  {| cfg := c; dm := d;
     parameters := fst mb; grad := map (fun _ => None) (fst mb);
     buffers := snd eb; net := fst eb;
     optim := o; sched := build_sched c o;
     scaler := if AMP_ENABLED c then Some build_scaler else None;
     tb := if USE_TB c then Some (build_tb c) else None;
     curr_iter := 0; best_test_iter := -1; best_test_acc := s_of_Z (-1);
     p_t := p; label_hist := p; tau_t := mean p;
     grad_w := None; eps := None |}.

Definition init_body : M unit :=
  t <- get ;;
  when (CONT_TRAIN (cfg t)) (__load__model__ (RESUME (cfg t))) ;;
  when (0 <? NUM_WARMUP_ITERS (cfg t))
       (warmup_train ;;
        validate_dict <- validate ;;
        call CPprint).

Definition __init__ (c : Config R) (d : DataManager)
    (files : gmap string (gmap string Value)) : World * result unit :=
  init_body {| self := initial_trainer c d; fs := files; calls := [] |}.

End Train.

(** ** A small instance of the collaborators

    A linear classifier on one-pixel images, plain gradient descent and
    surrogate losses, used to run the trainer on concrete inputs. The
    gradients autograd returns are parameters of the instance. *)

Section Toy.
Context {R : Type} {SR : Scalar R}.
Variable exp : R -> R.
Variable first_grad : list R -> list nat -> list (option (list R)).
Variable full_grad : list (list R) -> list (option (list R)) -> list (option (list R)).

Definition toy_logits (ps : list (list R)) (x : R) : list R :=
  match ps with
  | [w; b] => zip_with (fun wj bj => (wj * x + bj)%S) w b
  | _ => []
  end.

Definition toy_softmax (row : list R) : list R :=
  let e := map exp row in div_scalar e (tsum e).

Fixpoint toy_row_max_from (j : nat) (best : R * nat) (row : list R) : R * nat :=
  match row with
  | [] => best
  | x :: row' =>
      toy_row_max_from (S j) (if s_ltb (fst best) x then (x, j) else best) row'
  end.

Definition toy_row_max (row : list R) : R * nat :=
  match row with
  | [] => (s_of_Z 0, 0%nat)
  | x :: row' => toy_row_max_from 1 (x, 0%nat) row'
  end.

(** One minus the probability of the label, averaged over the batch. *)
Definition toy_ce (logits : list (list R)) (labels : list nat) : R :=
  mean (zip_with (fun row y => (s_of_Z 1 - default (s_of_Z 0) (toy_softmax row !! y))%S)
                 logits labels).

Definition toy_sgd (rate : R) (ps : list (list R)) (gs : list (option (list R)))
  : list (list R) :=
  zip_with (fun p g => match g with
                       | Some g => zip_with (fun x d => (x - rate * d)%S) p g
                       | None => p
                       end) ps gs.

Definition toy_accuracy (labels preds : list nat) : R :=
  (s_of_nat (length (filter (fun yp => fst yp = snd yp) (zip labels preds)))
   / s_of_nat (length labels))%S.

Definition toy_load_rate (sd : list (list R)) : result R :=
  match sd with
  | [[x]] => Ok x
  | _ => Raise (KeyError "param_groups")
  end.

Definition toy_collab : Collab R := {|
  Img := R; Buf := unit; Ema := list (list R); Opt := R; Sch := R;
  Scaler := unit; Tb := list Z; StateDict := list (list R); Graph := list R;
  build_model := fun c =>
    ([repeat (s_of_Z 1) (NUM_CLASSES c); repeat (s_of_Z 0) (NUM_CLASSES c)], tt);
  build_ema := fun _ ps _ => ps;
  build_tb := fun _ => [];
  build_optim := fun _ _ => (s_of_Z 1 / s_of_Z 2)%S;
  build_sched := fun _ o => o;
  build_scaler := tt;
  model_train := fun b => b;
  model_eval := fun b => b;
  net_train := fun e b => (e, b);
  net_eval := fun e b => (e, b);
  enable_running_stats := fun b => b;
  disable_running_stats := fun b => b;
  net_call := fun _ ps b img => (mkGT (map (toy_logits ps) img) true, img, b);
  model_call := fun ps b img => (mkGT (map (toy_logits ps) img) true, img, b);
  net_update := fun _ ps _ => ps;
  ce_criterion := toy_ce;
  sat_criterion := fun lw _ tau p h =>
    (s_of_Z 0, repeat (s_of_Z 1) (length lw), tau, p, h);
  saf_criterion := fun _ _ p _ => (s_of_Z 0, p);
  softmax := toy_softmax;
  row_max := toy_row_max;
  autograd_grad := first_grad;
  backward := full_grad;
  scaled_backward := fun _ => full_grad;
  zero_grad := map (fun _ => None);
  optim_step := fun o ps gs => (o, toy_sgd o ps gs);
  scaler_step := fun _ o ps gs => (o, toy_sgd o ps gs);
  scaler_update := fun s => s;
  sched_step := fun s o => (s, o);
  lr := fun o => o;
  accuracy_score := toy_accuracy;
  precision_score := toy_accuracy;
  recall_score := toy_accuracy;
  f1_score := toy_accuracy;
  tb_update := fun b _ it => b ++ [it];
  model_state_dict := fun ps _ => ps;
  ema_state_dict := fun e => e;
  optimizer_state_dict := fun o => [[o]];
  scheduler_state_dict := fun s => [[s]];
  model_load_state_dict := fun sd _ b => Ok (sd, b);
  ema_load_state_dict := fun sd _ => Ok sd;
  optimizer_load_state_dict := fun sd _ => toy_load_rate sd;
  scheduler_load_state_dict := fun sd _ => toy_load_rate sd
|}.

End Toy.

(** ** Vocabulary of the statements *)

(** The four updates of a training iteration. The optimizer step is made
    by the optimizer or, under AMP, through the gradient scaler. *)
Inductive Update : Type := UBackward | UStep | USched | UEma.

Definition update_of (c : Call) : option Update :=
  match c with
  | CBackward => Some UBackward
  | COptimStep | CScalerStep => Some UStep
  | CSchedStep => Some USched
  | CEmaUpdate => Some UEma
  | _ => None
  end.


Section Vocabulary.
Context {R : Type} {SR : Scalar R} {CR : Collab R}.

(** The updates made by [m], in order, are a prefix of [L], and all of [L]
    when [m] returns. *)
Definition trace_in {A} (L : list Update) (m : M A) : Prop :=
  forall w : World, exists new,
    calls (fst (m w)) = calls w ++ new /\
    omap update_of new `prefix_of` L /\
    (is_ok (snd (m w)) = true -> omap update_of new = L).

(** The state dicts saved from [t] are accepted by the collaborators of
    [t'] (same architecture, same optimizer). *)
Definition state_dicts_accepted (t t' : Trainer) : bool :=
  is_ok (model_load_state_dict (model_state_dict (parameters t) (buffers t))
                               (parameters t') (buffers t'))
  && is_ok (ema_load_state_dict (ema_state_dict (net t)) (net t'))
  && is_ok (optimizer_load_state_dict (optimizer_state_dict (optim t)) (optim t'))
  && is_ok (scheduler_load_state_dict (scheduler_state_dict (sched t)) (sched t')).

(** The online parameters and the stored perturbation are left as they are. *)
Definition same_model (t t' : Trainer) : Prop :=
  parameters t' = parameters t /\ eps t' = eps t /\ grad_w t' = grad_w t.

(** The configuration and the iteration counter are left as they are. *)
Definition same_counter (t t' : Trainer) : Prop :=
  cfg t' = cfg t /\ curr_iter t' = curr_iter t.

(** An action that relates the trainer it leaves to the one it found by [P]. *)
Definition keeps (P : Trainer -> Trainer -> Prop) {A} (m : M A) : Prop :=
  forall w : World, P (self w) (self (fst (m w))).






(** The trainer whose state is checkpointed after an evaluation that
    measured [acc]. *)
Definition after_eval (t : Trainer) (acc : R) : Trainer :=
  if s_ltb (best_test_acc t) acc
  then set_best_test_iter (curr_iter t) (set_best_test_acc acc t)
  else t.

(** The directory and the two files of [eval_block]. *)
Definition checkpoint_dir (c : Config R) : string :=
  osp_join (osp_join (LOG_DIR c) (RUN_NAME c)) (OUTPUT_DIR c).
Definition best_path (c : Config R) : string := osp_join (checkpoint_dir c) "best_checkpoint.pth".
Definition last_path (c : Config R) : string := osp_join (checkpoint_dir c) "last_checkpoint.pth".

End Vocabulary.

(** ** Concrete inputs

    Two labeled images and one unlabeled image per batch, two classes, the
    small instance of the collaborators. The inputs are generic in the
    scalars: they are run on floats and on exact rationals. *)

Section Inputs.
Context {R : Type} {SR : Scalar R}.
Variable first_grad : list R -> list nat -> list (option (list R)).

(** [exp] by its Taylor polynomial. *)
Fixpoint exp_terms (n : nat) (k term x : R) : R :=
  match n with
  | O => s_of_Z 0
  | S n' => (term + exp_terms n' (k + s_of_Z 1) (term * x / k) x)%S
  end.

Definition toy_exp (x : R) : R := exp_terms 4 (s_of_Z 1) (s_of_Z 1) x.

Definition toy_full_grad (gs : list (list R)) (pg : list (option (list R)))
  : list (option (list R)) :=
  [Some [s_of_Z 1; s_of_Z 1]; Some [s_of_Z 1; s_of_Z 1]].

Definition toy : Collab R := toy_collab toy_exp first_grad toy_full_grad.
#[local] Existing Instance toy.

Definition toy_cfg (sharp amp resume : bool) (warmup iters evals : Z) : Config R :=
  {| NUM_TRAIN_ITERS := iters; NUM_EVAL_ITERS := evals;
     NUM_WARMUP_ITERS := warmup; NUM_LOG_ITERS := 1;
     ULB_LOSS_RATIO := s_of_Z 1; ENT_LOSS_RATIO := (s_of_Z 1 / s_of_Z 2)%S;
     X_SHARP := sharp; RHO := (s_of_Z 1 / s_of_Z 2)%S;
     NUM_CLASSES := 2; AMP_ENABLED := amp; POLOSS := true; USE_TB := true;
     CONT_TRAIN := resume; RESUME := "resume.pth";
     LOG_DIR := "log"; RUN_NAME := "run"; OUTPUT_DIR := "out" |}.

Definition toy_batch_lb : BatchLb :=
  {| lb_img_w := [s_of_Z 1; s_of_Z 2]; lb_label := [0%nat; 1%nat] |}.

Definition toy_batch_ulb : BatchUlb :=
  {| ulb_img_w := [s_of_Z 1]; ulb_img_s := [s_of_Z 2]; ulb_idx := [1%nat] |}.

(** A weak batch of one image against a strong batch of two. *)
Definition toy_batch_mismatch : BatchUlb :=
  {| ulb_img_w := [s_of_Z 1]; ulb_img_s := [s_of_Z 2; s_of_Z 3];
     ulb_idx := [1%nat] |}.

(** Loaders of [n] batches over an unlabeled dataset of three samples. *)
Definition toy_dm (n : nat) : DataManager :=
  {| train_lb_dl := repeat toy_batch_lb n;
     train_ulb_dl := repeat toy_batch_ulb n;
     test_dl := [toy_batch_lb];
     ulb_dataset_len := 3 |}.

Definition toy_world (c : Config R) (n : nat) : World :=
  {| self := initial_trainer c (toy_dm n); fs := ∅; calls := [] |}.

End Inputs.

(** Gradients of the labeled loss: none at all, all zero, and a gradient
    of norm 5 on the weights only. *)
Definition grads_none {R} : list R -> list nat -> list (option (list R)) :=
  fun _ _ => [None; None].

Definition grads_zero {R} {SR : Scalar R} : list R -> list nat -> list (option (list R)) :=
  fun _ _ => [Some [s_of_Z 0; s_of_Z 0]; Some [s_of_Z 0; s_of_Z 0]].

Definition grads_weights {R} {SR : Scalar R} : list R -> list nat -> list (option (list R)) :=
  fun _ _ => [Some [s_of_Z 3; s_of_Z 4]; None].

(** The square root of a rational whose numerator and denominator are
    perfect squares. *)
Definition Qc_sqrt (q : Qc) : Qc :=
  Q2Qc (Qmake (Z.sqrt (Qnum q)) (Pos.sqrt (Qden q))).

(** *** Runs on floats *)

(** A trainer in the middle of a run saves, and a fresh trainer of the same
    configuration resumes from the file. *)
Definition roundtrip_world : World (CR := toy (SR := float_scalar) grads_weights) :=
  fst (train (toy_world grads_weights (toy_cfg true false false 0 3 5) 3)).

(** The second iteration of a run with a cadence of two, at its
    evaluation block. *)
Definition eval_world : World (CR := toy (SR := float_scalar) grads_weights) :=
  {| self := set_curr_iter 1
               (initial_trainer (toy_cfg true false false 0 3 2) (toy_dm grads_weights 3));
     fs := ∅; calls := [] |}.

(** A disk with a checkpoint whose statistics are not the uniform ones. *)
Definition resume_files
  : gmap string (gmap string (Value (CR := toy (SR := float_scalar) grads_weights))) :=
  {[ "resume.pth" :=
       save_dict (set_tau_t 0.75%float (set_p_t [0.75; 0.25]%float
         (initial_trainer (toy_cfg false false false 0 3 5) (toy_dm grads_weights 3)))) ]}.

(** A run without sharpness-aware mode. *)
Definition plain_world : World (CR := toy (SR := float_scalar) grads_weights) :=
  toy_world grads_weights (toy_cfg false false false 0 3 5) 3.

Definition plain_no_losses
  : Losses (CR := toy (SR := float_scalar) grads_weights) * Locals float :=
  ({| loss := 0%float; loss_lb := 0%float; loss_sat := 0%float; loss_saf := 0%float;
      mask := []; hist_p_ulb_s := []; graphs := [] |},
   initial_locals (self plain_world)).

(** *** Runs on rationals *)

Section ExactInputs.
#[local] Hint Extern 0 (Scalar Qc) => exact (exact_scalar Qc_sqrt) : typeclass_instances.

(** One sharpness-aware iteration in exact arithmetic: the gradient
    [[3; 4]] has norm 5, the weights [[1; 1]] are perturbed to
    [[13/10; 7/5]] and come back to [[1; 1]]. *)
Definition exact_world : World (R := Qc) (CR := toy grads_weights) :=
  toy_world grads_weights (toy_cfg true false false 0 3 5) 3.

Definition no_losses : Losses (R := Qc) (CR := toy grads_weights) * Locals Qc :=
  ({| loss := 0%Qc; loss_lb := 0%Qc; loss_sat := 0%Qc; loss_saf := 0%Qc;
      mask := []; hist_p_ulb_s := []; graphs := [] |},
   initial_locals (R := Qc) (self exact_world)).

End ExactInputs.

(** ** Vocabulary of the further properties *)

Section EvaluationVocabulary.
Context {R : Type} {SR : Scalar R} {CR : Collab R}.

(** Everything of the trainer but the mode of the network and the buffers
    of the model is left as it is. *)
Definition same_but_mode (t t' : Trainer) : Prop :=
  t' = set_net (net t') (set_buffers (buffers t') t).

(** The number of images of a loader. *)
Definition num_images (test : list BatchLb) : nat :=
  length (concat (map lb_img_w test)).

(** The predicted classes of the batches whose logits are [outs]. *)
Definition argmax_rows (outs : list (list (list R))) : list nat :=
  concat (map (map (fun row => snd (row_max row))) outs).

(** The sum of the losses of the batches [test], whose logits are [outs],
    each weighted by the size of its batch. *)
Definition weighted_loss (outs : list (list (list R))) (test : list BatchLb) : R :=
  fold_left (fun s ob => (s + ce_criterion (fst ob) (lb_label (snd ob))
                              * s_of_nat (length (lb_img_w (snd ob))))%S)
            (zip outs test) (s_of_Z 0).

(** The logits of the batches of a loader under the forward pass
    [forward], in loader order, each pass starting from the buffers the
    pass before it left; and the buffers after the last pass. *)
Fixpoint forward_all (forward : Buf -> list Img -> GTensor R * Graph * Buf)
    (bufs : Buf) (batches : list BatchLb) : list (list (list R)) * Buf :=
  match batches with
  | [] => ([], bufs)
  | batch :: rest =>
      let out := forward bufs (lb_img_w batch) in
      let r := forward_all forward (snd out) rest in
      (values (fst (fst out)) :: fst r, snd r)
  end.

End EvaluationVocabulary.

Section WarmupVocabulary.
Context {R : Type} {SR : Scalar R} {CR : Collab R}.

(** The calls of one warmup iteration: the forward pass of the batch, the
    backward pass, the optimizer step (through the scaler under AMP), the
    printed record when the iteration is logged, and one forward pass of
    the online model per test batch. *)
Definition warmup_iteration_calls (amp log : bool) (n_test : nat) : list Call :=
  [CForward; CBackward]
  ++ (if amp then [CScalerStep; CScalerUpdate] else [COptimStep])
  ++ (if log then [CPprint] else [])
  ++ repeat CForward n_test.

(** The histogram of the predicted classes of [probs], as [warmup_train]
    normalises it. *)
Definition class_histogram (probs : list (list R)) : list R :=
  let max_idx := map (fun row => snd (row_max row)) probs in
  let label_hist := map s_of_nat (bincount max_idx (ncols probs)) in
  div_scalar label_hist (tsum label_hist).

(** The number of iterations a loop over [n] batches makes from the
    counter [i] under the budget [budget]. *)
Definition iterations (budget i : Z) (n : nat) : nat :=
  Nat.min n (Z.to_nat (budget - i)).

End WarmupVocabulary.

Section EffectVocabulary.
Context {R : Type} {SR : Scalar R} {CR : Collab R}.

(** The run is at the same place: same configuration, same loaders, same
    counter, same files on disk. *)
Definition same_place (w w' : World) : Prop :=
  cfg (self w') = cfg (self w) /\ dm (self w') = dm (self w) /\
  curr_iter (self w') = curr_iter (self w) /\ fs w' = fs w.

(** An action that, when it returns, has made the calls [cs] and has left
    the run at the same place. *)
Definition step_of (cs : list Call) {A} (m : M A) : Prop :=
  forall (w w' : World) a, m w = (w', Ok a) ->
    same_place w w' /\ calls w' = calls w ++ cs.

(** An action that counts one iteration: the counter is advanced by one
    when the action returns and is left as it was when the action raises;
    the configuration is left as it was. *)
Definition counts {A} (m : M A) : Prop :=
  forall w : World,
    cfg (self (fst (m w))) = cfg (self w) /\
    curr_iter (self (fst (m w)))
    = if is_ok (snd (m w)) then curr_iter (self w) + 1 else curr_iter (self w).

(** The tensorboard attribute is left as it is. *)
Definition same_tb (t t' : Trainer) : Prop := tb t' = tb t.

(** An action that leaves the files on disk as they are, whether it
    returns or raises. *)
Definition writes_nothing {A} (m : M A) : Prop :=
  forall w : World, fs (fst (m w)) = fs w.

End EffectVocabulary.

Section StatisticsVocabulary.
Context {R : Type} {SR : Scalar R} {CR : Collab R}.

(** The five results of the self-adaptive threshold criterion, by name. *)
Definition sat_loss (r : R * list R * R * list R * list R) : R := fst (fst (fst (fst r))).
Definition sat_mask (r : R * list R * R * list R * list R) : list R :=
  snd (fst (fst (fst r))).
Definition sat_tau (r : R * list R * R * list R * list R) : R := snd (fst (fst r)).
Definition sat_p (r : R * list R * R * list R * list R) : list R := snd (fst r).
Definition sat_hist (r : R * list R * R * list R * list R) : list R := snd r.

(** The images of an iteration, as they are concatenated for the network. *)
Definition iteration_images (batch_lb : BatchLb) (batch_ulb : BatchUlb) : list Img :=
  lb_img_w batch_lb ++ ulb_img_w batch_ulb ++ ulb_img_s batch_ulb.

End StatisticsVocabulary.

Section UpdateVocabulary.
Context {R : Type} {SR : Scalar R} {CR : Collab R}.

(** The gradients after the backward pass of a loss built on the graphs
    [gs]; under AMP the loss is scaled by the gradient scaler. *)
Definition backward_pass (t : Trainer) (gs : list Graph)
  : option (list (option (list R))) :=
  if AMP_ENABLED (cfg t)
  then match scaler t with
       | Some sc => Some (scaled_backward sc gs (grad t))
       | None => None
       end
  else Some (backward gs (grad t)).

(** The optimizer step on the parameters [ps] with the gradients [gs],
    made by the optimizer or, under AMP, through the gradient scaler. *)
Definition optimizer_step (t : Trainer) (ps : list (list R)) (gs : list (option (list R)))
  : option (Opt * list (list R)) :=
  if AMP_ENABLED (cfg t)
  then match scaler t with
       | Some sc => Some (scaler_step sc (optim t) ps gs)
       | None => None
       end
  else Some (optim_step (optim t) ps gs).

(** The gradient scaler after an iteration: updated under AMP. *)
Definition scaler_after (t : Trainer) : option Scaler :=
  if AMP_ENABLED (cfg t)
  then match scaler t with Some sc => Some (scaler_update sc) | None => None end
  else scaler t.

End UpdateVocabulary.

Section IterationVocabulary.
Context {R : Type} {SR : Scalar R} {CR : Collab R}.

(** What the evaluation block leaves as it is: the online parameters and
    their gradients, the optimizer, the scheduler and the scaler. *)
Definition same_training (t t' : Trainer) : Prop :=
  parameters t' = parameters t /\ grad t' = grad t /\ optim t' = optim t /\
  sched t' = sched t /\ scaler t' = scaler t.

(** What the losses of an iteration leave as they are: the configuration,
    the loaders, the counter, the best accuracy and its iteration. *)
Definition same_run (t t' : Trainer) : Prop :=
  cfg t' = cfg t /\ dm t' = dm t /\ curr_iter t' = curr_iter t /\
  best_test_acc t' = best_test_acc t /\ best_test_iter t' = best_test_iter t.



End IterationVocabulary.

(** *** Further inputs *)

Section FurtherInputs.
Context {R : Type} {SR : Scalar R}.

(** The configuration of a small sharpness-aware run without tensorboard
    that evaluates at every second iteration. *)
Definition toy_cfg_no_tb : Config R :=
  {| NUM_TRAIN_ITERS := 3; NUM_EVAL_ITERS := 2;
     NUM_WARMUP_ITERS := 0; NUM_LOG_ITERS := 1;
     ULB_LOSS_RATIO := s_of_Z 1; ENT_LOSS_RATIO := (s_of_Z 1 / s_of_Z 2)%S;
     X_SHARP := true; RHO := (s_of_Z 1 / s_of_Z 2)%S;
     NUM_CLASSES := 2; AMP_ENABLED := false; POLOSS := true; USE_TB := false;
     CONT_TRAIN := false; RESUME := "resume.pth";
     LOG_DIR := "log"; RUN_NAME := "run"; OUTPUT_DIR := "out" |}.

End FurtherInputs.

(** The second iteration of a run without tensorboard. *)
Definition no_tb_world : World (CR := toy (SR := float_scalar) grads_weights) :=
  {| self := set_curr_iter 1 (initial_trainer toy_cfg_no_tb (toy_dm grads_weights 3));
     fs := ∅; calls := [] |}.

(** * Properties *)

(** ** Reasoning about runs *)

Section Runs.
Context {R : Type} {SR : Scalar R} {CR : Collab R}.

Lemma bind_ok {A B} (m : M A) (k : A -> M B) (w w' : World) a :
  m w = (w', Ok a) -> bind m k w = k a w'.
Proof. intros E. unfold bind. rewrite E. reflexivity. Qed.

Lemma bind_raise {A B} (m : M A) (k : A -> M B) (w w' : World) e :
  m w = (w', Raise e) -> bind m k w = (w', Raise e).
Proof. intros E. unfold bind. rewrite E. reflexivity. Qed.

Lemma bind_Ok_inv {A B} (m : M A) (k : A -> M B) (w w' : World) b :
  bind m k w = (w', Ok b) -> exists w1 a, m w = (w1, Ok a) /\ k a w1 = (w', Ok b).
Proof.
  unfold bind. destruct (m w) as [w1 [a|e]]; intros E; [eauto | discriminate].
Qed.

Lemma is_ok_true {A} (r : result A) : is_ok r = true -> exists a, r = Ok a.
Proof. destruct r; [eauto | discriminate]. Qed.

End Runs.

(** Runs the first action of a sequence, after [tac] has exposed its result,
    and continues with the rest. *)
Ltac mstep tac :=
  etransitivity; [apply bind_ok; tac; reflexivity|]; cbv beta.

(** Splits a successful sequence into its first action and the rest. *)
Tactic Notation "minv" hyp(E) "as" ident(w1) ident(a) ident(E1) :=
  apply bind_Ok_inv in E; destruct E as (w1 & a & E1 & E).

(** ** C1: checkpoint round trip *)

Section CheckpointRoundTrip.
Context {R : Type} {SR : Scalar R} {CR : Collab R}.

Ltac lookup_save :=
  unfold ckpt_get, save_dict;
  repeat (rewrite lookup_insert_ne by discriminate);
  rewrite lookup_insert_eq; reflexivity.

Lemma saved_model t :
  ckpt_get (save_dict t) "model_state_dict"
  = Ok (VState (model_state_dict (parameters t) (buffers t))).
Proof. lookup_save. Qed.

Lemma saved_ema t :
  ckpt_get (save_dict t) "ema_state_dict" = Ok (VState (ema_state_dict (net t))).
Proof. lookup_save. Qed.

Lemma saved_optimizer t :
  ckpt_get (save_dict t) "optimizer_state_dict"
  = Ok (VState (optimizer_state_dict (optim t))).
Proof. lookup_save. Qed.

Lemma saved_scheduler t :
  ckpt_get (save_dict t) "scheduler_state_dict"
  = Ok (VState (scheduler_state_dict (sched t))).
Proof. lookup_save. Qed.

Lemma saved_curr_iter t : ckpt_get (save_dict t) "curr_iter" = Ok (VInt (curr_iter t)).
Proof. lookup_save. Qed.

Lemma saved_best_test_iter t :
  ckpt_get (save_dict t) "best_test_iter" = Ok (VInt (best_test_iter t)).
Proof. lookup_save. Qed.

Lemma saved_best_test_acc t :
  ckpt_get (save_dict t) "best_test_acc" = Ok (VNum (best_test_acc t)).
Proof. lookup_save. Qed.

Lemma saved_tau_t t : ckpt_get (save_dict t) "tau_t" = Ok (VTensor [tau_t t]).
Proof. lookup_save. Qed.

Lemma saved_p_t t : ckpt_get (save_dict t) "p_t" = Ok (VTensor (p_t t)).
Proof. lookup_save. Qed.

Lemma saved_label_hist t :
  ckpt_get (save_dict t) "label_hist" = Ok (VTensor (label_hist t)).
Proof. lookup_save. Qed.

(** Loading the file [__save__model__] wrote from [t] into a trainer [t']:
    the state of the collaborators is what their [load_state_dict] returns,
    the counter, the best accuracy and the statistics are those of [t]. *)
Lemma load_saved (t t' : Trainer) path files log pb e o s :
  model_load_state_dict (model_state_dict (parameters t) (buffers t))
                        (parameters t') (buffers t') = Ok pb ->
  ema_load_state_dict (ema_state_dict (net t)) (net t') = Ok e ->
  optimizer_load_state_dict (optimizer_state_dict (optim t)) (optim t') = Ok o ->
  scheduler_load_state_dict (scheduler_state_dict (sched t)) (sched t') = Ok s ->
  __load__model__ path
    {| self := t'; fs := <[path := save_dict t]> files; calls := log |}
  = ({| self :=
          {| cfg := cfg t'; dm := dm t'; parameters := fst pb; grad := grad t';
             buffers := snd pb; net := e; optim := o; sched := s;
             scaler := scaler t'; tb := tb t';
             curr_iter := curr_iter t; best_test_iter := best_test_iter t;
             best_test_acc := best_test_acc t; p_t := p_t t;
             label_hist := label_hist t; tau_t := tau_t t;
             grad_w := grad_w t'; eps := eps t' |};
        fs := <[path := save_dict t]> files; calls := log ++ [CLoad path] |}, Ok tt).
Proof.
  intros Hm He Ho Hs. unfold __load__model__.
  mstep ltac:(unfold torch_load; cbn [fs self calls]; rewrite lookup_insert_eq).
  mstep ltac:(unfold lift; rewrite saved_model; cbn [rbind as_state]).
  mstep idtac.
  mstep ltac:(unfold lift; cbn [self parameters buffers]; rewrite Hm).
  mstep idtac.
  mstep ltac:(unfold lift; rewrite saved_ema; cbn [rbind as_state]).
  mstep idtac.
  mstep ltac:(unfold lift; cbn; rewrite He).
  mstep idtac.
  mstep ltac:(unfold lift; rewrite saved_optimizer; cbn [rbind as_state]).
  mstep idtac.
  mstep ltac:(unfold lift; cbn; rewrite Ho).
  mstep idtac.
  mstep ltac:(unfold lift; rewrite saved_scheduler; cbn [rbind as_state]).
  mstep idtac.
  mstep ltac:(unfold lift; cbn; rewrite Hs).
  mstep idtac.
  mstep ltac:(unfold lift; rewrite saved_curr_iter; cbn [rbind as_int]).
  mstep idtac.
  mstep ltac:(unfold lift; rewrite saved_tau_t; cbn [rbind as_scalar_tensor]).
  mstep idtac.
  mstep ltac:(unfold lift; rewrite saved_p_t; cbn [rbind as_tensor]).
  mstep idtac.
  mstep ltac:(unfold lift; rewrite saved_label_hist; cbn [rbind as_tensor]).
  mstep idtac.
  mstep ltac:(unfold lift; rewrite saved_best_test_iter; cbn [rbind as_int]).
  mstep idtac.
  mstep ltac:(unfold lift; rewrite saved_best_test_acc; cbn [rbind as_num]).
  reflexivity.
Qed.

(** C1. For every trainer state: [__save__model__] succeeds, and
    [__load__model__] on the file it wrote, run by any trainer whose
    collaborators accept the saved state dicts, succeeds and leaves
    [curr_iter], [best_test_acc], [best_test_iter], [tau_t], [p_t] and
    [label_hist] equal to their values at save time. *)
Theorem checkpoint_roundtrip (w : World) (t' : Trainer) (save_dir save_name : string) :
  state_dicts_accepted (self w) t' = true ->
  let saved := __save__model__ save_dir save_name w in
  let resumed := __load__model__ (osp_join save_dir save_name)
                   {| self := t'; fs := fs (fst saved); calls := [] |} in
  snd saved = Ok tt /\ snd resumed = Ok tt /\
  curr_iter (self (fst resumed)) = curr_iter (self w) /\
  best_test_acc (self (fst resumed)) = best_test_acc (self w) /\
  best_test_iter (self (fst resumed)) = best_test_iter (self w) /\
  tau_t (self (fst resumed)) = tau_t (self w) /\
  p_t (self (fst resumed)) = p_t (self w) /\
  label_hist (self (fst resumed)) = label_hist (self w).
Proof.
  intros Hacc. unfold state_dicts_accepted in Hacc.
  apply andb_prop in Hacc as [Hacc Hs]. apply andb_prop in Hacc as [Hacc Ho].
  apply andb_prop in Hacc as [Hm He].
  apply is_ok_true in Hm as [pb Hm]. apply is_ok_true in He as [e He].
  apply is_ok_true in Ho as [o Ho]. apply is_ok_true in Hs as [s Hs].
  intros saved resumed.
  assert (Hfs : fs (fst saved)
                = <[osp_join save_dir save_name := save_dict (self w)]> (fs w))
    by reflexivity.
  subst resumed. rewrite Hfs.
  rewrite (load_saved _ _ _ _ _ _ _ _ _ Hm He Ho Hs).
  repeat split.
Qed.

End CheckpointRoundTrip.

Lemma checkpoint_roundtrip_witness :
  let fresh := initial_trainer (toy_cfg true false false 0 3 5) (toy_dm grads_weights 3) in
  let saved := __save__model__ "log" "last.pth" roundtrip_world in
  let resumed := __load__model__ (osp_join "log" "last.pth")
                   {| self := fresh; fs := fs (fst saved); calls := [] |} in
  snd saved = Ok tt /\ snd resumed = Ok tt /\
  curr_iter (self (fst resumed)) = curr_iter (self roundtrip_world) /\
  best_test_acc (self (fst resumed)) = best_test_acc (self roundtrip_world) /\
  best_test_iter (self (fst resumed)) = best_test_iter (self roundtrip_world) /\
  tau_t (self (fst resumed)) = tau_t (self roundtrip_world) /\
  p_t (self (fst resumed)) = p_t (self roundtrip_world) /\
  label_hist (self (fst resumed)) = label_hist (self roundtrip_world).
Proof.
  apply (checkpoint_roundtrip roundtrip_world). vm_compute. reflexivity.
Defined.

(** ** C2: the gradient norm is not guarded *)

Section SharpnessGuard.
Context {R : Type} {SR : Scalar R} {CR : Collab R}.

Lemma omap_id_nil (gw : list (option (list R))) :
  Forall (fun g => g = None) gw <-> omap id gw = [].
Proof.
  induction gw as [|[g|] gw IH]; cbn.
  - split; [done | constructor].
  - split; [intros F; inversion F; discriminate | discriminate].
  - rewrite <- IH. split; [intros F; by inversion F | by constructor].
Qed.

Lemma perturb_params_skips_none (ps : list (list R)) eps i :
  eps !! i = Some None -> fst (perturb_params ps eps) !! i = ps !! i.
Proof.
  revert eps i. induction ps as [|p ps IH]; intros [|v eps] i Hi; try done.
  destruct i as [|i]; cbn in Hi.
  - injection Hi as ->. reflexivity.
  - cbn [perturb_params]. destruct v as [v|]; [destruct (vadd p v)|]; cbn;
      try apply IH; done.
Qed.

(** C2, as the code has it. With the gradients [gw] of the labeled loss:
    when every gradient is [None], computing the norm raises and the
    parameters are untouched; otherwise the perturbation is each gradient
    times [rho / norm], with the norm as computed and no guard on it, and
    [None] for a gradient that is [None]; the perturbation loop leaves a
    parameter whose perturbation is [None] as it is. *)
Theorem sharp_eps_unguarded (g1 : Graph) (label_lb : list nat) (w : World) :
  let gw := autograd_grad g1 label_lb in
  let r := sharp_eps g1 label_lb w in
  (Forall (fun g => g = None) gw ->
     snd r = Raise (RuntimeError "torch.cat(): expected a non-empty list of Tensors") /\
     parameters (self (fst r)) = parameters (self w)) /\
  (~ Forall (fun g => g = None) gw ->
     snd r = Ok tt /\
     parameters (self (fst r)) = parameters (self w) /\
     eps (self (fst r))
     = Some (map (option_map (fun g =>
                    mul_scalar g (RHO (cfg (self w)) / norm2 (concat (omap id gw)))%S))
                 gw)) /\
  (forall (ps : list (list R)) e i,
     e !! i = Some None -> fst (perturb_params ps e) !! i = ps !! i).
Proof.
  intros gw r. split; [|split].
  - intros F. apply omap_id_nil in F. subst r.
    unfold sharp_eps, self_grad_w, bind, modify, call, get, lift, raise, ret, norm.
    cbn. fold gw. rewrite F. cbn. done.
  - intros F. subst r.
    unfold sharp_eps, self_grad_w, bind, modify, call, get, lift, raise, ret, norm.
    cbn. fold gw. destruct (omap id gw) as [|t ts] eqn:E.
    + exfalso. apply F. by apply omap_id_nil.
    + cbn. done.
  - apply perturb_params_skips_none.
Qed.

End SharpnessGuard.

(** The claim fails on the code: when no parameter has a gradient the
    iteration raises instead of going on unperturbed, and a gradient that
    is zero everywhere turns every parameter into NaN. *)
Lemma sharp_zero_norm_counterexample :
  let c := toy_cfg (SR := float_scalar) true false false 0 3 5 in
  let none := toy_world grads_none c 3 in
  let zero := toy_world grads_zero c 3 in
  Forall (fun g => g = None) (grads_none [] [] : list (option (list float))) /\
  snd (train_step (initial_locals (self none)) (toy_batch_lb grads_none)
                  (toy_batch_ulb grads_none) none)
  = Raise (RuntimeError "torch.cat(): expected a non-empty list of Tensors") /\
  norm (grads_zero (SR := float_scalar) [] []) = Ok 0%float /\
  is_ok (snd (train_step (initial_locals (self zero)) (toy_batch_lb grads_zero)
                         (toy_batch_ulb grads_zero) zero)) = true /\
  forallb (forallb PrimFloat.is_nan)
    (parameters (self (fst (train_step (initial_locals (self zero))
       (toy_batch_lb grads_zero) (toy_batch_ulb grads_zero) zero)))) = true.
Proof.
  cbv zeta. split; [repeat constructor|].
  split; [vm_compute; reflexivity|].
  split; [vm_compute; reflexivity|].
  split; vm_compute; reflexivity.
Qed.

Lemma sharp_eps_unguarded_witness :
  let w := toy_world (SR := float_scalar) grads_weights
             (toy_cfg true false false 0 3 5) 3 in
  let r := sharp_eps (CR := toy grads_weights) ([] : list float) [] w in
  snd r = Ok tt /\
  parameters (self (fst r)) = parameters (self w) /\
  eps (self (fst r))
  = Some [Some [3 * (0.5 / 5); 4 * (0.5 / 5)]%float; None].
Proof.
  cbv zeta.
  destruct (sharp_eps_unguarded (CR := toy grads_weights) ([] : list float) []
              (toy_world grads_weights (toy_cfg true false false 0 3 5) 3))
    as (_ & Hsome & _).
  destruct Hsome as (Hok & Hp & He).
  - intros F. inversion F. discriminate.
  - split; [exact Hok|]. split; [exact Hp|]. rewrite He. vm_compute. reflexivity.
Defined.

(** ** Actions that leave a part of the trainer as it is *)

Section Frames.
Context {R : Type} {SR : Scalar R} {CR : Collab R}.

#[export] Instance same_model_reflexive : Reflexive (same_model (R := R)).
Proof. intros t. by repeat split. Qed.

#[export] Instance same_model_transitive : Transitive (same_model (R := R)).
Proof. intros t1 t2 t3 (?&?&?) (?&?&?). repeat split; congruence. Qed.

#[export] Instance same_counter_reflexive : Reflexive (same_counter (R := R)).
Proof. intros t. by split. Qed.

#[export] Instance same_counter_transitive : Transitive (same_counter (R := R)).
Proof. intros t1 t2 t3 (?&?) (?&?). split; congruence. Qed.

Context (P : Trainer -> Trainer -> Prop) {P_refl : Reflexive P} {P_trans : Transitive P}.

Lemma keeps_bind {A B} (m : M A) (k : A -> M B) :
  keeps P m -> (forall a, keeps P (k a)) -> keeps P (bind m k).
Proof.
  intros Hm Hk w. specialize (Hm w). unfold bind.
  destruct (m w) as [w1 [a|e]]; cbn in *; [|done].
  etransitivity; [exact Hm | apply Hk].
Qed.

Lemma keeps_same {A} (m : M A) :
  (forall w : World, self (fst (m w)) = self w) -> keeps P m.
Proof. intros E w. rewrite E. reflexivity. Qed.

Lemma keeps_ret {A} (a : A) : keeps P (ret a).
Proof. by apply keeps_same. Qed.

Lemma keeps_raise {A} e : keeps P (raise (A := A) e).
Proof. by apply keeps_same. Qed.

Lemma keeps_lift {A} (r : result A) : keeps P (lift r).
Proof. by apply keeps_same. Qed.

Lemma keeps_get : keeps P get.
Proof. by apply keeps_same. Qed.

Lemma keeps_call c : keeps P (call c).
Proof. by apply keeps_same. Qed.

Lemma keeps_assert b : keeps P (assert b).
Proof. destruct b; by apply keeps_same. Qed.

Lemma keeps_modify f : (forall t, P t (f t)) -> keeps P (modify f).
Proof. intros Hf w. apply Hf. Qed.

Lemma keeps_act {A} (f : Trainer -> Trainer * A) :
  (forall t, P t (fst (f t))) -> keeps P (act f).
Proof. intros Hf w. apply Hf. Qed.

Lemma keeps_when b m : keeps P m -> keeps P (when b m).
Proof. destruct b; [done|]. intros _. apply keeps_ret. Qed.

End Frames.

Create HintDb frame discriminated.

Ltac keeps :=
  repeat first
    [ solve [auto with frame nocore]
    | simple apply keeps_ret | simple apply keeps_raise | simple apply keeps_lift
    | simple apply keeps_get | simple apply keeps_call | simple apply keeps_assert
    | simple apply keeps_modify; [apply _ ..|]; intros ?; repeat split; reflexivity
    | simple apply keeps_act; [apply _ ..|]; intros ?; repeat split; reflexivity
    | simple apply keeps_when
    | simple apply keeps_bind; [apply _ ..| |intros ?]
    | apply _
    | match goal with
      | |- keeps _ (match ?x with _ => _ end) => destruct x
      end ].

(** Splits a successful sequence and records what its first action keeps. *)
Tactic Notation "mframe" constr(P) hyp(E) "as" ident(w1) ident(a) ident(E1) ident(K) :=
  apply bind_Ok_inv in E; destruct E as (w1 & a & E1 & E);
  match type of E1 with
  | ?m ?w0 = _ =>
      assert (K : keeps P m) by keeps;
      specialize (K w0); rewrite E1 in K; cbn [fst] in K
  end.

Section FramesOfSteps.
Context {R : Type} {SR : Scalar R} {CR : Collab R}.

Lemma model_net_forward img : keeps same_model (net_forward img).
Proof. unfold net_forward. keeps. Qed.

Lemma model_loss_backward gs : keeps same_model (loss_backward gs).
Proof. unfold loss_backward. keeps. Qed.

Lemma model_scaler_scale_backward gs : keeps same_model (scaler_scale_backward gs).
Proof. unfold scaler_scale_backward, self_scaler. keeps. Qed.

Lemma counter_net_forward img : keeps same_counter (net_forward img).
Proof. unfold net_forward. keeps. Qed.

Lemma counter_model_forward img : keeps same_counter (model_forward img).
Proof. unfold model_forward. keeps. Qed.

(** What [sharp_eps] leaves behind: the gradient list and a perturbation
    of the same length; the parameters are not touched. *)
Lemma sharp_eps_inv g1 labels (w w' : World) :
  sharp_eps g1 labels w = (w', Ok tt) ->
  parameters (self w') = parameters (self w) /\
  exists e g, eps (self w') = Some e /\ grad_w (self w') = Some g /\ length e = length g.
Proof.
  unfold sharp_eps, self_grad_w, bind, modify, call, get, lift, raise, ret. cbn.
  destruct (norm _); intros E; inversion E; subst; clear E. cbn. split; [done|].
  eexists _, _. repeat split. by rewrite length_map.
Qed.

Lemma perturb_model_inv (w w' : World) e :
  eps (self w) = Some e ->
  perturb_model w = (w', Ok tt) ->
  perturb_params (parameters (self w)) e = (parameters (self w'), None) /\
  eps (self w') = eps (self w) /\ grad_w (self w') = grad_w (self w).
Proof.
  intros He. unfold perturb_model, self_eps, bind, act, get, raise, ret. rewrite He. cbn.
  destruct (perturb_params (parameters (self w)) e) as [ps [x|]] eqn:Ep; cbn;
    intros E; inversion E; subst; clear E. cbn. done.
Qed.

Lemma restore_model_inv (w w' : World) e g :
  eps (self w) = Some e -> grad_w (self w) = Some g ->
  restore_model w = (w', Ok tt) ->
  exists gs, restore_params (parameters (self w)) (grad (self w)) e g
             = (parameters (self w'), gs, None).
Proof.
  intros He Hg. unfold restore_model, self_eps, self_grad_w, bind, act, get, raise, ret.
  rewrite He, Hg. cbn.
  destruct (restore_params _ _ _ _) as [[ps gs] [x|]] eqn:Ep; cbn;
    intros E; inversion E; subst; clear E. cbn. eauto.
Qed.

Lemma sharp_eps_frame g1 labels (w w' : World) :
  sharp_eps g1 labels w = (w', Ok tt) ->
  self w' = set_eps (eps (self w')) (set_grad_w (grad_w (self w')) (self w)).
Proof.
  unfold sharp_eps, self_grad_w, bind, modify, call, get, lift, raise, ret. cbn.
  destruct (norm _); intros E; inversion E; subst; clear E. cbn.
  by destruct (self w).
Qed.

Lemma perturb_model_frame (w w' : World) :
  perturb_model w = (w', Ok tt) ->
  self w' = set_parameters (parameters (self w')) (self w).
Proof.
  unfold perturb_model, self_eps, bind, act, get, raise, ret.
  destruct (eps (self w)) as [e|]; [|discriminate]. cbn.
  destruct (perturb_params (parameters (self w)) e) as [ps [x|]]; cbn;
    intros E; inversion E; subst; clear E. cbn. by destruct (self w).
Qed.

End FramesOfSteps.

#[global] Hint Resolve model_net_forward counter_net_forward counter_model_forward
  : frame.

Section SharpForward.
Context {R : Type} {SR : Scalar R} {CR : Collab R}.

(** In sharpness-aware mode a successful [forward_losses] has perturbed the
    parameters it started from with the perturbation it leaves in [eps]. *)
Lemma sharp_forward_inv (l : Locals R) b1 b2 (w w1 : World) ll :
  X_SHARP (cfg (self w)) = true ->
  forward_losses l b1 b2 w = (w1, Ok ll) ->
  exists e g, eps (self w1) = Some e /\ grad_w (self w1) = Some g /\
              length e = length g /\
              perturb_params (parameters (self w)) e = (parameters (self w1), None).
Proof.
  intros Hs E. unfold forward_losses in E.
  minv E as wa u Ea. unfold assert in Ea.
  destruct (Nat.eqb _ _); [|discriminate]. inversion Ea; subst wa; clear Ea.
  minv E as wb t Eb. inversion Eb; subst; clear Eb. rewrite Hs in E. cbn [when negb] in E.
  minv E as wc u' Ec. inversion Ec; subst; clear Ec.
  minv E as wd out Ed.
  match type of Ed with net_forward ?i ?w0 = _ =>
    pose proof (model_net_forward i w0) as K1; rewrite Ed in K1; cbn in K1 end.
  minv E as we ch Ee. apply (f_equal fst) in Ee. cbn in Ee. subst we.
  unfold sharp_losses in E.
  minv E as wf u'' Ef. destruct u''.
  apply sharp_eps_inv in Ef as (Hp & e & g & He & Hg & Hlen).
  minv E as wg u3 Eg. destruct u3.
  pose proof (perturb_model_inv _ _ _ He Eg) as (Hpp & He' & Hg').
  match type of E with ?m ?w0 = _ =>
    assert (K : keeps same_model m) by keeps; specialize (K w0); rewrite E in K end.
  cbn in K. destruct K as (Kp & Ke & Kg).
  exists e, g. rewrite Ke, Kg, He', Hg', Kp. repeat split; try done.
  destruct K1 as (K1p & _). rewrite Hp, K1p in Hpp. exact Hpp.
Qed.

End SharpForward.

(** ** C3: the counter after warmup *)

Section WarmupCounter.
Context {R : Type} {SR : Scalar R} {CR : Collab R}.

Lemma counter_warmup_probs bs probs : keeps same_counter (warmup_probs bs probs).
Proof.
  revert probs. induction bs as [|b bs IH]; intros probs; cbn [warmup_probs].
  - keeps.
  - simple apply keeps_bind; [apply _ | keeps|]. intros ?. apply IH.
Qed.

Lemma counter_warmup_stats : keeps same_counter warmup_stats.
Proof. unfold warmup_stats. pose proof counter_warmup_probs. keeps. Qed.

(** A warmup iteration that returns has advanced the counter by one. *)
Lemma warmup_step_counter batch_lb (w w' : World) :
  warmup_step batch_lb w = (w', Ok tt) ->
  cfg (self w') = cfg (self w) /\ curr_iter (self w') = curr_iter (self w) + 1.
Proof.
  unfold warmup_step. intros E.
  mframe same_counter E as w1 out E1 K1.
  mframe same_counter E as w2 t E2 K2.
  inversion E2; subst; clear E2.
  apply bind_Ok_inv in E. destruct E as (w3 & u & E3 & E).
  assert (K3 : same_counter (self w2) (self w3)).
  { destruct (AMP_ENABLED (cfg (self w2)));
    match type of E3 with ?m ?w0 = _ =>
      assert (K : keeps same_counter m)
        by (unfold scaler_scale_backward, self_scaler_step, self_scaler_update,
              self_scaler, loss_backward, self_optim_step; keeps);
      specialize (K w0); rewrite E3 in K; exact K end. }
  mframe same_counter E as w4 t4 E4 K4.
  mframe same_counter E as w5 m E5 K5.
  mframe same_counter E as w6 u6 E6 K6.
  apply bind_Ok_inv in E. destruct E as (w7 & u7 & E7 & E).
  inversion E7; subst; clear E7.
  pose proof (counter_warmup_stats
                {| self := set_curr_iter (curr_iter (self w6) + 1) (self w6);
                   fs := fs w6; calls := calls w6 |}) as K8.
  rewrite E in K8. cbn in K8.
  destruct K8 as [K8a K8b]. cbn in K8a, K8b.
  destruct K1, K2, K3, K4, K5, K6. split; congruence.
Qed.

(** The counter when the warmup loop returns: zero when the loader had a
    batch left for the exit test to see, and otherwise the counter at
    entry plus the number of batches. *)
Lemma warmup_loop_counter (batches : list BatchLb) (w w' : World) :
  warmup_loop batches w = (w', Ok tt) ->
  let left := Z.max 0 (NUM_WARMUP_ITERS (cfg (self w)) - curr_iter (self w)) in
  cfg (self w') = cfg (self w) /\
  curr_iter (self w')
  = if left <? Z.of_nat (length batches) then 0
    else curr_iter (self w) + Z.of_nat (length batches).
Proof.
  revert w. induction batches as [|b batches IH]; intros w E left.
  - inversion E; subst. split; [done|].
    assert (H : (left <? Z.of_nat 0) = false) by (apply Z.ltb_ge; subst left; cbn; lia).
    cbn [length]. rewrite H. cbn. lia.
  - cbn [warmup_loop] in E. unfold bind at 1, get in E.
    destruct (NUM_WARMUP_ITERS (cfg (self w)) <=? curr_iter (self w)) eqn:Hle.
    + inversion E; subst; clear E. split; [reflexivity|].
      apply Z.leb_le in Hle.
      assert (H : (left <? Z.of_nat (length (b :: batches))) = true)
        by (apply Z.ltb_lt; subst left; cbn [length]; lia).
      rewrite H. reflexivity.
    + apply Z.leb_gt in Hle.
      apply bind_Ok_inv in E. destruct E as (w1 & [] & E1 & E).
      destruct (warmup_step_counter _ _ _ E1) as [Hc Hi].
      destruct (IH _ E) as [Hc' Hi']. split; [congruence|].
      rewrite Hi'. rewrite Hc, Hi. subst left. cbn [length].
      destruct (Z.max 0 (NUM_WARMUP_ITERS (cfg (self w)) - (curr_iter (self w) + 1))
                <? Z.of_nat (length batches)) eqn:H1;
      destruct (Z.max 0 (NUM_WARMUP_ITERS (cfg (self w)) - curr_iter (self w))
                <? Z.of_nat (S (length batches))) eqn:H2;
      try reflexivity;
      try apply Z.ltb_lt in H1; try apply Z.ltb_ge in H1;
      try apply Z.ltb_lt in H2; try apply Z.ltb_ge in H2; lia.
Qed.

(** C3. The loop leaves by its exit test or by exhaustion of the loader.
    The counter is reset by the exit test alone, which runs only when the
    loader yields one more batch: when the loop returns, the counter is 0
    if the loader held more batches than the iterations left to make, and
    otherwise it is the counter at entry plus the number of batches. With
    a budget of two iterations, a loader of two batches returns with the
    counter at 2 and a loader of three batches with the counter at 0. *)
Theorem warmup_exhausted_keeps_counter :
  (forall (batches : list BatchLb) (w w' : World),
     warmup_loop batches w = (w', Ok tt) ->
     curr_iter (self w')
     = if Z.max 0 (NUM_WARMUP_ITERS (cfg (self w)) - curr_iter (self w))
          <? Z.of_nat (length batches)
       then 0 else curr_iter (self w) + Z.of_nat (length batches)) /\
  let c := toy_cfg (SR := float_scalar) false false false 2 3 5 in
  snd (warmup_train (toy_world grads_weights c 2)) = Ok tt /\
  curr_iter (self (fst (warmup_train (toy_world grads_weights c 2)))) = 2 /\
  snd (warmup_train (toy_world grads_weights c 3)) = Ok tt /\
  curr_iter (self (fst (warmup_train (toy_world grads_weights c 3)))) = 0.
Proof.
  split.
  - intros batches w w' E. exact (proj2 (warmup_loop_counter batches w w' E)).
  - cbv zeta. repeat split; vm_compute; reflexivity.
Qed.

End WarmupCounter.

(** ** C4: perturbation and restoration cancel in exact arithmetic *)

Section ExactRestore.
Variable sqrt : Qc -> Qc.
#[local] Hint Extern 0 (Scalar Qc) => exact (exact_scalar sqrt) : typeclass_instances.
Context {CR : Collab Qc}.

Lemma exact_add_sub (p v : list Qc) :
  length p = length v -> zip_with s_sub (zip_with s_add p v) v = p.
Proof.
  revert v. induction p as [|a p IH]; intros [|b v] E; try discriminate; [done|].
  cbn in *. f_equal; [ring | apply IH; lia].
Qed.

Lemma exact_vadd_vsub (p v p' : list Qc) : vadd p v = Ok p' -> vsub p' v = Ok p.
Proof.
  unfold vadd, vsub. destruct (Nat.eqb (length p) (length v)) eqn:E; [|discriminate].
  apply Nat.eqb_eq in E. intros [= <-].
  rewrite length_zip_with, E, Nat.min_id, Nat.eqb_refl.
  by rewrite exact_add_sub.
Qed.

(** The two loops, on lists: restoring after a perturbation gives back the
    parameters, those with a perturbation and those without. *)
Lemma restore_perturb (ps : list (list Qc)) gs eps gw ps1 ps2 gs2 :
  length eps = length gw ->
  perturb_params ps eps = (ps1, None) ->
  restore_params ps1 gs eps gw = (ps2, gs2, None) ->
  ps2 = ps.
Proof.
  revert gs eps gw ps1 ps2 gs2.
  induction ps as [|p ps IH]; intros gs eps gw ps1 ps2 gs2 Hlen Hp Hr.
  - cbn in Hp. inversion Hp; subst. cbn in Hr. by inversion Hr.
  - destruct eps as [|v eps]; destruct gw as [|g gw]; try discriminate.
    + cbn in Hp. inversion Hp; subst. cbn in Hr. by inversion Hr.
    + cbn in Hlen. injection Hlen as Hlen. cbn [perturb_params] in Hp.
      destruct v as [v|].
      * destruct (vadd p v) as [p'|e] eqn:Ea; [|discriminate].
        destruct (perturb_params ps eps) as [r o] eqn:Er. cbn in Hp.
        inversion Hp; subst. cbn [restore_params] in Hr.
        rewrite (exact_vadd_vsub _ _ _ Ea) in Hr.
        destruct (grad_iadd _ g); [|discriminate].
        destruct (restore_params r (tail gs) eps gw) as [[r2 g2] o2] eqn:Er2.
        cbn in Hr. inversion Hr; subst. f_equal. eapply IH; eauto.
      * destruct (perturb_params ps eps) as [r o] eqn:Er. cbn in Hp.
        inversion Hp; subst. cbn [restore_params] in Hr.
        destruct (restore_params r (tail gs) eps gw) as [[r2 g2] o2] eqn:Er2.
        cbn in Hr. inversion Hr; subst. f_equal. eapply IH; eauto.
Qed.

(** C4. In sharpness-aware mode and exact arithmetic: from the start of an
    iteration through the forward passes and losses (which add the
    perturbation), the backward pass and the restoration (which subtracts
    it), with no optimizer step in between, every parameter is back at the
    value it had before the perturbation, with or without AMP. *)
Theorem sharp_restore_exact (l : Locals Qc) (batch_lb : BatchLb) (batch_ulb : BatchUlb)
    (w w1 w2 : World) (ll : Losses * Locals Qc) :
  X_SHARP (cfg (self w)) = true ->
  forward_losses l batch_lb batch_ulb w = (w1, Ok ll) ->
  bind (loss_backward (graphs (fst ll))) (fun _ => restore_model) w1 = (w2, Ok tt)
  \/ bind (scaler_scale_backward (graphs (fst ll))) (fun _ => restore_model) w1
     = (w2, Ok tt) ->
  parameters (self w2) = parameters (self w).
Proof.
  intros Hs E1 E2.
  destruct (sharp_forward_inv _ _ _ _ _ _ Hs E1) as (e & g & He & Hg & Hlen & Hp).
  assert (exists w', same_model (self w1) (self w') /\ restore_model w' = (w2, Ok tt))
    as (w' & (Kp & Ke & Kg) & Er).
  { destruct E2 as [E2|E2]; minv E2 as w0 u E0; exists w0; split; try done.
    - pose proof (model_loss_backward (graphs (fst ll)) w1) as K. by rewrite E0 in K.
    - pose proof (model_scaler_scale_backward (graphs (fst ll)) w1) as K.
      by rewrite E0 in K. }
  rewrite <- Ke in He. rewrite <- Kg in Hg.
  destruct (restore_model_inv _ _ _ _ He Hg Er) as (gs & Hr).
  rewrite Kp in Hr. eapply restore_perturb; eauto.
Qed.

End ExactRestore.

Lemma ok_eta {W A} (d : A) (r : W * result A) :
  is_ok (snd r) = true -> r = (fst r, Ok (from_ok d (snd r))).
Proof. destruct r as [w [a|e]]; [reflexivity | discriminate]. Qed.

Lemma ok_eta_unit {W} (r : W * result unit) :
  is_ok (snd r) = true -> r = (fst r, Ok tt).
Proof. destruct r as [w [[]|e]]; [reflexivity | discriminate]. Qed.

Section ExactRun.
#[local] Hint Extern 0 (Scalar Qc) => exact (exact_scalar Qc_sqrt) : typeclass_instances.

Abbreviation exact_forward :=
  (forward_losses (initial_locals (self exact_world)) (toy_batch_lb grads_weights)
                  (toy_batch_ulb grads_weights) exact_world).

Abbreviation exact_restored :=
  (bind (loss_backward (graphs (fst (from_ok no_losses (snd exact_forward)))))
        (fun _ => restore_model) (fst exact_forward)).

Lemma sharp_restore_exact_witness :
  is_ok (snd exact_forward) = true /\ is_ok (snd exact_restored) = true /\
  map (map this) (parameters (self (fst exact_forward)))
  = [[Qmake 13 10; Qmake 7 5]; [Qmake 0 1; Qmake 0 1]] /\
  parameters (self (fst exact_restored)) = parameters (self exact_world).
Proof.
  assert (H1 : is_ok (snd exact_forward) = true) by (vm_compute; reflexivity).
  assert (H2 : is_ok (snd exact_restored) = true) by (vm_compute; reflexivity).
  split; [exact H1|]. split; [exact H2|]. split; [vm_compute; reflexivity|].
  exact (sharp_restore_exact Qc_sqrt (initial_locals (self exact_world))
           (toy_batch_lb grads_weights) (toy_batch_ulb grads_weights)
           exact_world (fst exact_forward) (fst exact_restored)
           (from_ok no_losses (snd exact_forward))
           eq_refl (ok_eta no_losses exact_forward H1)
           (or_introl (ok_eta_unit exact_restored H2))).
Defined.

End ExactRun.

(** ** The update calls of an action *)

Section Traces.
Context {R : Type} {SR : Scalar R} {CR : Collab R}.

Lemma omap_app_calls (l1 l2 : list Call) :
  omap update_of (l1 ++ l2) = omap update_of l1 ++ omap update_of l2.
Proof.
  induction l1 as [|x l1 IH]; cbn; [done|]. destruct (update_of x); cbn; by rewrite IH.
Qed.

Lemma trace_bind {A B} L1 L2 (m : M A) (k : A -> M B) :
  trace_in L1 m -> (forall a, trace_in L2 (k a)) -> trace_in (L1 ++ L2) (bind m k).
Proof.
  intros Hm Hk w. destruct (Hm w) as (n1 & E1 & P1 & O1).
  unfold bind. destruct (m w) as [w1 [a|e]]; cbn in *.
  - destruct (Hk a w1) as (n2 & E2 & P2 & O2).
    exists (n1 ++ n2). rewrite E2, E1, app_assoc. split; [done|].
    rewrite omap_app_calls, (O1 eq_refl). split.
    + by apply prefix_app.
    + intros Hok. by rewrite (O2 Hok).
  - exists n1. split; [done|]. split; [|done].
    by apply prefix_app_r.
Qed.

Lemma quiet_bind {A B} (m : M A) (k : A -> M B) :
  trace_in [] m -> (forall a, trace_in [] (k a)) -> trace_in [] (bind m k).
Proof. intros. by apply (trace_bind [] []). Qed.

Lemma quiet_same {A} (m : M A) :
  (forall w : World, calls (fst (m w)) = calls w) -> trace_in [] m.
Proof. intros E w. exists []. rewrite E, app_nil_r. done. Qed.

Lemma quiet_ret {A} (a : A) : trace_in [] (ret a).
Proof. by apply quiet_same. Qed.

Lemma quiet_raise {A} e : trace_in [] (raise (A := A) e).
Proof. by apply quiet_same. Qed.

Lemma quiet_lift {A} (r : result A) : trace_in [] (lift r).
Proof. by apply quiet_same. Qed.

Lemma quiet_get : trace_in [] get.
Proof. by apply quiet_same. Qed.

Lemma quiet_act {A} (f : Trainer -> Trainer * A) : trace_in [] (act f).
Proof. by apply quiet_same. Qed.

Lemma quiet_modify f : trace_in [] (modify f).
Proof. by apply quiet_same. Qed.

Lemma quiet_assert b : trace_in [] (assert b).
Proof. destruct b; by apply quiet_same. Qed.

Lemma trace_call c : trace_in (omap update_of [c]) (call c).
Proof. intros w. exists [c]. cbn. done. Qed.

Lemma quiet_call c : update_of c = None -> trace_in [] (call c).
Proof. intros E w. exists [c]. cbn. rewrite E. done. Qed.

Lemma quiet_when b m : trace_in [] m -> trace_in [] (when b m).
Proof. destruct b; [done|]. intros _. apply quiet_ret. Qed.

Lemma quiet_torch_save d p : trace_in [] (torch_save d p).
Proof. intros w. exists [CSave p]. done. Qed.

End Traces.

Create HintDb trace discriminated.

Ltac quiet :=
  repeat first
    [ solve [auto with trace nocore]
    | apply quiet_ret | apply quiet_raise | apply quiet_lift | apply quiet_get
    | apply quiet_act | apply quiet_modify | apply quiet_assert
    | apply quiet_torch_save
    | apply quiet_call; reflexivity
    | apply quiet_when
    | apply quiet_bind; [|intros ?]
    | match goal with
      | |- trace_in [] (match ?x with _ => _ end) => destruct x
      end ].

(** An action that makes the single update [u] as its last call. *)
Ltac one_update u :=
  repeat (apply (trace_bind [] [u]); [quiet|]; intros ?); apply trace_call.

Section TracesOfSteps.
Context {R : Type} {SR : Scalar R} {CR : Collab R}.

Lemma quiet_net_forward img : trace_in [] (net_forward img).
Proof. unfold net_forward. quiet. Qed.

Lemma quiet_validate_loop bs a : trace_in [] (validate_loop bs a).
Proof.
  revert a. induction bs as [|b bs IH]; intros a; cbn [validate_loop]; [quiet|].
  apply quiet_bind; [apply quiet_net_forward|]. intros ?. apply IH.
Qed.

Lemma quiet_validate : trace_in [] validate.
Proof. unfold validate. pose proof quiet_validate_loop. quiet. Qed.

Lemma quiet_save d n : trace_in [] (__save__model__ d n).
Proof. unfold __save__model__. quiet. Qed.

Lemma quiet_perturb_model : trace_in [] perturb_model.
Proof. unfold perturb_model, self_eps. quiet. Qed.

Lemma quiet_restore_model : trace_in [] restore_model.
Proof. unfold restore_model, self_eps, self_grad_w. quiet. Qed.

End TracesOfSteps.

#[global] Hint Resolve quiet_net_forward quiet_validate quiet_save
  quiet_perturb_model quiet_restore_model : trace.

Section TracesOfIteration.
Context {R : Type} {SR : Scalar R} {CR : Collab R}.

Lemma quiet_eval_block log : trace_in [] (eval_block log).
Proof. unfold eval_block, self_tb_update, self_tb. quiet. Qed.

Lemma quiet_make_log_dict ls l : trace_in [] (make_log_dict ls l).
Proof. unfold make_log_dict, read_loss_po. quiet. Qed.

Lemma quiet_forward_losses l b1 b2 : trace_in [] (forward_losses l b1 b2).
Proof.
  unfold forward_losses, sharp_losses, plain_losses, sharp_eps, self_grad_w. quiet.
Qed.

Lemma trace_backward_and_step ls : trace_in [UBackward; UStep] (backward_and_step ls).
Proof.
  unfold backward_and_step.
  apply (trace_bind [] [UBackward; UStep]); [quiet|]. intros t.
  destruct (AMP_ENABLED (cfg t)).
  - apply (trace_bind [UBackward] [UStep]).
    { unfold scaler_scale_backward, self_scaler. one_update UBackward. }
    intros _. apply (trace_bind [] [UStep]); [quiet|]. intros _.
    apply (trace_bind [UStep] []).
    { unfold self_scaler_step, self_scaler. one_update UStep. }
    intros _. unfold self_scaler_update, self_scaler. quiet.
  - apply (trace_bind [UBackward] [UStep]).
    { unfold loss_backward. one_update UBackward. }
    intros _. apply (trace_bind [] [UStep]); [quiet|]. intros _.
    unfold self_optim_step. one_update UStep.
Qed.

(** The four updates of a training iteration are called in order. *)
Lemma train_step_trace (l : Locals R) (batch_lb : BatchLb) (batch_ulb : BatchUlb) :
  trace_in [UBackward; UStep; USched; UEma] (train_step l batch_lb batch_ulb).
Proof.
  unfold train_step.
  apply (trace_bind [] [UBackward; UStep; USched; UEma]); [apply quiet_forward_losses|].
  intros ll.
  apply (trace_bind [UBackward; UStep] [USched; UEma]); [apply trace_backward_and_step|].
  intros _.
  apply (trace_bind [USched] [UEma]); [unfold self_sched_step; one_update USched|].
  intros _.
  apply (trace_bind [UEma] []); [unfold self_net_update; one_update UEma|].
  intros _. unfold self_model_zero_grad.
  pose proof quiet_make_log_dict. pose proof quiet_eval_block. quiet.
Qed.

End TracesOfIteration.

(** ** The record of an evaluation *)

Section Evaluation.
Context {R : Type} {SR : Scalar R} {CR : Collab R}.

Lemma validate_accuracy (w w1 : World) vd :
  validate w = (w1, Ok vd) -> exists acc, vd !! "validation/accuracy" = Some acc.
Proof.
  unfold validate. intros E.
  minv E as wa u Ea. minv E as wb u' Eb. minv E as wc t Ec. minv E as wd a Ed.
  minv E as we u'' Ee.
  destruct (Nat.eqb (total_num a) 0); [discriminate|].
  inversion E; subst. eexists.
  rewrite lookup_insert_ne by discriminate. apply lookup_insert_eq.
Qed.

End Evaluation.

(** ** C7: the consistency term and the pseudo-label bank *)

Section BankRows.
Context {R : Type} {SR : Scalar R} {CR : Collab R}.











End BankRows.

Section BankRun.

Abbreviation bank_world :=
  (toy_world (SR := float_scalar) grads_weights (toy_cfg true false false 0 3 5) 3).
Abbreviation bank_run :=
  (forward_losses (initial_locals (self bank_world)) (toy_batch_lb grads_weights)
                  (toy_batch_ulb grads_weights) bank_world).
Abbreviation bank_images :=
  (iteration_images (toy_batch_lb grads_weights) (toy_batch_ulb grads_weights)).
Abbreviation bank_first_pass :=
  (net_call (Collab := toy grads_weights) (net (self bank_world))
            (parameters (self bank_world))
            (enable_running_stats (Collab := toy grads_weights) (buffers (self bank_world)))
            bank_images).
Abbreviation bank_second_pass :=
  (net_call (Collab := toy grads_weights) (net (self bank_world))
            (parameters (self (fst bank_run)))
            (disable_running_stats (Collab := toy grads_weights) (snd bank_first_pass))
            bank_images).
Abbreviation bank_locals := (snd (from_ok plain_no_losses (snd bank_run))).


End BankRun.

(** ** C8: the statistics a run starts from *)

Section Init.
Context {R : Type} {SR : Scalar R} {CR : Collab R}.

(** With no warmup and no checkpoint to resume from, construction runs
    nothing and leaves the statistics as initialised, in any arithmetic:
    [C] copies of [1/C] and their mean. *)
Lemma init_skips_warmup (c : Config R) (d : DataManager)
    (files : gmap string (gmap string Value)) :
  NUM_WARMUP_ITERS c = 0 ->
  CONT_TRAIN c = false ->
  let u := (s_of_Z 1 / s_of_nat (NUM_CLASSES c))%S in
  exists w, __init__ c d files = (w, Ok tt) /\
    calls w = [] /\ curr_iter (self w) = 0 /\
    p_t (self w) = repeat u (NUM_CLASSES c) /\
    label_hist (self w) = repeat u (NUM_CLASSES c) /\
    tau_t (self w) = mean (repeat u (NUM_CLASSES c)).
Proof.
  intros HW HC u.
  unfold __init__, init_body, bind, get. cbn [self initial_trainer cfg].
  rewrite HC, HW. cbn [when Z.ltb Z.compare bind ret].
  eexists. split; [reflexivity|]. cbn [self calls].
  assert (Hp : div_scalar (ones (NUM_CLASSES c)) (s_of_nat (NUM_CLASSES c))
               = repeat u (NUM_CLASSES c)).
  { unfold div_scalar, ones. apply map_repeat. }
  unfold initial_trainer. cbn [curr_iter p_t label_hist tau_t].
  rewrite Hp. repeat split.
Qed.

End Init.

Section ExactInit.
Variable sqrt : Qc -> Qc.
#[local] Hint Extern 0 (Scalar Qc) => exact (exact_scalar sqrt) : typeclass_instances.
Context {CR : Collab Qc}.

Lemma exact_of_Z (z : Z) : s_of_Z (Scalar := exact_scalar sqrt) z = Q2Qc (inject_Z z).
Proof. reflexivity. Qed.

Lemma exact_of_nat_0 : s_of_nat (SR := exact_scalar sqrt) 0 = 0%Qc.
Proof. apply Qc_is_canon. reflexivity. Qed.

Lemma exact_of_nat_S (n : nat) :
  s_of_nat (SR := exact_scalar sqrt) (S n) = (s_of_nat n + 1)%Qc.
Proof.
  apply Qc_is_canon. unfold s_of_nat. rewrite !exact_of_Z.
  unfold Qcplus, Q2Qc. cbn [this]. rewrite !Qred_correct.
  rewrite Nat2Z.inj_succ. unfold Z.succ. rewrite inject_Z_plus. reflexivity.
Qed.

Lemma exact_fold_repeat (x a : Qc) (n : nat) :
  fold_left (s_add (Scalar := exact_scalar sqrt)) (repeat x n) a
  = (a + s_of_nat n * x)%Qc.
Proof.
  revert a. induction n as [|n IH]; intros a.
  - rewrite exact_of_nat_0. cbn. ring.
  - cbn [repeat fold_left]. rewrite IH, exact_of_nat_S.
    change (s_add (Scalar := exact_scalar sqrt) a x) with (a + x)%Qc. ring.
Qed.

Lemma exact_of_nat_nonzero (n : nat) :
  (0 < n)%nat -> s_of_nat (SR := exact_scalar sqrt) n <> 0%Qc.
Proof.
  intros Hn E. unfold s_of_nat in E. rewrite exact_of_Z in E.
  change 0%Qc with (Q2Qc 0) in E. apply Q2Qc_eq_iff in E.
  unfold Qeq in E. cbn in E. lia.
Qed.

(** The mean of [n] copies of [x] is [x]. *)
Lemma exact_mean_repeat (x : Qc) (n : nat) :
  (0 < n)%nat -> mean (SR := exact_scalar sqrt) (repeat x n) = x.
Proof.
  intros Hn. unfold mean, tsum. rewrite exact_fold_repeat, repeat_length.
  change (s_of_Z (Scalar := exact_scalar sqrt) 0) with (Q2Qc (inject_Z 0)).
  change (Q2Qc (inject_Z 0)) with 0%Qc.
  change (s_div (Scalar := exact_scalar sqrt)) with Qcdiv.
  pose proof (exact_of_nat_nonzero n Hn) as Hnz.
  field. exact Hnz.
Qed.

(** C8, as the code has it. With [num_warmup_iters = 0] and no checkpoint
    to resume from ([CONT_TRAIN] false), construction returns without
    running anything (no forward pass, no evaluation), the counter is 0,
    [p_t] and [label_hist] are [C] copies of [1/C], and [tau_t], their
    mean, is [1/C] in exact arithmetic, for [C >= 1] classes. *)
Theorem init_uniform_exact (c : Config Qc) (d : DataManager)
    (files : gmap string (gmap string Value)) :
  NUM_WARMUP_ITERS c = 0 ->
  CONT_TRAIN c = false ->
  (0 < NUM_CLASSES c)%nat ->
  let u := (s_of_Z 1 / s_of_nat (NUM_CLASSES c))%S in
  exists w, __init__ c d files = (w, Ok tt) /\
    calls w = [] /\ curr_iter (self w) = 0 /\
    p_t (self w) = repeat u (NUM_CLASSES c) /\
    label_hist (self w) = repeat u (NUM_CLASSES c) /\
    tau_t (self w) = u.
Proof.
  intros HW HC Hpos u.
  destruct (init_skips_warmup c d files HW HC) as (w & E & Hcalls & Hit & Hp & Hh & Ht).
  exists w. repeat (split; [assumption|]).
  rewrite Ht. by apply exact_mean_repeat.
Qed.

End ExactInit.

(** The claim fails on the code: with [num_warmup_iters = 0] and a
    checkpoint to resume from, training begins with the statistics of the
    checkpoint, here [tau_t = 0.75] and [p_t = [0.75; 0.25]] for two
    classes. *)
Lemma resume_overrides_uniform :
  let c := toy_cfg (SR := float_scalar) false false true 0 3 5 in
  let r := __init__ c (toy_dm grads_weights 3) resume_files in
  NUM_WARMUP_ITERS c = 0 /\ snd r = Ok tt /\
  tau_t (self (fst r)) = 0.75%float /\
  p_t (self (fst r)) = [0.75; 0.25]%float /\
  PrimFloat.eqb (tau_t (self (fst r))) (1 / 2) = false.
Proof. cbv zeta. repeat split; vm_compute; reflexivity. Qed.

Section ExactInitRun.
#[local] Hint Extern 0 (Scalar Qc) => exact (exact_scalar Qc_sqrt) : typeclass_instances.

Lemma init_uniform_exact_witness :
  exists w : World (R := Qc) (CR := toy grads_weights),
    __init__ (toy_cfg false false false 0 3 5) (toy_dm grads_weights 3) ∅ = (w, Ok tt) /\
    calls w = [] /\ curr_iter (self w) = 0 /\
    p_t (self w) = repeat (s_of_Z 1 / s_of_nat 2)%S 2 /\
    label_hist (self w) = repeat (s_of_Z 1 / s_of_nat 2)%S 2 /\
    tau_t (self w) = (s_of_Z 1 / s_of_nat 2)%S.
Proof.
  apply (init_uniform_exact Qc_sqrt (CR := toy grads_weights)
           (toy_cfg false false false 0 3 5) (toy_dm grads_weights 3) ∅);
    [reflexivity | reflexivity | cbn; lia].
Defined.

End ExactInitRun.

(** ** C9: batches of different sizes *)

Section ShapeAssertion.
Context {R : Type} {SR : Scalar R} {CR : Collab R}.

(** C9. When the weak and the strong unlabeled batch differ in size the
    iteration raises [AssertionError] at once: the world is the one the
    iteration started from, so no forward pass was made, no loss computed
    and no batch cut to the size of the other. *)
Theorem mismatch_fails_fast (l : Locals R) (batch_lb : BatchLb) (batch_ulb : BatchUlb)
    (w : World) :
  length (ulb_img_w batch_ulb) <> length (ulb_img_s batch_ulb) ->
  train_step l batch_lb batch_ulb w = (w, Raise AssertionError).
Proof.
  intros Hne.
  unfold train_step. apply bind_raise.
  unfold forward_losses. apply bind_raise.
  apply Nat.eqb_neq in Hne. rewrite Hne. reflexivity.
Qed.

End ShapeAssertion.

Lemma mismatch_fails_fast_witness :
  let w := toy_world (SR := float_scalar) grads_weights
             (toy_cfg true false false 0 3 5) 3 in
  train_step (initial_locals (self w)) (toy_batch_lb grads_weights)
             (toy_batch_mismatch grads_weights) w
  = (w, Raise AssertionError).
Proof.
  cbv zeta. apply mismatch_fails_fast. cbn. lia.
Defined.

(** ** C10: the path without sharpness-aware mode *)

Section PlainPath.
Context {R : Type} {SR : Scalar R} {CR : Collab R}.

(** Without sharpness-aware mode the locals that live across iterations
    are returned as they were received: [loss_po] stays unbound. *)
Lemma plain_forward_locals (l : Locals R) b1 b2 (w w1 : World) ll :
  X_SHARP (cfg (self w)) = false ->
  forward_losses l b1 b2 w = (w1, Ok ll) -> snd ll = l.
Proof.
  intros Hs E. unfold forward_losses in E.
  minv E as wa u Ea. unfold assert in Ea.
  destruct (Nat.eqb _ _); [|discriminate]. inversion Ea; subst wa; clear Ea.
  minv E as wb t Eb. inversion Eb; subst; clear Eb. rewrite Hs in E. cbn [when negb] in E.
  minv E as wc u' Ec. minv E as wd out Ed. minv E as we ch Ee.
  unfold plain_losses in E.
  minv E as wf t Ef. destruct (sat_criterion _ _ _ _ _) as [[[[? ?] ?] ?] ?].
  minv E as wg u'' Eg. minv E as wh t' Eh. destruct (saf_criterion _ _ _ _).
  inversion E. reflexivity.
Qed.

(** An iteration of the plain path that gets through the losses and the
    optimizer step raises when the log record reads [loss_po]. *)
Lemma plain_log_raises (l : Locals R) (batch_lb : BatchLb) (batch_ulb : BatchUlb)
    (w w1 w2 : World) ll :
  X_SHARP (cfg (self w)) = false ->
  loss_po l = None ->
  forward_losses l batch_lb batch_ulb w = (w1, Ok ll) ->
  backward_and_step (fst ll) w1 = (w2, Ok tt) ->
  snd (train_step l batch_lb batch_ulb w) = Raise (NameError "loss_po").
Proof.
  intros Hs Hl E1 E2.
  pose proof (plain_forward_locals _ _ _ _ _ _ Hs E1) as Hll.
  unfold train_step.
  rewrite (bind_ok _ _ _ _ _ E1), (bind_ok _ _ _ _ _ E2).
  unfold make_log_dict, read_loss_po. rewrite Hll, Hl. reflexivity.
Qed.

Lemma plain_step_raises (l : Locals R) (batch_lb : BatchLb) (batch_ulb : BatchUlb)
    (w : World) :
  X_SHARP (cfg (self w)) = false ->
  loss_po l = None ->
  is_ok (snd (train_step l batch_lb batch_ulb w)) = false.
Proof.
  intros Hs Hl.
  destruct (forward_losses l batch_lb batch_ulb w) as [w1 [ll|e]] eqn:E1.
  - destruct (backward_and_step (fst ll) w1) as [w2 [[]|e]] eqn:E2.
    + rewrite (plain_log_raises _ _ _ _ _ _ _ Hs Hl E1 E2). reflexivity.
    + unfold train_step. rewrite (bind_ok _ _ _ _ _ E1), (bind_raise _ _ _ _ _ E2).
      reflexivity.
  - unfold train_step. rewrite (bind_raise _ _ _ _ _ E1). reflexivity.
Qed.

(** The first iteration of [train] runs on the locals [train] creates. *)
Lemma train_first_step (w : World) b1 b2 rest :
  zip (train_lb_dl (dm (self w))) (train_ulb_dl (dm (self w))) = (b1, b2) :: rest ->
  curr_iter (self w) < NUM_TRAIN_ITERS (cfg (self w)) ->
  let w0 := {| self := set_buffers (model_train (buffers (self w))) (self w);
               fs := fs w; calls := calls w |} in
  train w = bind (train_step (initial_locals (self w0)) b1 b2)
                 (fun l' => train_loop rest l') w0.
Proof.
  intros Hz Hlt w0. unfold train.
  erewrite bind_ok by reflexivity. erewrite bind_ok by reflexivity.
  cbn [self set_buffers dm cfg]. rewrite Hz. cbn [train_loop].
  erewrite bind_ok by reflexivity. cbn [self set_buffers cfg curr_iter].
  apply Z.leb_gt in Hlt. rewrite Hlt. reflexivity.
Qed.

(** C10. With sharpness-aware mode disabled, no training iteration returns:
    an iteration that gets through the losses and the optimizer step raises
    the name error of [loss_po], which is bound only by the sharpness-aware
    branch, when the log record is built; and [train], whose first
    iteration runs with [loss_po] unbound, raises in that iteration. *)
Theorem plain_step_name_error (l : Locals R) (batch_lb : BatchLb) (batch_ulb : BatchUlb)
    (w : World) :
  X_SHARP (cfg (self w)) = false ->
  loss_po l = None ->
  is_ok (snd (train_step l batch_lb batch_ulb w)) = false /\
  (forall w1 ll w2,
     forward_losses l batch_lb batch_ulb w = (w1, Ok ll) ->
     backward_and_step (fst ll) w1 = (w2, Ok tt) ->
     snd (train_step l batch_lb batch_ulb w) = Raise (NameError "loss_po")) /\
  (forall b1 b2 rest,
     zip (train_lb_dl (dm (self w))) (train_ulb_dl (dm (self w))) = (b1, b2) :: rest ->
     curr_iter (self w) < NUM_TRAIN_ITERS (cfg (self w)) ->
     is_ok (snd (train w)) = false).
Proof.
  intros Hs Hl. split; [|split].
  - by apply plain_step_raises.
  - intros w1 ll w2 E1 E2. by eapply plain_log_raises.
  - intros b1 b2 rest Hz Hlt. rewrite (train_first_step w b1 b2 rest Hz Hlt).
    match goal with |- context [bind (train_step ?l0 ?x ?y) ?k ?w0] =>
      pose proof (plain_step_raises l0 x y w0 Hs eq_refl) as Hno;
      destruct (train_step l0 x y w0) as [w1 [l'|e]] eqn:E; [discriminate|];
      rewrite (bind_raise _ k _ _ _ E)
    end.
    reflexivity.
Qed.

End PlainPath.

Section PlainRun.

Abbreviation plain_forward :=
  (forward_losses (initial_locals (self plain_world)) (toy_batch_lb grads_weights)
                  (toy_batch_ulb grads_weights) plain_world).
Abbreviation plain_step :=
  (train_step (initial_locals (self plain_world)) (toy_batch_lb grads_weights)
              (toy_batch_ulb grads_weights) plain_world).

Lemma plain_step_name_error_witness :
  is_ok (snd plain_step) = false /\
  snd plain_step = Raise (NameError "loss_po") /\
  snd (train plain_world) = Raise (NameError "loss_po").
Proof.
  assert (H1 : is_ok (snd plain_forward) = true) by (vm_compute; reflexivity).
  assert (H2 : is_ok (snd (backward_and_step
                             (fst (from_ok plain_no_losses (snd plain_forward)))
                             (fst plain_forward))) = true)
    by (vm_compute; reflexivity).
  destruct (plain_step_name_error (initial_locals (self plain_world))
              (toy_batch_lb grads_weights) (toy_batch_ulb grads_weights) plain_world
              eq_refl eq_refl) as (Hno & Hname & _).
  split; [exact Hno|]. split.
  - exact (Hname _ _ _ (ok_eta plain_no_losses plain_forward H1) (ok_eta_unit _ H2)).
  - vm_compute. reflexivity.
Defined.

End PlainRun.

(** * Further properties

    Properties of the code beyond the statements above: evaluation,
    warmup, construction, the counters, the checkpoints and the
    arithmetic of the sharpness-aware step. *)

(** ** Evaluation *)

Section Validate.
Context {R : Type} {SR : Scalar R} {CR : Collab R}.

Lemma length_forward_all forward bufs (bs : list BatchLb) :
  length (fst (forward_all forward bufs bs)) = length bs.
Proof.
  revert bufs. induction bs as [|b bs IH]; intros bufs; [reflexivity|].
  cbn. by rewrite IH.
Qed.

(** The loop of [validate]: one forward pass per batch, in loader order. *)
Lemma validate_loop_run (bs : list BatchLb) (a : ValAcc) (w : World) :
  exists (w' : World) a' (outs : list (list (list R))),
    validate_loop bs a w = (w', Ok a') /\
    self w' = set_buffers (buffers (self w')) (self w) /\
    fs w' = fs w /\
    calls w' = calls w ++ repeat CForward (length bs) /\
    (outs, buffers (self w'))
    = forward_all (net_call (net (self w)) (parameters (self w))) (buffers (self w)) bs /\
    total_num a' = (total_num a + num_images bs)%nat /\
    labels a' = labels a ++ concat (map lb_label bs) /\
    preds a' = preds a ++ argmax_rows outs /\
    total_loss a'
    = fold_left (fun s ob => (s + ce_criterion (fst ob) (lb_label (snd ob))
                                  * s_of_nat (length (lb_img_w (snd ob))))%S)
                (zip outs bs) (total_loss a).
Proof.
  revert a w. induction bs as [|b bs IH]; intros a w.
  - exists w, a, []. cbn. rewrite !app_nil_r, Nat.add_0_r.
    repeat split. by destruct w as [[] ? ?].
  - cbn [validate_loop]. unfold net_forward, bind, act, call, ret at 1. cbn [fst snd self fs calls].
    match goal with |- context [validate_loop bs ?a1 ?w1] =>
      destruct (IH a1 w1) as (w' & a' & outs & E & Hs & Hf & Hc & Ho & Hn & Hla & Hp & Ht) end.
    eexists w', a', (_ :: outs). rewrite E. split; [reflexivity|].
    cbn [self fs calls total_num labels preds total_loss net parameters buffers
         set_buffers] in *.
    split; [rewrite Hs at 1; reflexivity|].
    split; [exact Hf|].
    split; [rewrite Hc, <- app_assoc; reflexivity|].
    split; [cbn [forward_all]; rewrite <- Ho; reflexivity|].
    split; [rewrite Hn; unfold num_images; cbn; rewrite length_app; lia|].
    split; [rewrite Hla, <- app_assoc; reflexivity|].
    split; [rewrite Hp; unfold argmax_rows; cbn; rewrite <- app_assoc; reflexivity|].
    rewrite Ht. reflexivity.
Qed.

End Validate.

Section ValidateSpec.
Context {R : Type} {SR : Scalar R} {CR : Collab R}.

(** What [validate] does up to its return statement: the network is
    switched to evaluation mode, passed over the test batches and switched
    back to training mode. *)
Lemma validate_run (w : World) :
  exists (w' : World) a (outs : list (list (list R))),
    let test := test_dl (dm (self w)) in
    let eb := net_eval (net (self w)) (buffers (self w)) in
    let r := forward_all (net_call (fst eb) (parameters (self w))) (snd eb) test in
    same_but_mode (self w) (self w') /\
    (net (self w') = fst (net_train (fst eb) (snd r)) /\
     buffers (self w') = snd (net_train (fst eb) (snd r))) /\
    fs w' = fs w /\
    calls w' = calls w ++ CValidate :: repeat CForward (length test) /\
    outs = fst r /\
    total_num a = num_images test /\
    labels a = concat (map lb_label test) /\
    preds a = argmax_rows outs /\
    total_loss a = weighted_loss outs test /\
    validate w
    = (if Nat.eqb (total_num a) 0 then raise ZeroDivisionError
       else ret (<["validation/loss" := (total_loss a / s_of_nat (total_num a))%S]> (
                 <["validation/accuracy" := accuracy_score (labels a) (preds a)]> (
                 <["validation/precision" := precision_score (labels a) (preds a)]> (
                 <["validation/recall" := recall_score (labels a) (preds a)]> (
                 <["validation/f1" := f1_score (labels a) (preds a)]> ∅)))))) w'.
Proof.
  unfold validate.
  unfold bind at 1 2 3, call at 1, modify at 1, get at 1.
  cbn [self fs calls]. unfold bind at 1.
  match goal with |- context [validate_loop ?bs ?a ?w1] =>
    destruct (validate_loop_run bs a w1)
      as (w' & a' & outs & E & Hs & Hf & Hc & Ho & Hn & Hla & Hp & Ht); rewrite E end.
  cbn [self fs calls dm set_net set_buffers total_num labels preds total_loss
       net parameters buffers] in *.
  cbv beta iota. unfold bind at 1, modify at 1. cbv beta iota.
  exists {| self := set_net (fst (net_train (net (self w')) (buffers (self w'))))
                      (set_buffers (snd (net_train (net (self w')) (buffers (self w'))))
                         (self w'));
            fs := fs w'; calls := calls w' |}, a', outs.
  cbv zeta.
  assert (Hnet : net (self w') = fst (net_eval (net (self w)) (buffers (self w))))
    by (rewrite Hs; reflexivity).
  split.
  { cbn [self]. unfold same_but_mode. rewrite Hs. destruct (self w). reflexivity. }
  split.
  { cbn [self set_net set_buffers net buffers]. rewrite Hnet, <- Ho. done. }
  split; [exact Hf|].
  split; [cbn [calls]; rewrite Hc, <- app_assoc; reflexivity|].
  split; [by rewrite <- Ho|]. split; [exact Hn|]. split; [exact Hla|]. split; [exact Hp|].
  split; [exact Ht|]. reflexivity.
Qed.

(** X1. An evaluation that returns has switched the network to evaluation
    mode, passed it over the test batches in loader order, each pass on
    the buffers the pass before it left, and switched it back to training
    mode: the trainer it leaves is the one it found with the network and
    the buffers of that passage, so the parameters, their gradients, the
    optimizer, the scheduler, the counter, the best accuracy, the
    statistics and the configuration are untouched. No file is written,
    and the calls are one forward pass per test batch and no other. *)
Theorem validate_effects (w w' : World) (vd : gmap string R) :
  validate w = (w', Ok vd) ->
  let t := self w in
  let eb := net_eval (net t) (buffers t) in
  let r := forward_all (net_call (fst eb) (parameters t)) (snd eb) (test_dl (dm t)) in
  let tr := net_train (fst eb) (snd r) in
  self w' = set_net (fst tr) (set_buffers (snd tr) t) /\
  fs w' = fs w /\
  calls w' = calls w ++ CValidate :: repeat CForward (length (test_dl (dm t))).
Proof.
  intros E0.
  destruct (validate_run w) as (w1 & a & outs & Hm & [Hn Hb] & Hf & Hc & _ & _ & _ & _ & _ & E).
  cbv zeta in *. rewrite E in E0.
  destruct (Nat.eqb (total_num a) 0); [discriminate|].
  inversion E0; subst w1 vd; clear E0.
  split; [|by split].
  unfold same_but_mode in Hm. rewrite Hm, Hn, Hb. reflexivity.
Qed.

(** X2. An evaluation that returns has seen at least one test image. Its
    record has the five keys of the code. The predictions are the arg-max
    classes of the logits of the network, in evaluation mode, on the test
    batches in loader order; accuracy, precision, recall and F1 are
    computed on the labels of all batches and these predictions, and the
    loss is the sum of the batch losses on these logits, weighted by the
    batch sizes, over the number of images. *)
Theorem validate_result (w w' : World) (vd : gmap string R) :
  validate w = (w', Ok vd) ->
  let t := self w in
  let test := test_dl (dm t) in
  let eb := net_eval (net t) (buffers t) in
  let outs := fst (forward_all (net_call (fst eb) (parameters t)) (snd eb) test) in
  let labels := concat (map lb_label test) in
  let preds := argmax_rows outs in
  (0 < num_images test)%nat /\
  dom vd = {[ "validation/loss"; "validation/accuracy"; "validation/precision";
              "validation/recall"; "validation/f1" ]} /\
  vd !! "validation/loss" = Some (weighted_loss outs test / s_of_nat (num_images test))%S /\
  vd !! "validation/accuracy" = Some (accuracy_score labels preds) /\
  vd !! "validation/precision" = Some (precision_score labels preds) /\
  vd !! "validation/recall" = Some (recall_score labels preds) /\
  vd !! "validation/f1" = Some (f1_score labels preds).
Proof.
  intros E0.
  destruct (validate_run w) as (w1 & a & outs & _ & _ & _ & _ & Ho & Hn & Hla & Hp & Ht & E).
  cbv zeta in *. rewrite E in E0.
  destruct (Nat.eqb (total_num a) 0) eqn:Hz; [discriminate|].
  apply Nat.eqb_neq in Hz. inversion E0; subst w1 vd; clear E0.
  split; [rewrite <- Hn; lia|].
  split; [rewrite !dom_insert_L, dom_empty_L; set_solver|].
  rewrite <- Ho, <- Hn, <- Hla, <- Hp, <- Ht.
  repeat split;
    repeat (rewrite lookup_insert_ne by discriminate); apply lookup_insert_eq.
Qed.

End ValidateSpec.

Section ValidateRun.

Abbreviation validate_world :=
  (toy_world (SR := float_scalar) grads_weights (toy_cfg true false false 0 3 5) 3).
Abbreviation validate_eval :=
  (net_eval (Collab := toy grads_weights) (net (self validate_world))
            (buffers (self validate_world))).
Abbreviation validate_passes :=
  (forward_all (net_call (Collab := toy grads_weights) (fst validate_eval)
                         (parameters (self validate_world)))
               (snd validate_eval) (test_dl (dm (self validate_world)))).
Abbreviation validate_train :=
  (net_train (Collab := toy grads_weights) (fst validate_eval) (snd validate_passes)).

Lemma validate_effects_witness :
  is_ok (snd (validate validate_world)) = true /\
  self (fst (validate validate_world))
  = set_net (fst validate_train) (set_buffers (snd validate_train) (self validate_world)) /\
  fs (fst (validate validate_world)) = fs validate_world /\
  calls (fst (validate validate_world))
  = calls validate_world
    ++ CValidate :: repeat CForward (length (test_dl (dm (self validate_world)))).
Proof.
  assert (H : is_ok (snd (validate validate_world)) = true) by (vm_compute; reflexivity).
  split; [exact H|].
  exact (validate_effects validate_world (fst (validate validate_world))
           (from_ok ∅ (snd (validate validate_world)))
           (ok_eta ∅ (validate validate_world) H)).
Defined.

Lemma validate_result_witness :
  (0 < num_images (test_dl (dm (self validate_world))))%nat /\
  dom (from_ok ∅ (snd (validate validate_world)))
  = {[ "validation/loss"; "validation/accuracy"; "validation/precision";
       "validation/recall"; "validation/f1" ]} /\
  from_ok ∅ (snd (validate validate_world)) !! "validation/accuracy"
  = Some (accuracy_score (Collab := toy grads_weights)
            (concat (map lb_label (test_dl (dm (self validate_world)))))
            (argmax_rows (CR := toy grads_weights) (fst validate_passes))).
Proof.
  assert (H : is_ok (snd (validate validate_world)) = true) by (vm_compute; reflexivity).
  destruct (validate_result validate_world (fst (validate validate_world))
              (from_ok ∅ (snd (validate validate_world)))
              (ok_eta ∅ (validate validate_world) H))
    as (Hn & Hd & _ & Ha & _).
  split; [exact Hn|]. split; [exact Hd | exact Ha].
Defined.

End ValidateRun.


(** ** The calls of a warmup *)

Section WarmupRuns.
Context {R : Type} {SR : Scalar R} {CR : Collab R}.

Lemma warmup_probs_run (bs : list BatchLb) probs (w : World) :
  exists (w' : World) ps,
    warmup_probs bs probs w = (w', Ok (probs ++ ps)) /\
    self w' = set_buffers (buffers (self w')) (self w) /\
    fs w' = fs w /\
    calls w' = calls w ++ repeat CForward (length bs) /\
    (length ps = length bs /\
     let r := forward_all (model_call (parameters (self w))) (buffers (self w)) bs in
     ps = map (map softmax) (fst r) /\ buffers (self w') = snd r).
Proof.
  revert probs w. induction bs as [|b bs IH]; intros probs w.
  - exists w, []. cbn. rewrite !app_nil_r. repeat split. by destruct w as [[] ? ?].
  - cbn [warmup_probs]. unfold model_forward, bind, act, call, ret at 1.
    cbn [fst snd self fs calls].
    match goal with |- context [warmup_probs bs ?p1 ?w1] =>
      destruct (IH p1 w1) as (w' & ps & E & Hs & Hf & Hc & Hl & Hp & Hb) end.
    eexists w', (_ :: ps). rewrite E.
    cbn [self fs calls parameters buffers set_buffers] in *.
    split; [rewrite <- app_assoc; reflexivity|].
    split; [rewrite Hs at 1; reflexivity|].
    split; [exact Hf|].
    split; [rewrite Hc, <- app_assoc; reflexivity|].
    split; [cbn; by rewrite Hl|].
    cbn [forward_all fst snd map]. split; [by rewrite <- Hp | exact Hb].
Qed.

(** The statistics pass of a warmup iteration: one forward pass of the
    online model, in evaluation mode, per test batch, then the three
    statistics are overwritten from the softmax rows, or [torch.cat]
    raises when there is no batch. *)
Lemma warmup_stats_run (w : World) :
  exists (w1 : World) (pbs : list (list (list R))),
    cfg (self w1) = cfg (self w) /\ dm (self w1) = dm (self w) /\
    curr_iter (self w1) = curr_iter (self w) /\
    (parameters (self w1) = parameters (self w) /\
     let r := forward_all (model_call (parameters (self w))) (model_eval (buffers (self w)))
                          (test_dl (dm (self w))) in
     pbs = map (map softmax) (fst r) /\ buffers (self w1) = snd r) /\
    fs w1 = fs w /\
    calls w1 = calls w ++ repeat CForward (length (test_dl (dm (self w)))) /\
    length pbs = length (test_dl (dm (self w))) /\
    warmup_stats w
    = match cat pbs with
      | Ok probs =>
          ({| self := set_label_hist (class_histogram probs)
                        (set_p_t (mean_dim0 probs)
                           (set_tau_t (mean (map (fun row => fst (row_max row)) probs))
                              (self w1)));
              fs := fs w1; calls := calls w1 |}, Ok tt)
      | Raise e => (w1, Raise e)
      end.
Proof.
  unfold warmup_stats.
  unfold bind at 1 2, modify at 1, get at 1. cbn [self fs calls]. unfold bind at 1.
  match goal with |- context [warmup_probs ?bs ?p ?w0] =>
    destruct (warmup_probs_run bs p w0) as (w1 & pbs & E & Hs & Hf & Hc & Hl & Hp & Hb);
    rewrite E end.
  cbn [self fs calls dm set_buffers app parameters buffers] in *.
  exists w1, pbs.
  split; [exact (f_equal cfg Hs)|]. split; [exact (f_equal dm Hs)|].
  split; [exact (f_equal curr_iter Hs)|].
  split; [split; [exact (f_equal parameters Hs) | split; [exact Hp | exact Hb]]|].
  split; [exact Hf|]. split; [exact Hc|]. split; [exact Hl|].
  unfold bind at 1, lift at 1.
  destruct (cat pbs) as [probs|e]; reflexivity.
Qed.

End WarmupRuns.

Section StepsOfWarmup.
Context {R : Type} {SR : Scalar R} {CR : Collab R}.

Lemma same_place_refl (w : World) : same_place w w.
Proof. by repeat split. Qed.

Lemma same_place_trans (w1 w2 w3 : World) :
  same_place w1 w2 -> same_place w2 w3 -> same_place w1 w3.
Proof. intros (?&?&?&?) (?&?&?&?). repeat split; congruence. Qed.

Lemma step_bind {A B} c1 c2 (m : M A) (k : A -> M B) :
  step_of c1 m -> (forall a, step_of c2 (k a)) -> step_of (c1 ++ c2) (bind m k).
Proof.
  intros Hm Hk w w' b E. minv E as w1 a E1.
  destruct (Hm _ _ _ E1) as [P1 C1]. destruct (Hk _ _ _ _ E) as [P2 C2].
  split; [by eapply same_place_trans|]. by rewrite C2, C1, app_assoc.
Qed.

Ltac step_run :=
  let E := fresh "E" in
  intros ? ? ? E;
  unfold self_scaler, bind, act, call, modify, get, ret, raise in E; cbn in E;
  repeat match type of E with
         | context [match scaler ?t with _ => _ end] => destruct (scaler t); cbn in E
         end;
  inversion E; subst; clear E; cbn; by repeat split.

Lemma step_net_forward img : step_of [CForward] (net_forward img).
Proof. unfold net_forward. step_run. Qed.

Lemma step_loss_backward gs : step_of [CBackward] (loss_backward gs).
Proof. unfold loss_backward. step_run. Qed.

Lemma step_scaler_scale_backward gs : step_of [CBackward] (scaler_scale_backward gs).
Proof. unfold scaler_scale_backward. step_run. Qed.

Lemma step_optim_step : step_of [COptimStep] self_optim_step.
Proof. unfold self_optim_step. step_run. Qed.

Lemma step_scaler_step : step_of [CScalerStep] self_scaler_step.
Proof. unfold self_scaler_step. step_run. Qed.

Lemma step_scaler_update : step_of [CScalerUpdate] self_scaler_update.
Proof. unfold self_scaler_update. step_run. Qed.

(** A warmup iteration that returns. *)
Lemma warmup_step_inv batch_lb (w w' : World) :
  warmup_step batch_lb w = (w', Ok tt) ->
  cfg (self w') = cfg (self w) /\ dm (self w') = dm (self w) /\
  curr_iter (self w') = curr_iter (self w) + 1 /\
  fs w' = fs w /\
  test_dl (dm (self w)) <> [] /\
  NUM_LOG_ITERS (cfg (self w)) <> 0 /\
  calls w' = calls w
    ++ warmup_iteration_calls (AMP_ENABLED (cfg (self w)))
         ((curr_iter (self w) + 1) mod NUM_LOG_ITERS (cfg (self w)) =? 0)
         (length (test_dl (dm (self w)))).
Proof.
  unfold warmup_step. intros E.
  minv E as w1 out E1. apply step_net_forward in E1 as [(Hc1 & Hd1 & Hi1 & Hf1) C1].
  minv E as w2 t E2. inversion E2; subst w2 t; clear E2.
  minv E as w3 u E3.
  assert (same_place w1 w3 /\
          calls w3 = calls w1 ++ [CBackward]
                     ++ (if AMP_ENABLED (cfg (self w))
                         then [CScalerStep; CScalerUpdate] else [COptimStep]))
    as [(Hc3 & Hd3 & Hi3 & Hf3) C3].
  { rewrite <- Hc1. destruct (AMP_ENABLED (cfg (self w1))).
    - revert E3. apply (step_bind [CBackward] [CScalerStep; CScalerUpdate]);
        [apply step_scaler_scale_backward|]. intros _.
      apply (step_bind [CScalerStep] [CScalerUpdate]);
        [apply step_scaler_step | intros _; apply step_scaler_update].
    - revert E3. apply (step_bind [CBackward] [COptimStep]);
        [apply step_loss_backward | intros _; apply step_optim_step]. }
  minv E as w4 t E4. inversion E4; subst w4 t; clear E4.
  minv E as w5 m E5. unfold lift, py_mod in E5.
  destruct (NUM_LOG_ITERS (cfg (self w3)) =? 0) eqn:HL; [discriminate|].
  apply Z.eqb_neq in HL.
  inversion E5; subst w5 m; clear E5.
  minv E as w6 u6 E6.
  assert (cfg (self w6) = cfg (self w3) /\ dm (self w6) = dm (self w3) /\
          curr_iter (self w6) = curr_iter (self w3) /\ fs w6 = fs w3 /\
          calls w6 = calls w3
            ++ (if (curr_iter (self w3) + 1) mod NUM_LOG_ITERS (cfg (self w3)) =? 0
                then [CPprint] else []))
    as (Hc6 & Hd6 & Hi6 & Hf6 & C6).
  { destruct (_ =? 0); inversion E6; subst; cbn; rewrite ?app_nil_r; done. }
  minv E as w7 u7 E7. inversion E7; subst w7 u7; clear E7.
  match type of E with warmup_stats ?w0 = _ =>
    destruct (warmup_stats_run w0) as (w8 & pbs & Hc8 & Hd8 & Hi8 & _ & Hf8 & C8 & L8 & E8)
  end.
  rewrite E8 in E. destruct (cat pbs) eqn:Hcat; [|discriminate].
  inversion E; subst w'; clear E E8.
  cbn [self fs calls cfg dm curr_iter set_curr_iter set_tau_t set_p_t set_label_hist] in *.
  split; [congruence|]. split; [congruence|]. split; [congruence|]. split; [congruence|].
  split.
  { intros Hnil. rewrite Hd6, Hd3, Hd1, Hnil in L8. destruct pbs; discriminate. }
  split; [congruence|].
  rewrite C8, C6, C3, C1. unfold warmup_iteration_calls.
  rewrite Hd6, Hd3, Hd1, Hc3, Hc1, Hi3, Hi1. rewrite <- !app_assoc. reflexivity.
Qed.

End StepsOfWarmup.

Section WarmupCalls.
Context {R : Type} {SR : Scalar R} {CR : Collab R}.

Lemma iterations_nil budget i : iterations budget i 0 = 0%nat.
Proof. reflexivity. Qed.

Lemma iterations_break budget i n : budget <= i -> iterations budget i n = 0%nat.
Proof. intros H. unfold iterations. lia. Qed.

Lemma iterations_step budget i n :
  i < budget -> iterations budget i (S n) = S (iterations budget (i + 1) n).
Proof. intros H. unfold iterations. lia. Qed.

(** The calls of the iterations [0 .. k-1] of a warmup that started with
    the counter at [i]. *)
Lemma warmup_loop_calls (batches : list BatchLb) (w w' : World) :
  warmup_loop batches w = (w', Ok tt) ->
  let c := cfg (self w) in
  let i := curr_iter (self w) in
  let k := iterations (NUM_WARMUP_ITERS c) i (length batches) in
  cfg (self w') = c /\ dm (self w') = dm (self w) /\ fs w' = fs w /\
  calls w' = calls w
    ++ concat (map (fun j => warmup_iteration_calls (AMP_ENABLED c)
                               ((i + Z.of_nat j + 1) mod NUM_LOG_ITERS c =? 0)
                               (length (test_dl (dm (self w)))))
                   (seq 0 k)).
Proof.
  revert w. induction batches as [|b batches IH]; intros w E c i k; subst c i k.
  - inversion E; subst. rewrite iterations_nil. cbn. by rewrite app_nil_r.
  - cbn [warmup_loop] in E. unfold bind at 1, get in E.
    destruct (NUM_WARMUP_ITERS (cfg (self w)) <=? curr_iter (self w)) eqn:Hle.
    + inversion E; subst; clear E. apply Z.leb_le in Hle.
      rewrite iterations_break by exact Hle. cbn. by rewrite app_nil_r.
    + apply Z.leb_gt in Hle. minv E as w1 u E1. destruct u.
      apply warmup_step_inv in E1 as (Hc & Hd & Hi & Hf & _ & _ & Hcs).
      destruct (IH _ E) as (Hc' & Hd' & Hf' & Hcs').
      split; [congruence|]. split; [congruence|]. split; [congruence|].
      cbn [length]. rewrite iterations_step by exact Hle.
      cbn [seq map concat]. rewrite <- seq_shift, map_map.
      rewrite Hcs', Hcs, Hc, Hd, Hi, <- app_assoc.
      rewrite Z.add_0_r. do 3 f_equal. apply map_ext. intros j.
      do 3 f_equal. lia.
Qed.

Lemma warmup_iteration_calls_updates amp log n :
  Forall (fun c => c <> CSchedStep /\ c <> CEmaUpdate /\ c <> CZeroGrad)
         (warmup_iteration_calls amp log n).
Proof.
  unfold warmup_iteration_calls. rewrite !Forall_app. repeat split.
  - repeat constructor; discriminate.
  - destruct amp; repeat constructor; discriminate.
  - destruct log; repeat constructor; discriminate.
  - induction n as [|n IH]; cbn; constructor; [repeat split; discriminate | exact IH].
Qed.

(** X3. A warmup that returns has made [k] iterations, where [k] is the
    smaller of the number of labeled batches and the iterations left in
    the budget, and its calls are those of the iterations one after the
    other: a forward pass of the batch, the backward pass, the optimizer
    step (through the scaler under AMP), the printed record when the
    iteration is logged, and one forward pass of the online model per
    test batch. Warmup makes no other call: the scheduler is not stepped,
    the EMA weights are not updated, the gradients are not zeroed, and
    nothing is written to disk. *)
Theorem warmup_train_calls (w w' : World) :
  warmup_train w = (w', Ok tt) ->
  let c := cfg (self w) in
  let i := curr_iter (self w) in
  let k := iterations (NUM_WARMUP_ITERS c) i (length (train_lb_dl (dm (self w)))) in
  let new := concat (map (fun j => warmup_iteration_calls (AMP_ENABLED c)
                                     ((i + Z.of_nat j + 1) mod NUM_LOG_ITERS c =? 0)
                                     (length (test_dl (dm (self w)))))
                         (seq 0 k)) in
  calls w' = calls w ++ new /\
  Forall (fun c => c <> CSchedStep /\ c <> CEmaUpdate /\ c <> CZeroGrad) new /\
  fs w' = fs w.
Proof.
  unfold warmup_train. intros E.
  minv E as w1 u E1. inversion E1; subst w1 u; clear E1.
  minv E as w2 t E2. inversion E2; subst w2 t; clear E2.
  apply warmup_loop_calls in E. cbn [self fs calls cfg dm curr_iter set_buffers] in E.
  destruct E as (_ & _ & Hf & Hcs). cbv zeta.
  split; [exact Hcs|]. split; [|exact Hf].
  apply Forall_concat, Forall_forall. intros cs Hcs'.
  apply list_elem_of_fmap in Hcs' as (j & -> & _).
  apply warmup_iteration_calls_updates.
Qed.

End WarmupCalls.

Section WarmupCallsRun.

Abbreviation warmup_world :=
  (toy_world (SR := float_scalar) grads_weights (toy_cfg false false false 2 3 5) 3).

Lemma warmup_train_calls_witness :
  calls (fst (warmup_train warmup_world))
  = [CForward; CBackward; COptimStep; CPprint; CForward;
     CForward; CBackward; COptimStep; CPprint; CForward] /\
  fs (fst (warmup_train warmup_world)) = ∅.
Proof.
  assert (H : is_ok (snd (warmup_train warmup_world)) = true) by (vm_compute; reflexivity).
  destruct (warmup_train_calls warmup_world (fst (warmup_train warmup_world))
              (ok_eta_unit _ H)) as (Hc & _ & Hf).
  split; [rewrite Hc; vm_compute; reflexivity | exact Hf].
Defined.

End WarmupCallsRun.

Section WarmupEmptyTest.
Context {R : Type} {SR : Scalar R} {CR : Collab R}.

(** The statistics pass without a test batch. *)
Lemma warmup_stats_empty (w : World) :
  test_dl (dm (self w)) = [] ->
  warmup_stats w
  = ({| self := set_buffers (model_eval (buffers (self w))) (self w);
        fs := fs w; calls := calls w |},
     Raise (RuntimeError "torch.cat(): expected a non-empty list of Tensors")).
Proof.
  intros Hnil. unfold warmup_stats.
  erewrite bind_ok by reflexivity. erewrite bind_ok by reflexivity.
  cbn [self dm set_buffers]. rewrite Hnil. reflexivity.
Qed.

(** A warmup iteration up to its statistics pass. *)
Lemma warmup_step_to_stats batch_lb (w : World) :
  NUM_LOG_ITERS (cfg (self w)) <> 0 ->
  (AMP_ENABLED (cfg (self w)) = true -> scaler (self w) <> None) ->
  exists w6 : World,
    warmup_step batch_lb w = warmup_stats w6 /\
    dm (self w6) = dm (self w) /\
    curr_iter (self w6) = curr_iter (self w) + 1 /\
    fs w6 = fs w /\
    calls w6 = calls w ++ [CForward; CBackward]
      ++ (if AMP_ENABLED (cfg (self w)) then [CScalerStep; CScalerUpdate] else [COptimStep])
      ++ (if (curr_iter (self w) + 1) mod NUM_LOG_ITERS (cfg (self w)) =? 0
          then [CPprint] else []).
Proof.
  intros HL Hsc. unfold warmup_step.
  erewrite bind_ok by reflexivity. erewrite bind_ok by reflexivity.
  cbn [fst snd self cfg set_buffers].
  destruct (AMP_ENABLED (cfg (self w))) eqn:Hamp.
  - destruct (scaler (self w)) as [sc|] eqn:Hs; [|by destruct Hsc].
    erewrite bind_ok.
    2:{ unfold scaler_scale_backward, self_scaler_step, self_scaler_update, self_scaler.
        unfold bind, get, modify, call, ret.
        cbn [fst snd self fs calls scaler set_buffers set_grad set_optim set_parameters set_scaler].
        repeat (rewrite Hs;
                cbn [fst snd self fs calls scaler set_buffers set_grad set_optim set_parameters
                     set_scaler]).
        reflexivity. }
    erewrite bind_ok by reflexivity.
    cbn [fst snd self fs calls cfg curr_iter set_buffers set_grad set_optim set_parameters set_scaler].
    erewrite bind_ok
      by (unfold lift, py_mod; rewrite (proj2 (Z.eqb_neq _ _) HL); reflexivity).
    destruct (_ =? 0); cbn [when];
      (erewrite bind_ok by reflexivity); (erewrite bind_ok by reflexivity);
      eexists; (split; [reflexivity|]);
      cbn [fst snd self fs calls dm curr_iter set_buffers set_grad set_optim set_parameters
           set_scaler set_curr_iter];
      rewrite <- ?app_assoc, ?app_nil_r; done.
  - erewrite bind_ok by reflexivity.
    erewrite bind_ok by reflexivity.
    cbn [fst snd self fs calls cfg curr_iter set_buffers set_grad set_optim set_parameters set_scaler].
    erewrite bind_ok
      by (unfold lift, py_mod; rewrite (proj2 (Z.eqb_neq _ _) HL); reflexivity).
    destruct (_ =? 0); cbn [when];
      (erewrite bind_ok by reflexivity); (erewrite bind_ok by reflexivity);
      eexists; (split; [reflexivity|]);
      cbn [fst snd self fs calls dm curr_iter set_buffers set_grad set_optim set_parameters
           set_scaler set_curr_iter];
      rewrite <- ?app_assoc, ?app_nil_r; done.
Qed.

(** X4. Warmup needs a test loader that yields a batch: with an empty one
    no warmup iteration returns. The failure comes late: in a run whose log
    cadence is not zero (and whose scaler exists when AMP is enabled) the
    iteration raises the error of [torch.cat] on an empty list after the
    forward pass, the backward pass and the optimizer step have been made
    and the counter has been advanced. *)
Theorem warmup_empty_test_loader (batch_lb : BatchLb) (w : World) :
  test_dl (dm (self w)) = [] ->
  let r := warmup_step batch_lb w in
  is_ok (snd r) = false /\
  (NUM_LOG_ITERS (cfg (self w)) <> 0 ->
   (AMP_ENABLED (cfg (self w)) = true -> scaler (self w) <> None) ->
   snd r = Raise (RuntimeError "torch.cat(): expected a non-empty list of Tensors") /\
   curr_iter (self (fst r)) = curr_iter (self w) + 1 /\
   exists new, calls (fst r) = calls w ++ new /\
               omap update_of new = [UBackward; UStep]).
Proof.
  intros Hnil r. split.
  - subst r. destruct (warmup_step batch_lb w) as [w' [[]|e]] eqn:E; [|reflexivity].
    apply warmup_step_inv in E as (_ & _ & _ & _ & Hne & _). by destruct Hne.
  - intros HL Hsc. subst r.
    destruct (warmup_step_to_stats batch_lb w HL Hsc) as (w6 & -> & Hd & Hi & Hf & Hc).
    rewrite warmup_stats_empty by (by rewrite Hd).
    cbn [fst snd self calls curr_iter set_buffers].
    split; [reflexivity|]. split; [exact Hi|].
    eexists. split; [exact Hc|].
    destruct (AMP_ENABLED _), (_ =? 0); reflexivity.
Qed.

End WarmupEmptyTest.

Lemma warmup_empty_test_loader_witness :
  let w := {| self := initial_trainer (toy_cfg (SR := float_scalar) false false false 2 3 5)
                        {| train_lb_dl := [toy_batch_lb grads_weights];
                           train_ulb_dl := []; test_dl := []; ulb_dataset_len := 3 |};
              fs := ∅; calls := [] |} in
  let r := warmup_step (CR := toy grads_weights) (toy_batch_lb grads_weights) w in
  snd r = Raise (RuntimeError "torch.cat(): expected a non-empty list of Tensors") /\
  curr_iter (self (fst r)) = 1.
Proof.
  cbv zeta.
  match goal with |- snd (warmup_step ?b ?w) = _ /\ _ =>
    destruct (warmup_empty_test_loader b w eq_refl) as (_ & H) end.
  destruct H as (He & Hi & _); [discriminate | discriminate |].
  split; [exact He | exact Hi].
Defined.


(** ** Resuming with warmup enabled *)

Section ResumeWarmup.
Context {R : Type} {SR : Scalar R} {CR : Collab R}.

(** Warmup with its budget used up: the exit test of the first batch
    resets the counter and nothing else is done. *)
Lemma warmup_train_spent (w : World) :
  train_lb_dl (dm (self w)) <> [] ->
  NUM_WARMUP_ITERS (cfg (self w)) <= curr_iter (self w) ->
  warmup_train w
  = ({| self := set_curr_iter 0 (set_buffers (model_train (buffers (self w))) (self w));
        fs := fs w; calls := calls w |}, Ok tt).
Proof.
  intros Hne Hle. unfold warmup_train.
  erewrite bind_ok by reflexivity. erewrite bind_ok by reflexivity.
  cbn [self dm set_buffers].
  destruct (train_lb_dl (dm (self w))) as [|b bs]; [done|].
  cbn [warmup_loop]. erewrite bind_ok by reflexivity.
  cbn [self cfg curr_iter set_buffers].
  apply Z.leb_le in Hle. rewrite Hle. reflexivity.
Qed.

Lemma no_update_in_forwards n : omap update_of (repeat CForward n) = [].
Proof. induction n as [|n IH]; [done|]. exact IH. Qed.

(** X5. Resuming with warmup enabled loses the counter of the checkpoint:
    when the run resumes ([CONT_TRAIN]) from a checkpoint whose counter
    has reached [num_warmup_iters > 0] and the labeled loader yields a
    batch, construction loads the checkpoint, and the exit test of the
    warmup loop then sets the counter to 0. No training step is made, the
    statistics are those of the checkpoint, and training starts again at
    iteration 0. *)
Theorem resume_with_warmup_resets_counter (c : Config R) (d : DataManager)
    (files : gmap string (gmap string Value)) (t : Trainer) :
  CONT_TRAIN c = true ->
  0 < NUM_WARMUP_ITERS c ->
  files !! RESUME c = Some (save_dict t) ->
  state_dicts_accepted t (initial_trainer c d) = true ->
  NUM_WARMUP_ITERS c <= curr_iter t ->
  train_lb_dl d <> [] ->
  let w := fst (__init__ c d files) in
  curr_iter (self w) = 0 /\
  omap update_of (calls w) = [] /\
  tau_t (self w) = tau_t t /\ p_t (self w) = p_t t /\ label_hist (self w) = label_hist t /\
  best_test_acc (self w) = best_test_acc t /\ best_test_iter (self w) = best_test_iter t.
Proof.
  intros HC HW Hfile Hacc Hle Hne.
  unfold state_dicts_accepted in Hacc.
  apply andb_prop in Hacc as [Hacc Hs]. apply andb_prop in Hacc as [Hacc Ho].
  apply andb_prop in Hacc as [Hm He].
  apply is_ok_true in Hm as [pb Hm]. apply is_ok_true in He as [e He].
  apply is_ok_true in Ho as [o Ho]. apply is_ok_true in Hs as [s Hs].
  pose proof (load_saved t (initial_trainer c d) (RESUME c) files [] pb e o s
                Hm He Ho Hs) as Hload.
  rewrite (insert_id _ _ _ Hfile) in Hload.
  intros w. subst w. remember (__init__ c d files) as r eqn:Er.
  unfold __init__, init_body in Er.
  erewrite bind_ok in Er by reflexivity.
  change (cfg (self {| self := initial_trainer c d; fs := files; calls := [] |})) with c in Er.
  rewrite HC in Er. cbn [when] in Er.
  erewrite bind_ok in Er by exact Hload.
  apply Z.ltb_lt in HW. rewrite HW in Er. cbn [when] in Er.
  erewrite bind_ok in Er
    by (apply warmup_train_spent; cbn [self cfg dm curr_iter]; assumption).
  cbn [self fs calls buffers app] in Er.
  match type of Er with context [bind validate ?k ?w0] =>
    destruct (validate_run w0) as (w1 & a & outs & Hmode & _ & _ & Hcalls & _ & _ & _ & _ & _ & E);
    unfold bind at 1 in Er; rewrite E in Er
  end.
  unfold same_but_mode in Hmode. cbn [self calls] in Hmode, Hcalls.
  assert (Hnone : omap update_of (calls w1) = []).
  { rewrite Hcalls. cbn. apply no_update_in_forwards. }
  destruct (Nat.eqb (total_num a) 0); subst r;
    cbn [fst snd raise ret call self calls];
    rewrite ?omap_app_calls, Hnone, Hmode; cbn; done.
Qed.

End ResumeWarmup.

Section ResumeWarmupRun.

(** A checkpoint saved at iteration 7, resumed with a warmup budget of 2. *)
Abbreviation resumed_cfg := (toy_cfg (SR := float_scalar) false false true 2 3 5).
Abbreviation saved_at_7 :=
  (set_curr_iter (CR := toy grads_weights) 7
     (initial_trainer resumed_cfg (toy_dm grads_weights 3))).

Lemma resume_with_warmup_resets_counter_witness :
  curr_iter saved_at_7 = 7 /\
  curr_iter (self (fst (__init__ resumed_cfg (toy_dm grads_weights 3)
                          {[ "resume.pth" := save_dict saved_at_7 ]}))) = 0.
Proof.
  split; [reflexivity|].
  refine (proj1 (resume_with_warmup_resets_counter (CR := toy grads_weights)
                   resumed_cfg (toy_dm grads_weights 3)
                   {[ "resume.pth" := save_dict saved_at_7 ]} saved_at_7
                   eq_refl _ _ _ _ _)).
  - reflexivity.
  - apply lookup_singleton_eq.
  - vm_compute. reflexivity.
  - cbn. lia.
  - discriminate.
Defined.

End ResumeWarmupRun.


(** ** The counter of the training loop *)

Section CounterFrames.
Context {R : Type} {SR : Scalar R} {CR : Collab R}.

Lemma counter_validate : keeps same_counter validate.
Proof.
  intros w.
  destruct (validate_run w) as (w' & a & outs & Hm & _ & _ & _ & _ & _ & _ & _ & _ & E).
  rewrite E. unfold same_but_mode in Hm.
  destruct (Nat.eqb (total_num a) 0); cbn [fst raise ret]; rewrite Hm; by split.
Qed.

Lemma counter_save d n : keeps same_counter (__save__model__ d n).
Proof. by apply keeps_same; [apply _|]. Qed.

End CounterFrames.

#[global] Hint Resolve counter_validate counter_save : frame.

Section CounterOfIteration.
Context {R : Type} {SR : Scalar R} {CR : Collab R}.

Lemma counter_eval_block log : keeps same_counter (eval_block log).
Proof. unfold eval_block, self_tb_update, self_tb. keeps. Qed.

Lemma counter_forward_losses l b1 b2 : keeps same_counter (forward_losses l b1 b2).
Proof.
  unfold forward_losses, plain_losses, sharp_losses, sharp_eps, self_grad_w,
    perturb_model, self_eps.
  keeps.
Qed.

Lemma counter_backward_and_step ls : keeps same_counter (backward_and_step ls).
Proof.
  unfold backward_and_step, scaler_scale_backward, loss_backward, restore_model,
    self_scaler_step, self_scaler_update, self_optim_step, self_scaler, self_eps,
    self_grad_w.
  keeps.
Qed.

Lemma counter_make_log_dict ls l : keeps same_counter (make_log_dict ls l).
Proof. unfold make_log_dict, read_loss_po. keeps. Qed.

Lemma counts_bind {A B} (m : M A) (k : A -> M B) :
  keeps same_counter m -> (forall a, counts (k a)) -> counts (bind m k).
Proof.
  intros Hm Hk w. destruct (Hm w) as [Hc Hi]. unfold bind.
  destruct (m w) as [w1 [a|e]]; cbn [fst snd] in *.
  - destruct (Hk a w1) as [Hc' Hi']. rewrite Hc', Hi', Hc, Hi. done.
  - done.
Qed.

Lemma counts_increment {A} (x : A) :
  counts (bind (modify (fun t => set_curr_iter (curr_iter t + 1) t)) (fun _ => ret x)).
Proof. intros w. done. Qed.

(** A training iteration counts: a failed iteration leaves the counter
    where it was. *)
Lemma counts_train_step l b1 b2 : counts (train_step l b1 b2).
Proof.
  unfold train_step.
  apply counts_bind; [apply counter_forward_losses | intros ll].
  apply counts_bind; [apply counter_backward_and_step | intros _].
  apply counts_bind; [unfold self_sched_step; keeps | intros _].
  apply counts_bind; [unfold self_net_update; keeps | intros _].
  apply counts_bind; [unfold self_model_zero_grad; keeps | intros _].
  apply counts_bind; [apply counter_make_log_dict | intros log].
  apply counts_bind; [apply counter_eval_block | intros log'].
  apply counts_bind; [keeps | intros t].
  apply counts_bind; [keeps | intros m].
  apply counts_bind; [keeps | intros _].
  apply counts_increment.
Qed.

Lemma train_loop_counter (batches : list (BatchLb * BatchUlb)) (l : Locals R) (w : World) :
  let r := train_loop batches l w in
  let i := curr_iter (self w) in
  let k := Z.of_nat (iterations (NUM_TRAIN_ITERS (cfg (self w))) i (length batches)) in
  cfg (self (fst r)) = cfg (self w) /\
  if is_ok (snd r) then curr_iter (self (fst r)) = i + k
  else i <= curr_iter (self (fst r)) < i + k.
Proof.
  revert l w. induction batches as [|[b1 b2] batches IH]; intros l w; cbv zeta.
  - cbn [train_loop length]. rewrite iterations_nil. cbn.
    split; [done | symmetry; apply Z.add_0_r].
  - assert (E : train_loop ((b1, b2) :: batches) l w
               = if NUM_TRAIN_ITERS (cfg (self w)) <=? curr_iter (self w)
                 then (w, Ok tt)
                 else bind (train_step l b1 b2) (fun l' => train_loop batches l') w).
    { cbn [train_loop]. unfold bind at 1, get.
      destruct (NUM_TRAIN_ITERS (cfg (self w)) <=? curr_iter (self w)); reflexivity. }
    rewrite E. clear E. cbn [length].
    destruct (NUM_TRAIN_ITERS (cfg (self w)) <=? curr_iter (self w)) eqn:Hle.
    + apply Z.leb_le in Hle. rewrite iterations_break by exact Hle. cbn.
      split; [done | symmetry; apply Z.add_0_r].
    + apply Z.leb_gt in Hle. rewrite iterations_step by exact Hle.
      destruct (counts_train_step l b1 b2 w) as [Hc Hi]. unfold bind.
      destruct (train_step l b1 b2 w) as [w1 [l'|e]]; cbn [fst snd is_ok] in *.
      * specialize (IH l' w1). cbv zeta in IH. rewrite Hc, Hi in IH.
        destruct IH as [Hc' Hk]. split; [exact Hc'|].
        destruct (is_ok _); lia.
      * split; [exact Hc|]. lia.
Qed.

(** X6. The counter of [train]. The loop pairs the batches of the two
    loaders, so it makes at most as many iterations as the shorter loader
    yields, and at most as many as are left in the budget
    [num_train_iters] from the counter it starts with (the counter of the
    checkpoint in a resumed run). When [train] returns, the counter has
    advanced by exactly that number [k]; nothing resets it. When an
    iteration raises, the counter shows the iterations completed before
    it, fewer than [k]: a failed iteration is not counted. *)
Theorem train_counter (w : World) :
  let r := train w in
  let i := curr_iter (self w) in
  let n := Nat.min (length (train_lb_dl (dm (self w)))) (length (train_ulb_dl (dm (self w)))) in
  let k := Z.of_nat (iterations (NUM_TRAIN_ITERS (cfg (self w))) i n) in
  cfg (self (fst r)) = cfg (self w) /\
  if is_ok (snd r) then curr_iter (self (fst r)) = i + k
  else i <= curr_iter (self (fst r)) < i + k.
Proof.
  cbv zeta. unfold train.
  erewrite bind_ok by reflexivity. erewrite bind_ok by reflexivity.
  match goal with |- context [train_loop ?bs ?l ?w0] =>
    pose proof (train_loop_counter bs l w0) as H end.
  cbv zeta in H. cbn [self cfg dm curr_iter set_buffers] in H.
  rewrite length_zip_with in H. exact H.
Qed.

End CounterOfIteration.


(** ** The evaluation block *)

Section EvalBlock.
Context {R : Type} {SR : Scalar R} {CR : Collab R}.

Lemma eval_block_zero log (w : World) :
  NUM_EVAL_ITERS (cfg (self w)) = 0 -> eval_block log w = (w, Raise ZeroDivisionError).
Proof.
  intros HE. unfold eval_block. erewrite bind_ok by reflexivity.
  apply bind_raise. unfold lift, py_mod. rewrite HE. reflexivity.
Qed.

(** The evaluation block on the cadence, up to the tensorboard update: the
    world [w2] with the best accuracy and iteration updated and the
    checkpoints written, and the record [log2] passed to tensorboard. *)
Lemma eval_block_hit log (w w1 : World) vd acc :
  NUM_EVAL_ITERS (cfg (self w)) <> 0 ->
  ((curr_iter (self w) + 1) mod NUM_EVAL_ITERS (cfg (self w)) =? 0) = true ->
  validate w = (w1, Ok vd) ->
  vd !! "validation/accuracy" = Some acc ->
  let better := s_ltb (best_test_acc (self w1)) acc in
  let t1 := after_eval (self w1) acc in
  let c := cfg (self w1) in
  let w2 := {| self := t1;
               fs := <[last_path c := save_dict t1]>
                       (if better then <[best_path c := save_dict t1]> (fs w1) else fs w1);
               calls := calls w1 ++ (if better then [CSave (best_path c)] else [])
                        ++ [CSave (last_path c)] |} in
  let log2 := <["best_acc" := best_test_acc t1]> (
              <["best_iter" := s_of_Z (best_test_iter t1)]> (vd ∪ log)) in
  eval_block log w
  = bind (self_tb_update log2 (curr_iter t1)) (fun _ => ret log2) w2.
Proof.
  intros HN Hhit Ev Hacc. cbv zeta. unfold eval_block.
  erewrite bind_ok by reflexivity.
  erewrite bind_ok
    by (unfold lift, py_mod; rewrite (proj2 (Z.eqb_neq _ _) HN); reflexivity).
  rewrite Hhit. rewrite (bind_ok _ _ _ _ _ Ev).
  erewrite bind_ok by reflexivity.
  erewrite bind_ok by (unfold lift; rewrite Hacc; reflexivity).
  unfold after_eval, last_path, best_path, checkpoint_dir.
  destruct (s_ltb (best_test_acc (self w1)) acc) eqn:Hb; cbn [when].
  - erewrite bind_ok by reflexivity. erewrite bind_ok by reflexivity.
    erewrite bind_ok by reflexivity.
    cbn [self fs calls cfg curr_iter set_best_test_iter set_best_test_acc].
    rewrite <- app_assoc. reflexivity.
  - erewrite bind_ok by reflexivity. erewrite bind_ok by reflexivity.
    erewrite bind_ok by reflexivity.
    cbn [self fs calls app]. reflexivity.
Qed.

Lemma after_eval_counter (t : Trainer) acc :
  cfg (after_eval t acc) = cfg t /\ curr_iter (after_eval t acc) = curr_iter t /\
  tb (after_eval t acc) = tb t.
Proof. unfold after_eval. by destruct (s_ltb _ _). Qed.

Lemma after_eval_best (t : Trainer) acc :
  best_test_acc (after_eval t acc)
  = (if s_ltb (best_test_acc t) acc then acc else best_test_acc t) /\
  best_test_iter (after_eval t acc)
  = (if s_ltb (best_test_acc t) acc then curr_iter t else best_test_iter t).
Proof. unfold after_eval. by destruct (s_ltb _ _). Qed.

End EvalBlock.

Section ZeroCadence.
Context {R : Type} {SR : Scalar R} {CR : Collab R}.

(** A sequence whose continuation never returns from a world that
    satisfies [I] never returns, when its first action keeps [I]. *)
Lemma never_bind {A B} (I : World -> Prop) (m : M A) (k : A -> M B) :
  (forall w, I w -> I (fst (m w))) ->
  (forall a w, I w -> is_ok (snd (k a w)) = false) ->
  forall w, I w -> is_ok (snd (bind m k w)) = false.
Proof.
  intros Hm Hk w Hw. specialize (Hm w Hw). unfold bind.
  destruct (m w) as [w1 [a|e]]; [by apply Hk | reflexivity].
Qed.

Lemma keeps_config {A} (m : M A) (P : Config R -> Prop) :
  keeps same_counter m ->
  forall w : World, P (cfg (self w)) -> P (cfg (self (fst (m w)))).
Proof. intros Hm w Hw. destruct (Hm w) as [-> _]. exact Hw. Qed.

(** X7. A cadence of zero is an error, not a way to switch a step off:
    with [num_eval_iters = 0] the evaluation block raises
    [ZeroDivisionError] at once, and with [num_eval_iters = 0] or
    [num_log_iters = 0] no training iteration returns; with
    [num_log_iters = 0] no warmup iteration returns either. The failed
    training iteration has not advanced the counter. *)
Theorem zero_cadence_raises (l : Locals R) (batch_lb : BatchLb) (batch_ulb : BatchUlb)
    (log : gmap string R) (w : World) :
  NUM_EVAL_ITERS (cfg (self w)) = 0 \/ NUM_LOG_ITERS (cfg (self w)) = 0 ->
  is_ok (snd (train_step l batch_lb batch_ulb w)) = false /\
  curr_iter (self (fst (train_step l batch_lb batch_ulb w))) = curr_iter (self w) /\
  (NUM_EVAL_ITERS (cfg (self w)) = 0 -> eval_block log w = (w, Raise ZeroDivisionError)) /\
  (NUM_LOG_ITERS (cfg (self w)) = 0 -> is_ok (snd (warmup_step batch_lb w)) = false).
Proof.
  intros H0.
  assert (Hno : is_ok (snd (train_step l batch_lb batch_ulb w)) = false).
  { pose (P := fun c : Config R => NUM_EVAL_ITERS c = 0 \/ NUM_LOG_ITERS c = 0).
    pose (I := fun w : World => P (cfg (self w))).
    revert w H0. change (forall w, I w -> is_ok (snd (train_step l batch_lb batch_ulb w)) = false).
    unfold train_step.
    apply (never_bind I); [apply (keeps_config _ P), counter_forward_losses | intros ll].
    apply (never_bind I); [apply (keeps_config _ P), counter_backward_and_step | intros _].
    apply (never_bind I);
      [apply (keeps_config _ P); unfold self_sched_step; keeps | intros _].
    apply (never_bind I);
      [apply (keeps_config _ P); unfold self_net_update; keeps | intros _].
    apply (never_bind I);
      [apply (keeps_config _ P); unfold self_model_zero_grad; keeps | intros _].
    apply (never_bind I); [apply (keeps_config _ P), counter_make_log_dict | intros log1].
    intros w [HE|HL].
    - unfold bind. by rewrite eval_block_zero.
    - revert w HL.
      apply (never_bind (fun w => NUM_LOG_ITERS (cfg (self w)) = 0));
        [apply (keeps_config _ (fun c => NUM_LOG_ITERS c = 0)), counter_eval_block
        | intros log2].
      intros w HL. erewrite bind_ok by reflexivity.
      unfold bind, lift, py_mod. rewrite HL. reflexivity. }
  split; [exact Hno|]. split.
  - destruct (counts_train_step l batch_lb batch_ulb w) as [_ Hi].
    rewrite Hno in Hi. exact Hi.
  - split; [apply eval_block_zero|].
    intros HL. destruct (warmup_step batch_lb w) as [w' [[]|e]] eqn:E; [|reflexivity].
    apply warmup_step_inv in E as (_ & _ & _ & _ & _ & HL' & _). by destruct HL'.
Qed.

End ZeroCadence.

Lemma zero_cadence_raises_witness :
  let w := toy_world (SR := float_scalar) grads_weights (toy_cfg true false false 0 3 0) 3 in
  let r := train_step (initial_locals (self w)) (toy_batch_lb grads_weights)
                      (toy_batch_ulb grads_weights) w in
  snd r = Raise ZeroDivisionError /\ curr_iter (self (fst r)) = 0.
Proof.
  cbv zeta. split; [vm_compute; reflexivity|].
  match goal with |- curr_iter (self (fst (train_step ?l ?b1 ?b2 ?w))) = _ =>
    exact (proj1 (proj2 (zero_cadence_raises l b1 b2 ∅ w (or_introl eq_refl)))) end.
Defined.

Section Checkpoints.
Context {R : Type} {SR : Scalar R} {CR : Collab R}.

Lemma validate_same (w w1 : World) vd :
  validate w = (w1, Ok vd) ->
  same_but_mode (self w) (self w1) /\ fs w1 = fs w.
Proof.
  intros Ev.
  destruct (validate_run w) as (w' & a & outs & Hm & _ & Hf & _ & _ & _ & _ & _ & _ & E).
  rewrite E in Ev. destruct (Nat.eqb (total_num a) 0); [discriminate|].
  inversion Ev; subst. done.
Qed.

Lemma best_is_not_last (c : Config R) : best_path c <> last_path c.
Proof.
  unfold best_path, last_path, osp_join. cbn [String.prefix].
  destruct (String.eqb (checkpoint_dir c) "" || ends_with_sep (checkpoint_dir c))%bool;
    intros E; apply String.app_inj in E; try apply String.app_inj in E; discriminate.
Qed.

(** The tensorboard update writes no file. *)
Lemma tb_update_disk {B} log it (w : World) (k : B) :
  fs (fst (bind (self_tb_update log it) (fun _ => ret k) w)) = fs w.
Proof.
  unfold self_tb_update, self_tb, bind, get, modify, call, ret, raise. cbn.
  by destruct (tb (self w)).
Qed.

Lemma tb_update_best {B} log it (w : World) (k : B) :
  best_test_acc (self (fst (bind (self_tb_update log it) (fun _ => ret k) w)))
  = best_test_acc (self w) /\
  best_test_iter (self (fst (bind (self_tb_update log it) (fun _ => ret k) w)))
  = best_test_iter (self w).
Proof.
  unfold self_tb_update, self_tb, bind, get, modify, call, ret, raise. cbn.
  by destruct (tb (self w)).
Qed.

(** X8. The checkpoints of an evaluation. The two files have different
    paths, so the "last" checkpoint never overwrites the "best" one. After
    an evaluation that measured [acc], the "last" file holds the state
    with the best accuracy and iteration updated; the "best" file holds
    the same state when [acc] is strictly greater than the best accuracy
    so far, and is left exactly as it was on disk otherwise; no other
    file is touched. The best accuracy of the trainer is [acc] or the old
    one, and the best iteration is the current counter or the old one,
    accordingly. *)
Theorem best_checkpoint_kept (log : gmap string R) (w w1 : World) vd acc :
  NUM_EVAL_ITERS (cfg (self w)) <> 0 ->
  ((curr_iter (self w) + 1) mod NUM_EVAL_ITERS (cfg (self w)) =? 0) = true ->
  validate w = (w1, Ok vd) ->
  vd !! "validation/accuracy" = Some acc ->
  let c := cfg (self w) in
  let better := s_ltb (best_test_acc (self w)) acc in
  let t1 := after_eval (self w1) acc in
  let w2 := fst (eval_block log w) in
  best_path c <> last_path c /\
  fs w2 !! last_path c = Some (save_dict t1) /\
  fs w2 !! best_path c = (if better then Some (save_dict t1) else fs w !! best_path c) /\
  (forall p, p <> best_path c -> p <> last_path c -> fs w2 !! p = fs w !! p) /\
  best_test_acc (self w2) = (if better then acc else best_test_acc (self w)) /\
  best_test_iter (self w2)
  = (if better then curr_iter (self w) else best_test_iter (self w)).
Proof.
  intros HN Hhit Ev Hacc. cbv zeta.
  rewrite (eval_block_hit log w w1 vd acc HN Hhit Ev Hacc).
  destruct (validate_same _ _ _ Ev) as [Hm Hf]. unfold same_but_mode in Hm.
  assert (Hc : cfg (self w1) = cfg (self w)) by (by rewrite Hm).
  assert (Hb : best_test_acc (self w1) = best_test_acc (self w)) by (by rewrite Hm).
  assert (Hbi : best_test_iter (self w1) = best_test_iter (self w)) by (by rewrite Hm).
  assert (Hi : curr_iter (self w1) = curr_iter (self w)) by (by rewrite Hm).
  pose proof (best_is_not_last (cfg (self w))) as Hne.
  split; [exact Hne|].
  rewrite tb_update_disk. cbn [fs].
  destruct (tb_update_best
              (<["best_acc" := best_test_acc (after_eval (self w1) acc)]> (
               <["best_iter" := s_of_Z (best_test_iter (after_eval (self w1) acc))]>
                 (vd ∪ log)))
              (curr_iter (after_eval (self w1) acc))
              {| self := after_eval (self w1) acc;
                 fs := <[last_path (cfg (self w1)) := save_dict (after_eval (self w1) acc)]>
                         (if s_ltb (best_test_acc (self w1)) acc
                          then <[best_path (cfg (self w1))
                                 := save_dict (after_eval (self w1) acc)]> (fs w1)
                          else fs w1);
                 calls := calls w1
                          ++ (if s_ltb (best_test_acc (self w1)) acc
                              then [CSave (best_path (cfg (self w1)))] else [])
                          ++ [CSave (last_path (cfg (self w1)))] |}
              (<["best_acc" := best_test_acc (after_eval (self w1) acc)]> (
               <["best_iter" := s_of_Z (best_test_iter (after_eval (self w1) acc))]>
                 (vd ∪ log))))
    as [-> ->].
  cbn [self]. destruct (after_eval_best (self w1) acc) as [-> ->].
  rewrite Hc, Hb, Hbi, Hi, Hf.
  split; [apply lookup_insert_eq|].
  destruct (s_ltb (best_test_acc (self w)) acc).
  - split; [rewrite lookup_insert_ne by done; apply lookup_insert_eq|].
    split; [|done].
    intros p Hp1 Hp2. by rewrite !lookup_insert_ne.
  - split; [by rewrite lookup_insert_ne|].
    split; [|done].
    intros p Hp1 Hp2. by rewrite lookup_insert_ne.
Qed.

End Checkpoints.

#[global] Hint Resolve counter_forward_losses counter_backward_and_step
  counter_make_log_dict counter_eval_block : frame.

Section IterationInversion.
Context {R : Type} {SR : Scalar R} {CR : Collab R}.

Lemma counter_sched_step : keeps same_counter self_sched_step.
Proof. unfold self_sched_step. keeps. Qed.

Lemma counter_net_update : keeps same_counter self_net_update.
Proof. unfold self_net_update. keeps. Qed.

Lemma counter_zero_grad : keeps same_counter self_model_zero_grad.
Proof. unfold self_model_zero_grad. keeps. Qed.

End IterationInversion.

#[global] Hint Resolve counter_sched_step counter_net_update counter_zero_grad : frame.

Section IterationInversion2.
Context {R : Type} {SR : Scalar R} {CR : Collab R}.

(** A training iteration that returns: its evaluation block ran at the
    counter and under the configuration the iteration started with, and
    returned; what follows the block writes no file and advances the
    counter. *)
Lemma train_step_inv l b1 b2 (w w' : World) l' :
  train_step l b1 b2 w = (w', Ok l') ->
  exists (w6 w7 : World) log log',
    same_counter (self w) (self w6) /\
    eval_block log w6 = (w7, Ok log') /\
    fs w' = fs w7 /\ tb (self w') = tb (self w7) /\
    curr_iter (self w') = curr_iter (self w) + 1.
Proof.
  unfold train_step. intros E.
  mframe same_counter E as w1 ll E1 K1.
  mframe same_counter E as w2 u2 E2 K2.
  mframe same_counter E as w3 u3 E3 K3.
  mframe same_counter E as w4 u4 E4 K4.
  mframe same_counter E as w5 u5 E5 K5.
  mframe same_counter E as w6 log E6 K6.
  mframe same_counter E as w7 log' E7 K7.
  minv E as w8 t E8. inversion E8; subst w8 t; clear E8.
  minv E as w9 m E9. unfold lift in E9.
  destruct (py_mod _ _); [|discriminate]. inversion E9; subst w9 m; clear E9.
  minv E as w10 u10 E10.
  assert (H10 : self w10 = self w7 /\ fs w10 = fs w7)
    by (destruct (_ =? 0); inversion E10; subst; done).
  destruct H10 as [Hs10 Hf10].
  inversion E; subst w' l'; clear E. cbn [self fs curr_iter tb set_curr_iter].
  exists w6, w7, log, log'.
  assert (K : same_counter (self w) (self w6)).
  { destruct K1, K2, K3, K4, K5, K6. split; congruence. }
  split; [exact K|]. split; [exact E7|]. split; [exact Hf10|]. rewrite Hs10.
  split; [reflexivity|].
  destruct K as [_ Ki]. destruct K7 as [_ Ki7]. rewrite Ki7, Ki. reflexivity.
Qed.

Lemma eval_block_validate_raises log (w w1 : World) e :
  NUM_EVAL_ITERS (cfg (self w)) <> 0 ->
  ((curr_iter (self w) + 1) mod NUM_EVAL_ITERS (cfg (self w)) =? 0) = true ->
  validate w = (w1, Raise e) ->
  eval_block log w = (w1, Raise e).
Proof.
  intros HN Hhit Ev. unfold eval_block.
  erewrite bind_ok by reflexivity.
  erewrite bind_ok
    by (unfold lift, py_mod; rewrite (proj2 (Z.eqb_neq _ _) HN); reflexivity).
  rewrite Hhit. by apply bind_raise.
Qed.

(** X9. The checkpoint lags the counter by one. A training iteration on
    the evaluation cadence that returns has written a "last" checkpoint
    whose [curr_iter] is the counter the iteration started with, and has
    then advanced the counter of the trainer by one: a run resumed from
    the file starts at the iteration that wrote it. *)
Theorem checkpoint_counter_lags (l l' : Locals R) (batch_lb : BatchLb)
    (batch_ulb : BatchUlb) (w w' : World) :
  NUM_EVAL_ITERS (cfg (self w)) <> 0 ->
  ((curr_iter (self w) + 1) mod NUM_EVAL_ITERS (cfg (self w)) =? 0) = true ->
  train_step l batch_lb batch_ulb w = (w', Ok l') ->
  curr_iter (self w') = curr_iter (self w) + 1 /\
  exists ckpt, fs w' !! last_path (cfg (self w)) = Some ckpt /\
               ckpt_get ckpt "curr_iter" = Ok (VInt (curr_iter (self w))).
Proof.
  intros HN Hhit E.
  apply train_step_inv in E as (w6 & w7 & log & log' & [Kc Ki] & Eb & Hf & _ & Hi).
  split; [exact Hi|].
  rewrite <- Kc in HN. rewrite <- Kc, <- Ki in Hhit.
  destruct (validate w6) as [w1 [vd|e]] eqn:Ev.
  - destruct (validate_accuracy _ _ _ Ev) as [acc Hacc].
    pose proof (eval_block_hit log w6 w1 vd acc HN Hhit Ev Hacc) as Eh.
    cbv zeta in Eh. rewrite Eh in Eb.
    apply (f_equal (fun r => fs (fst r))) in Eb. rewrite tb_update_disk in Eb.
    cbn [fst fs] in Eb.
    destruct (validate_same _ _ _ Ev) as [Hm _]. unfold same_but_mode in Hm.
    assert (Hc1 : cfg (self w1) = cfg (self w6)) by (by rewrite Hm).
    assert (Hi1 : curr_iter (self w1) = curr_iter (self w6)) by (by rewrite Hm).
    exists (save_dict (after_eval (self w1) acc)).
    rewrite Hf, <- Eb, Hc1, Kc. split; [apply lookup_insert_eq|].
    rewrite saved_curr_iter. destruct (after_eval_counter (self w1) acc) as (_ & -> & _).
    by rewrite Hi1, Ki.
  - rewrite (eval_block_validate_raises _ _ _ _ HN Hhit Ev) in Eb. discriminate.
Qed.

End IterationInversion2.

Section LoggerFrames.
Context {R : Type} {SR : Scalar R} {CR : Collab R}.

#[export] Instance same_tb_reflexive : Reflexive (same_tb (R := R)).
Proof. intros t. reflexivity. Qed.

#[export] Instance same_tb_transitive : Transitive (same_tb (R := R)).
Proof. intros t1 t2 t3 H1 H2. unfold same_tb in *. congruence. Qed.

Lemma tb_net_forward img : keeps same_tb (net_forward img).
Proof. unfold net_forward. keeps. Qed.

End LoggerFrames.

#[global] Hint Resolve tb_net_forward : frame.

Section LoggerOfIteration.
Context {R : Type} {SR : Scalar R} {CR : Collab R}.

Lemma tb_forward_losses l b1 b2 : keeps same_tb (forward_losses l b1 b2).
Proof.
  unfold forward_losses, plain_losses, sharp_losses, sharp_eps, self_grad_w,
    perturb_model, self_eps.
  keeps.
Qed.

Lemma tb_backward_and_step ls : keeps same_tb (backward_and_step ls).
Proof.
  unfold backward_and_step, scaler_scale_backward, loss_backward, restore_model,
    self_scaler_step, self_scaler_update, self_optim_step, self_scaler, self_eps,
    self_grad_w.
  keeps.
Qed.

Lemma tb_updates :
  keeps same_tb self_sched_step /\ keeps same_tb self_net_update /\
  keeps same_tb self_model_zero_grad.
Proof.
  unfold self_sched_step, self_net_update, self_model_zero_grad. repeat split; keeps.
Qed.

Lemma tb_make_log_dict ls l : keeps same_tb (make_log_dict ls l).
Proof. unfold make_log_dict, read_loss_po. keeps. Qed.

(** Without the tensorboard attribute, an evaluation whose [validate]
    returns writes its checkpoints and then raises. *)
Lemma eval_block_no_tb log (w w1 : World) vd :
  tb (self w) = None ->
  NUM_EVAL_ITERS (cfg (self w)) <> 0 ->
  ((curr_iter (self w) + 1) mod NUM_EVAL_ITERS (cfg (self w)) =? 0) = true ->
  validate w = (w1, Ok vd) ->
  snd (eval_block log w) = Raise (AttributeError "tb") /\
  is_Some (fs (fst (eval_block log w)) !! last_path (cfg (self w))).
Proof.
  intros Htb HN Hhit Ev.
  destruct (validate_accuracy _ _ _ Ev) as [acc Hacc].
  pose proof (eval_block_hit log w w1 vd acc HN Hhit Ev Hacc) as Eh.
  cbv zeta in Eh. rewrite Eh.
  destruct (validate_same _ _ _ Ev) as [Hm _]. unfold same_but_mode in Hm.
  assert (Hc1 : cfg (self w1) = cfg (self w)) by (by rewrite Hm).
  assert (Ht1 : tb (self w1) = None) by (by rewrite Hm).
  rewrite tb_update_disk. cbn [fs]. rewrite Hc1.
  split; [|rewrite lookup_insert_eq; by eexists].
  unfold self_tb_update, self_tb, bind, get. cbn [self].
  destruct (after_eval_counter (self w1) acc) as (_ & _ & ->). rewrite Ht1. reflexivity.
Qed.

(** X10. Tensorboard is not optional at an evaluation. The attribute [tb]
    exists only when [USE_TB] is set, and the evaluation block updates it
    unconditionally: without it, an evaluation whose [validate] returns
    writes the "last" checkpoint and then raises [AttributeError], and no
    training iteration on the evaluation cadence returns. *)
Theorem eval_without_tensorboard (l : Locals R) (batch_lb : BatchLb)
    (batch_ulb : BatchUlb) (log : gmap string R) (w : World) :
  tb (self w) = None ->
  NUM_EVAL_ITERS (cfg (self w)) <> 0 ->
  ((curr_iter (self w) + 1) mod NUM_EVAL_ITERS (cfg (self w)) =? 0) = true ->
  is_ok (snd (train_step l batch_lb batch_ulb w)) = false /\
  (forall w1 vd, validate w = (w1, Ok vd) ->
     snd (eval_block log w) = Raise (AttributeError "tb") /\
     is_Some (fs (fst (eval_block log w)) !! last_path (cfg (self w)))).
Proof.
  intros Htb HN Hhit.
  split; [|intros w1 vd Ev; exact (eval_block_no_tb log w w1 vd Htb HN Hhit Ev)].
  pose (I := fun w' : World =>
              tb (self w') = None /\ NUM_EVAL_ITERS (cfg (self w')) <> 0 /\
              ((curr_iter (self w') + 1) mod NUM_EVAL_ITERS (cfg (self w')) =? 0) = true).
  assert (HI : forall {A} (m : M A), keeps same_counter m -> keeps same_tb m ->
                 forall w', I w' -> I (fst (m w'))).
  { intros A m Hc Ht w' (H1 & H2 & H3). destruct (Hc w') as [Kc Ki].
    specialize (Ht w'). unfold same_tb in Ht. unfold I. rewrite Kc, Ki, Ht. done. }
  assert (Hw : I w) by done. clear Htb HN Hhit. revert w Hw.
  destruct tb_updates as (T1 & T2 & T3).
  unfold train_step.
  apply (never_bind I);
    [apply HI; [apply counter_forward_losses | apply tb_forward_losses] | intros ll].
  apply (never_bind I);
    [apply HI; [apply counter_backward_and_step | apply tb_backward_and_step] | intros _].
  apply (never_bind I); [apply HI; [apply counter_sched_step | exact T1] | intros _].
  apply (never_bind I); [apply HI; [apply counter_net_update | exact T2] | intros _].
  apply (never_bind I); [apply HI; [apply counter_zero_grad | exact T3] | intros _].
  apply (never_bind I);
    [apply HI; [apply counter_make_log_dict | apply tb_make_log_dict] | intros log1].
  intros w (Htb & HN & Hhit). unfold bind.
  destruct (validate w) as [w1 [vd|e]] eqn:Ev.
  - destruct (eval_block_no_tb log1 w w1 vd Htb HN Hhit Ev) as [Hr _].
    destruct (eval_block log1 w) as [w2 [x|e]]; [discriminate | reflexivity].
  - by rewrite (eval_block_validate_raises _ _ _ _ HN Hhit Ev).
Qed.

End LoggerOfIteration.

Section CheckpointRuns.

Lemma best_checkpoint_kept_witness :
  exists acc,
    best_test_acc (self (fst (eval_block ∅ eval_world)))
    = (if s_ltb (best_test_acc (self eval_world)) acc
       then acc else best_test_acc (self eval_world)) /\
    fs (fst (eval_block ∅ eval_world)) !! last_path (cfg (self eval_world))
    = Some (save_dict (after_eval (self (fst (validate eval_world))) acc)).
Proof.
  assert (HN : NUM_EVAL_ITERS (cfg (self eval_world)) <> 0) by (vm_compute; discriminate).
  assert (Hhit : ((curr_iter (self eval_world) + 1)
                  mod NUM_EVAL_ITERS (cfg (self eval_world)) =? 0) = true)
    by (vm_compute; reflexivity).
  assert (Hv : is_ok (snd (validate eval_world)) = true) by (vm_compute; reflexivity).
  destruct (validate_accuracy _ _ _ (ok_eta ∅ (validate eval_world) Hv)) as [acc Hacc].
  exists acc.
  destruct (best_checkpoint_kept ∅ eval_world _ _ acc HN Hhit
              (ok_eta ∅ (validate eval_world) Hv) Hacc)
    as (_ & Hlast & _ & _ & Hbest & _).
  split; [exact Hbest | exact Hlast].
Defined.

Lemma checkpoint_counter_lags_witness :
  let r := train_step (initial_locals (self eval_world)) (toy_batch_lb grads_weights)
                      (toy_batch_ulb grads_weights) eval_world in
  curr_iter (self eval_world) = 1 /\ curr_iter (self (fst r)) = 2 /\
  exists ckpt, fs (fst r) !! last_path (cfg (self eval_world)) = Some ckpt /\
               ckpt_get ckpt "curr_iter" = Ok (VInt 1).
Proof.
  cbv zeta.
  assert (HN : NUM_EVAL_ITERS (cfg (self eval_world)) <> 0) by (vm_compute; discriminate).
  assert (Hhit : ((curr_iter (self eval_world) + 1)
                  mod NUM_EVAL_ITERS (cfg (self eval_world)) =? 0) = true)
    by (vm_compute; reflexivity).
  assert (Hok : is_ok (snd (train_step (initial_locals (self eval_world))
                              (toy_batch_lb grads_weights) (toy_batch_ulb grads_weights)
                              eval_world)) = true)
    by (vm_compute; reflexivity).
  destruct (checkpoint_counter_lags _ _ _ _ _ _ HN Hhit
              (ok_eta (initial_locals (self eval_world)) _ Hok)) as [Hi Hc].
  split; [reflexivity|]. split; [exact Hi | exact Hc].
Defined.

Lemma eval_without_tensorboard_witness :
  USE_TB (cfg (self no_tb_world)) = false /\
  snd (eval_block ∅ no_tb_world) = Raise (AttributeError "tb") /\
  is_Some (fs (fst (eval_block ∅ no_tb_world)) !! last_path (cfg (self no_tb_world))) /\
  is_ok (snd (train_step (initial_locals (self no_tb_world)) (toy_batch_lb grads_weights)
                         (toy_batch_ulb grads_weights) no_tb_world)) = false.
Proof.
  assert (HN : NUM_EVAL_ITERS (cfg (self no_tb_world)) <> 0) by (vm_compute; discriminate).
  assert (Hhit : ((curr_iter (self no_tb_world) + 1)
                  mod NUM_EVAL_ITERS (cfg (self no_tb_world)) =? 0) = true)
    by (vm_compute; reflexivity).
  assert (Hv : is_ok (snd (validate no_tb_world)) = true) by (vm_compute; reflexivity).
  destruct (eval_without_tensorboard (initial_locals (self no_tb_world))
              (toy_batch_lb grads_weights) (toy_batch_ulb grads_weights) ∅ no_tb_world
              eq_refl HN Hhit) as [Hno Hev].
  destruct (Hev _ _ (ok_eta ∅ (validate no_tb_world) Hv)) as [Hr Hf].
  split; [reflexivity|]. split; [exact Hr|]. split; [exact Hf | exact Hno].
Defined.

End CheckpointRuns.


(** ** Loading a checkpoint *)

Section LoadErrors.
Context {R : Type} {SR : Scalar R} {CR : Collab R}.

Lemma ckpt_get_delete_ne (d : gmap string Value) k k' :
  k <> k' -> ckpt_get (delete k d) k' = ckpt_get d k'.
Proof. intros Hne. unfold ckpt_get. by rewrite lookup_delete_ne. Qed.

Lemma ckpt_get_delete_eq (d : gmap string Value) k :
  ckpt_get (delete k d) k = Raise (KeyError k).
Proof. unfold ckpt_get. by rewrite lookup_delete_eq. Qed.

Lemma load_missing_file path (w : World) :
  fs w !! path = None ->
  __load__model__ path w
  = ({| self := self w; fs := fs w; calls := calls w ++ [CLoad path] |},
     Raise (FileNotFoundError path)).
Proof.
  intros Hnone. unfold __load__model__. apply bind_raise.
  unfold torch_load. by rewrite Hnone.
Qed.

(** One entry of the checkpoint of [t] without [key]: either it is the
    missing one and the read raises, or it is read and the run goes on. *)
Ltac load_entry Er key k saved finish :=
  destruct (decide (key = k)) as [->|?];
  [ erewrite bind_raise in Er
      by (unfold lift; rewrite ckpt_get_delete_eq; reflexivity);
    finish
  | erewrite bind_ok in Er
      by (unfold lift; rewrite ckpt_get_delete_ne by done; rewrite saved; reflexivity) ].

(** X11. Loading is not atomic. A path that is not on disk raises
    [FileNotFoundError] and leaves the trainer as it was. A checkpoint
    that lacks one of the ten entries raises [KeyError] for it when the
    entry is read, and what was read before stays loaded: when the
    missing entry is one of the six counters and statistics, the model,
    the EMA wrapper, the optimizer and the scheduler already hold the
    state of the checkpoint, while the best accuracy, assigned last, is
    still the old one. *)
Theorem load_not_atomic (t t' : Trainer) (path key : string)
    (files : gmap string (gmap string Value)) (log : list Call) :
  state_dicts_accepted t t' = true ->
  key ∈ ["model_state_dict"; "ema_state_dict"; "optimizer_state_dict";
         "scheduler_state_dict"; "curr_iter"; "tau_t"; "p_t"; "label_hist";
         "best_test_iter"; "best_test_acc"] ->
  let missing := __load__model__ path {| self := t'; fs := delete path files; calls := log |} in
  let r := __load__model__ path
             {| self := t'; fs := <[path := delete key (save_dict t)]> files;
                calls := log |} in
  snd missing = Raise (FileNotFoundError path) /\ self (fst missing) = t' /\
  snd r = Raise (KeyError key) /\
  best_test_acc (self (fst r)) = best_test_acc t' /\
  (key ∈ ["curr_iter"; "tau_t"; "p_t"; "label_hist"; "best_test_iter"; "best_test_acc"] ->
   model_load_state_dict (model_state_dict (parameters t) (buffers t))
                         (parameters t') (buffers t')
   = Ok (parameters (self (fst r)), buffers (self (fst r))) /\
   ema_load_state_dict (ema_state_dict (net t)) (net t') = Ok (net (self (fst r))) /\
   optimizer_load_state_dict (optimizer_state_dict (optim t)) (optim t')
   = Ok (optim (self (fst r))) /\
   scheduler_load_state_dict (scheduler_state_dict (sched t)) (sched t')
   = Ok (sched (self (fst r)))).
Proof.
  intros Hacc Hkey missing r. unfold state_dicts_accepted in Hacc.
  apply andb_prop in Hacc as [Hacc Hs]. apply andb_prop in Hacc as [Hacc Ho].
  apply andb_prop in Hacc as [Hm He].
  apply is_ok_true in Hm as [pb Hm]. apply is_ok_true in He as [e He].
  apply is_ok_true in Ho as [o Ho]. apply is_ok_true in Hs as [s Hs].
  split; [|split].
  { subst missing. rewrite load_missing_file by apply lookup_delete_eq. reflexivity. }
  { subst missing. rewrite load_missing_file by apply lookup_delete_eq. reflexivity. }
  assert (exists w1, __load__model__ path
             {| self := t'; fs := <[path := delete key (save_dict t)]> files;
                calls := log |} = (w1, Raise (KeyError key)) /\
           best_test_acc (self w1) = best_test_acc t' /\
           (key ∈ ["curr_iter"; "tau_t"; "p_t"; "label_hist"; "best_test_iter";
                   "best_test_acc"] ->
            parameters (self w1) = fst pb /\ buffers (self w1) = snd pb /\
            net (self w1) = e /\ optim (self w1) = o /\ sched (self w1) = s))
    as (w1 & E & Hb & Hl).
  { remember (__load__model__ path
                {| self := t'; fs := <[path := delete key (save_dict t)]> files;
                   calls := log |}) as r0 eqn:Er.
    unfold __load__model__ in Er.
    erewrite bind_ok in Er
      by (unfold torch_load; cbn [fs self calls]; rewrite lookup_insert_eq; reflexivity).
    assert (Hstate : forall k : string,
              k ∈ ["model_state_dict"; "ema_state_dict"; "optimizer_state_dict";
                   "scheduler_state_dict"] ->
              k ∈ ["curr_iter"; "tau_t"; "p_t"; "label_hist"; "best_test_iter";
                   "best_test_acc"] -> False).
    { intros k H1 H2.
      repeat (apply elem_of_cons in H1 as [->|H1]); [..|by apply elem_of_nil in H1];
        repeat (apply elem_of_cons in H2 as [H2|H2]; [discriminate H2|]);
        by apply elem_of_nil in H2. }
    load_entry Er key "model_state_dict" saved_model
      ltac:(subst r0; eexists; split; [reflexivity|]; split; [reflexivity|];
            intros Hk; exfalso; eapply Hstate; [|exact Hk]; repeat constructor).
    erewrite bind_ok in Er by reflexivity.
    erewrite bind_ok in Er by (unfold lift; cbn [self parameters buffers]; rewrite Hm; reflexivity).
    erewrite bind_ok in Er by reflexivity.
    load_entry Er key "ema_state_dict" saved_ema
      ltac:(subst r0; eexists; split; [reflexivity|]; split; [reflexivity|];
            intros Hk; exfalso; eapply Hstate; [|exact Hk]; repeat constructor).
    erewrite bind_ok in Er by reflexivity.
    erewrite bind_ok in Er by (unfold lift; cbn; rewrite He; reflexivity).
    erewrite bind_ok in Er by reflexivity.
    load_entry Er key "optimizer_state_dict" saved_optimizer
      ltac:(subst r0; eexists; split; [reflexivity|]; split; [reflexivity|];
            intros Hk; exfalso; eapply Hstate; [|exact Hk]; repeat constructor).
    erewrite bind_ok in Er by reflexivity.
    erewrite bind_ok in Er by (unfold lift; cbn; rewrite Ho; reflexivity).
    erewrite bind_ok in Er by reflexivity.
    load_entry Er key "scheduler_state_dict" saved_scheduler
      ltac:(subst r0; eexists; split; [reflexivity|]; split; [reflexivity|];
            intros Hk; exfalso; eapply Hstate; [|exact Hk]; repeat constructor).
    erewrite bind_ok in Er by reflexivity.
    erewrite bind_ok in Er by (unfold lift; cbn; rewrite Hs; reflexivity).
    erewrite bind_ok in Er by reflexivity.
    load_entry Er key "curr_iter" saved_curr_iter
      ltac:(subst r0; eexists; split; [reflexivity|]; by repeat split).
    erewrite bind_ok in Er by reflexivity.
    load_entry Er key "tau_t" saved_tau_t
      ltac:(subst r0; eexists; split; [reflexivity|]; by repeat split).
    erewrite bind_ok in Er by reflexivity.
    load_entry Er key "p_t" saved_p_t
      ltac:(subst r0; eexists; split; [reflexivity|]; by repeat split).
    erewrite bind_ok in Er by reflexivity.
    load_entry Er key "label_hist" saved_label_hist
      ltac:(subst r0; eexists; split; [reflexivity|]; by repeat split).
    erewrite bind_ok in Er by reflexivity.
    load_entry Er key "best_test_iter" saved_best_test_iter
      ltac:(subst r0; eexists; split; [reflexivity|]; by repeat split).
    erewrite bind_ok in Er by reflexivity.
    load_entry Er key "best_test_acc" saved_best_test_acc
      ltac:(subst r0; eexists; split; [reflexivity|]; by repeat split).
    exfalso. repeat (apply elem_of_cons in Hkey as [?|Hkey]; [done|]).
    by apply elem_of_nil in Hkey. }
  subst r. rewrite E. cbn [fst snd]. split; [reflexivity|]. split; [exact Hb|].
  intros Hk. destruct (Hl Hk) as (-> & -> & -> & -> & ->).
  rewrite Hm, He, Ho, Hs. by destruct pb.
Qed.

End LoadErrors.

Section LoadErrorsRun.

(** A checkpoint of iteration 7 without its [tau_t], loaded by a fresh
    trainer. *)
Abbreviation loading_cfg := (toy_cfg (SR := float_scalar) true false false 0 3 5).
Abbreviation loading_fresh :=
  (initial_trainer (CR := toy grads_weights) loading_cfg (toy_dm grads_weights 3)).
Abbreviation loading_saved := (set_curr_iter (CR := toy grads_weights) 7 loading_fresh).

Lemma load_not_atomic_witness :
  let r := __load__model__ "ckpt.pth"
             {| self := loading_fresh;
                fs := <["ckpt.pth" := delete "tau_t" (save_dict loading_saved)]> ∅;
                calls := [] |} in
  snd r = Raise (KeyError "tau_t") /\
  best_test_acc (self (fst r)) = best_test_acc loading_fresh.
Proof.
  cbv zeta.
  destruct (load_not_atomic loading_saved loading_fresh "ckpt.pth" "tau_t" ∅ [])
    as (_ & _ & Hr & Hb & _).
  - vm_compute. reflexivity.
  - repeat constructor.
  - split; [exact Hr | exact Hb].
Defined.

End LoadErrorsRun.


(** ** The arithmetic of an iteration *)

Section SplitAndRestore.
Context {R : Type} {SR : Scalar R}.

Lemma div2_double_succ n : Nat.div2 (n + n + 1) = n.
Proof.
  induction n as [|n IH]; [reflexivity|].
  replace (S n + S n + 1)%nat with (S (S (n + n + 1))) by lia. cbn. by rewrite IH.
Qed.

(** X12. The split of the logits inverts the concatenation of the
    batches. The images are concatenated as labeled, weak, strong; with one
    row of logits per image and as many weak as strong images (the
    assertion of the iteration), the first [num_lb] rows are those of the
    labeled images and [chunk(2)] of the rest gives the rows of the weak
    images and the rows of the strong images, whatever the batch sizes,
    empty batches included. *)
Theorem logits_split (logits_lb logits_ulb_w logits_ulb_s : list (list R)) :
  length logits_ulb_w = length logits_ulb_s ->
  let logits := logits_lb ++ logits_ulb_w ++ logits_ulb_s in
  let num_lb := length logits_lb in
  firstn num_lb logits = logits_lb /\
  chunk2 (skipn num_lb logits) = Ok (logits_ulb_w, logits_ulb_s).
Proof.
  intros Hlen. cbv zeta.
  rewrite take_app_length, drop_app_length. split; [reflexivity|].
  unfold chunk2. rewrite length_app, <- Hlen, div2_double_succ.
  destruct (Nat.eqb_spec (length logits_ulb_w + length logits_ulb_w) 1) as [H1|_]; [lia|].
  by rewrite take_app_length, drop_app_length.
Qed.

(** X13. What the restoration loop leaves, for lists with one entry per
    parameter: a parameter without a perturbation keeps its value and its
    gradient; a parameter with the perturbation [v] is its value minus
    [v], entry by entry, and its gradient is the gradient of the backward
    pass plus the first-pass gradient of the labeled loss, entry by
    entry. *)
Theorem restore_adds_first_gradient (ps : list (list R)) (gs eps grad_w : list (option (list R)))
    (ps' : list (list R)) (gs' : list (option (list R))) :
  length gs = length ps -> length eps = length ps -> length grad_w = length ps ->
  restore_params ps gs eps grad_w = (ps', gs', None) ->
  length ps' = length ps /\ length gs' = length ps /\
  forall i,
    (eps !! i = Some None -> ps' !! i = ps !! i /\ gs' !! i = gs !! i) /\
    (forall v, eps !! i = Some (Some v) ->
       exists p a g,
         ps !! i = Some p /\ gs !! i = Some (Some a) /\ grad_w !! i = Some (Some g) /\
         length p = length v /\ length a = length g /\
         ps' !! i = Some (zip_with s_sub p v) /\
         gs' !! i = Some (Some (zip_with s_add a g))).
Proof.
  revert gs eps grad_w ps' gs'.
  induction ps as [|p ps IH]; intros gs eps gw ps' gs' Hg He Hw Hr.
  - destruct gs, eps, gw; try discriminate. cbn in Hr. inversion Hr; subst.
    split; [done|]. split; [done|]. intros i. split; [done|]. intros v Hv. done.
  - destruct gs as [|pg gs], eps as [|v0 eps], gw as [|g0 gw]; try discriminate.
    cbn in Hg, He, Hw. injection Hg as Hg. injection He as He. injection Hw as Hw.
    cbn [restore_params tail] in Hr.
    destruct v0 as [v0|].
    + destruct (vsub p v0) as [p'|e] eqn:Es; [|discriminate].
      destruct (grad_iadd pg g0) as [pg'|e] eqn:Ea; [|discriminate].
      destruct (restore_params ps gs eps gw) as [[r1 r2] o] eqn:Er.
      cbn in Hr. inversion Hr; subst; clear Hr.
      destruct (IH _ _ _ _ _ Hg He Hw Er) as (L1 & L2 & Hi).
      split; [cbn; by rewrite L1|]. split; [cbn; by rewrite L2|].
      intros [|i]; [|apply Hi].
      split; [discriminate|]. intros v [= <-]. cbn.
      unfold vsub in Es. destruct (Nat.eqb_spec (length p) (length v0)) as [Hl|]; [|discriminate].
      injection Es as <-.
      destruct pg as [a|], g0 as [g|]; try discriminate. cbn in Ea.
      unfold vadd in Ea. destruct (Nat.eqb_spec (length a) (length g)) as [Hl'|]; [|discriminate].
      injection Ea as <-. by eexists _, _, _.
    + destruct (restore_params ps gs eps gw) as [[r1 r2] o] eqn:Er.
      cbn in Hr. inversion Hr; subst; clear Hr.
      destruct (IH _ _ _ _ _ Hg He Hw Er) as (L1 & L2 & Hi).
      split; [cbn; by rewrite L1|]. split; [cbn; by rewrite L2|].
      intros [|i]; [|apply Hi].
      split; [done|]. intros v [=].
Qed.

End SplitAndRestore.

Lemma logits_split_witness :
  chunk2 (skipn 2 ([[1; 0]; [0; 1]] ++ [[2; 3]] ++ [[4; 5]]))%float
  = Ok ([[2; 3]], [[4; 5]])%float.
Proof.
  exact (proj2 (logits_split [[1; 0]; [0; 1]]%float [[2; 3]]%float [[4; 5]]%float eq_refl)).
Defined.

Lemma restore_adds_first_gradient_witness :
  let ps := [[1.5; 2]; [7; 7]]%float in
  let gs := [Some [10; 20]; Some [30; 40]]%float in
  let eps := [Some [0.5; 1]; None]%float in
  let grad_w := [Some [3; 4]; None]%float in
  exists ps' gs',
    restore_params ps gs eps grad_w = (ps', gs', None) /\
    ps' !! 0%nat = Some [1.5 - 0.5; 2 - 1]%float /\
    gs' !! 0%nat = Some (Some [10 + 3; 20 + 4]%float) /\
    ps' !! 1%nat = Some [7; 7]%float.
Proof.
  cbv zeta. eexists _, _. split; [reflexivity|].
  match goal with |- ?ps' !! _ = _ /\ ?gs' !! _ = _ /\ _ =>
    destruct (restore_adds_first_gradient
                [[1.5; 2]; [7; 7]]%float [Some [10; 20]; Some [30; 40]]%float
                [Some [0.5; 1]; None]%float [Some [3; 4]; None]%float ps' gs'
                eq_refl eq_refl eq_refl eq_refl) as (_ & _ & Hi)
  end.
  destruct (Hi 0%nat) as [_ H0]. destruct (H0 _ eq_refl) as (p & a & g & Hp & Ha & Hg & _ & _ & Hp' & Hg').
  injection Hp as <-. injection Ha as <-. injection Hg as <-.
  destruct (Hi 1%nat) as [H1 _]. destruct (H1 eq_refl) as [Hp1 _].
  split; [exact Hp'|]. split; [exact Hg' | exact Hp1].
Defined.

Section ExactSums.
Variable sqrt : Qc -> Qc.
#[local] Hint Extern 0 (Scalar Qc) => exact (exact_scalar sqrt) : typeclass_instances.

Lemma exact_fold_acc (l : list Qc) (a : Qc) :
  fold_left Qcplus l a = (a + fold_left Qcplus l 0)%Qc.
Proof.
  revert a. induction l as [|x l IH]; intros a; cbn.
  - ring.
  - rewrite IH, (IH (0 + x)%Qc). ring.
Qed.

Lemma exact_tsum_nil : tsum (SR := exact_scalar sqrt) [] = 0%Qc.
Proof. apply Qc_is_canon. reflexivity. Qed.

Lemma exact_tsum_cons (x : Qc) (l : list Qc) :
  tsum (SR := exact_scalar sqrt) (x :: l) = (x + tsum (SR := exact_scalar sqrt) l)%Qc.
Proof.
  unfold tsum. cbn [fold_left]. cbn [s_add s_of_Z exact_scalar].
  change (Q2Qc (inject_Z 0)) with 0%Qc.
  rewrite exact_fold_acc. ring.
Qed.

Lemma exact_tsum_scaled_squares (c : Qc) (l : list Qc) :
  tsum (SR := exact_scalar sqrt) (map (fun x => (x * c * (x * c))%Qc) l)
  = (c * c * tsum (SR := exact_scalar sqrt) (map (fun x => (x * x)%Qc) l))%Qc.
Proof.
  induction l as [|x l IH]; cbn [map].
  - rewrite exact_tsum_nil. ring.
  - rewrite !exact_tsum_cons, IH. ring.
Qed.

Lemma exact_tsum_div (c : Qc) (l : list Qc) :
  tsum (SR := exact_scalar sqrt) (map (fun x => (x / c)%Qc) l)
  = (tsum (SR := exact_scalar sqrt) l / c)%Qc.
Proof.
  induction l as [|x l IH]; cbn [map].
  - rewrite exact_tsum_nil. unfold Qcdiv. ring.
  - rewrite !exact_tsum_cons, IH. unfold Qcdiv. ring.
Qed.

Lemma exact_of_nat_add (a b : nat) :
  s_of_nat (SR := exact_scalar sqrt) (a + b)
  = (s_of_nat (SR := exact_scalar sqrt) a + s_of_nat (SR := exact_scalar sqrt) b)%Qc.
Proof.
  induction a as [|a IH]; cbn [Nat.add].
  - rewrite exact_of_nat_0. ring.
  - rewrite !exact_of_nat_S, IH. ring.
Qed.

Lemma exact_tsum_of_nat (l : list nat) :
  tsum (SR := exact_scalar sqrt) (map (s_of_nat (SR := exact_scalar sqrt)) l)
  = s_of_nat (SR := exact_scalar sqrt) (list_sum l).
Proof.
  induction l as [|x l IH]; cbn [map].
  - rewrite exact_tsum_nil. symmetry. apply exact_of_nat_0.
  - change (list_sum (x :: l)) with (x + list_sum l)%nat.
    rewrite exact_tsum_cons, IH, exact_of_nat_add. reflexivity.
Qed.

End ExactSums.

Section Histogram.

Lemma list_sum_indicator (x n : nat) :
  (x < n)%nat ->
  list_sum (map (fun k => if Nat.eq_dec x k then 1 else 0)%nat (seq 0 n)) = 1%nat.
Proof.
  induction n as [|n IH]; intros Hx; [lia|].
  rewrite seq_S, map_app, list_sum_app. cbn [map list_sum Nat.add].
  destruct (Nat.eq_dec x n) as [->|Hne].
  - assert (H0 : list_sum (map (fun k => if Nat.eq_dec n k then 1 else 0)%nat (seq 0 n)) = 0%nat).
    { clear. assert (H : forall m, (m <= n)%nat ->
                list_sum (map (fun k => if Nat.eq_dec n k then 1 else 0)%nat (seq 0 m)) = 0%nat).
      { induction m as [|m IHm]; intros Hm; [reflexivity|].
        rewrite seq_S, map_app, list_sum_app, IHm by lia. cbn.
        destruct (Nat.eq_dec n m); [lia | reflexivity]. }
      by apply H. }
    rewrite H0. reflexivity.
  - rewrite IH by lia. reflexivity.
Qed.

Lemma list_sum_count_occ (xs : list nat) (n : nat) :
  Forall (fun x => (x < n)%nat) xs ->
  list_sum (map (fun k => count_occ Nat.eq_dec xs k) (seq 0 n)) = length xs.
Proof.
  induction 1 as [|x xs Hx _ IH]; cbn [length].
  - induction (seq 0 n) as [|k l IHl]; [reflexivity | exact IHl].
  - assert (Hsplit : forall l,
              list_sum (map (fun k => count_occ Nat.eq_dec (x :: xs) k) l)
              = (list_sum (map (fun k => if Nat.eq_dec x k then 1 else 0) l)
                 + list_sum (map (fun k => count_occ Nat.eq_dec xs k) l))%nat).
    { induction l as [|k l IHl]; [reflexivity|].
      cbn [map]. change (list_sum (?a :: ?b)) with (a + list_sum b)%nat.
      rewrite IHl. cbn [count_occ]. destruct (Nat.eq_dec x k); lia. }
    rewrite Hsplit, IH, (list_sum_indicator x n Hx). reflexivity.
Qed.

(** [bincount] counts every element once. *)
Lemma bincount_sum (xs : list nat) (minlength : nat) :
  list_sum (bincount xs minlength) = length xs.
Proof.
  unfold bincount. apply list_sum_count_occ.
  destruct xs as [|x xs]; [constructor|].
  apply Forall_forall. intros y Hy.
  assert (Hmax : (y <= list_max (x :: xs))%nat).
  { pose proof (proj1 (list_max_le (x :: xs) (list_max (x :: xs))) (Nat.le_refl _)) as F.
    rewrite List.Forall_forall in F. apply F. by apply list_elem_of_In. }
  lia.
Qed.

End Histogram.

Section ExactStatistics.
Variable sqrt : Qc -> Qc.
#[local] Hint Extern 0 (Scalar Qc) => exact (exact_scalar sqrt) : typeclass_instances.
Context {CR : Collab Qc}.

Lemma omap_scaled {A B} (f : A -> B) (l : list (option A)) :
  omap id (map (fun g => match g with Some g => Some (f g) | None => None end) l)
  = map f (omap id l).
Proof. induction l as [|[a|] l IH]; cbn; by rewrite ?IH. Qed.

(** X14. The perturbation has norm [rho]. In exact arithmetic, when the
    gradients of the labeled loss are not all zero (their sum of squares
    [s] is not 0, and [sqrt s] squares to [s]), the perturbation stored in
    [eps] has the sum of squares [rho * rho] over all its entries: it is
    the gradient, rescaled to the length [rho]. *)
Theorem perturbation_norm_is_rho (g1 : Graph) (label_lb : list nat) (w : World) :
  let gw := autograd_grad g1 label_lb in
  let s := tsum (map (fun x => x * x)%S (concat (omap id gw))) in
  s <> 0%Qc -> (sqrt s * sqrt s)%Qc = s ->
  let r := sharp_eps g1 label_lb w in
  snd r = Ok tt /\
  exists e, eps (self (fst r)) = Some e /\
    tsum (map (fun x => x * x)%S (concat (omap id e)))
    = (RHO (cfg (self w)) * RHO (cfg (self w)))%Qc.
Proof.
  intros gw s Hs Hsq r. subst r.
  assert (E : exists t ts, omap id gw = t :: ts).
  { pose proof Hs as Hs'. unfold s in Hs'.
    destruct (omap id gw) as [|t ts]; [|by eauto].
    exfalso. apply Hs'. apply exact_tsum_nil. }
  destruct E as (t & ts & E).
  assert (Hn : sqrt s <> 0%Qc).
  { intros Hz. apply Hs. rewrite <- Hsq, Hz. ring. }
  unfold sharp_eps, self_grad_w, bind, modify, call, get, lift, raise, ret, norm.
  cbn [fst snd self fs calls grad_w eps cfg set_grad_w set_eps]. fold gw.
  rewrite E. cbn [cat rbind fst snd self eps set_eps]. split; [reflexivity|].
  eexists. split; [reflexivity|].
  rewrite omap_scaled. unfold vec. rewrite E. unfold mul_scalar.
  rewrite <- (concat_map (fun x => (x * _)%S)), map_map.
  cbn [s_mul s_div exact_scalar].
  rewrite exact_tsum_scaled_squares. unfold norm2. cbn [s_sqrt s_mul exact_scalar].
  rewrite <- E.
  change (tsum (map (fun x : Qc => (x * x)%Qc) (concat (omap id gw)))) with s.
  rewrite <- Hsq at 3. field. exact Hn.
Qed.

(** X15. The statistics after a warmup iteration. A statistics pass that
    returns has passed the online model, in evaluation mode and with the
    parameters it found, over the test batches in loader order, and has
    left the parameters as they were and the model in evaluation mode, on
    the buffers of the last pass. When the softmax rows [probs] of the
    logits of these passes are at least one, [tau_t] is the mean of their
    row maxima, [p_t] the mean of the rows and [label_hist] the histogram
    of their predicted classes; in exact arithmetic the histogram is
    normalised: its entries add up to 1. *)
Theorem warmup_statistics (w w' : World) :
  warmup_stats w = (w', Ok tt) ->
  let t := self w in
  let r := forward_all (model_call (parameters t)) (model_eval (buffers t))
                       (test_dl (dm t)) in
  let probs := concat (map (map softmax) (fst r)) in
  parameters (self w') = parameters t /\
  buffers (self w') = snd r /\
  (probs <> [] ->
   tau_t (self w') = mean (map (fun row => fst (row_max row)) probs) /\
   p_t (self w') = mean_dim0 probs /\
   label_hist (self w') = class_histogram probs /\
   tsum (label_hist (self w')) = 1%Qc).
Proof.
  intros E.
  destruct (warmup_stats_run w) as (w1 & pbs & _ & _ & _ & (Hp & Hpbs & Hb) & _ & _ & _ & E1).
  cbv zeta in *.
  rewrite E1 in E. unfold cat in E.
  destruct pbs as [|pb pbs'] eqn:Epbs; [discriminate|]. rewrite <- Epbs in *. clear Epbs pb pbs'.
  inversion E; subst w'; clear E E1.
  cbn [self parameters buffers tau_t p_t label_hist set_label_hist set_p_t set_tau_t].
  split; [exact Hp|]. split; [exact Hb|]. rewrite <- Hpbs.
  intros Hne. repeat (split; [reflexivity|]).
  unfold class_histogram, div_scalar. cbn [s_div exact_scalar].
  rewrite exact_tsum_div, exact_tsum_of_nat, bincount_sum, length_map.
  assert (Hn : s_of_nat (SR := exact_scalar sqrt) (length (concat pbs)) <> 0%Qc).
  { apply exact_of_nat_nonzero. destruct (concat pbs); [done | cbn; lia]. }
  field. exact Hn.
Qed.

End ExactStatistics.

Section ExactStatisticsRun.
#[local] Hint Extern 0 (Scalar Qc) => exact (exact_scalar Qc_sqrt) : typeclass_instances.

Lemma perturbation_norm_is_rho_witness :
  let r := sharp_eps (CR := toy grads_weights) ([] : list Qc) [] exact_world in
  snd r = Ok tt /\
  exists e, eps (self (fst r)) = Some e /\
    tsum (map (fun x => x * x)%S (concat (omap id e)))
    = (RHO (cfg (self exact_world)) * RHO (cfg (self exact_world)))%Qc.
Proof.
  apply (perturbation_norm_is_rho Qc_sqrt (CR := toy grads_weights) ([] : list Qc) []
           exact_world).
  - intros Hz. apply (f_equal this) in Hz. vm_compute in Hz. discriminate.
  - apply Qc_is_canon. vm_compute. reflexivity.
Defined.

Abbreviation stats_passes :=
  (forward_all (model_call (Collab := toy grads_weights) (parameters (self exact_world)))
               (model_eval (Collab := toy grads_weights) (buffers (self exact_world)))
               (test_dl (dm (self exact_world)))).
Abbreviation stats_probs :=
  (concat (map (map (softmax (Collab := toy grads_weights))) (fst stats_passes))).

Lemma warmup_statistics_witness :
  is_ok (snd (warmup_stats exact_world)) = true /\
  stats_probs <> [] /\
  tau_t (self (fst (warmup_stats exact_world)))
  = mean (map (fun row => fst (row_max (Collab := toy grads_weights) row)) stats_probs) /\
  p_t (self (fst (warmup_stats exact_world))) = mean_dim0 stats_probs /\
  label_hist (self (fst (warmup_stats exact_world)))
  = class_histogram (CR := toy grads_weights) stats_probs /\
  tsum (label_hist (self (fst (warmup_stats exact_world)))) = 1%Qc.
Proof.
  assert (H : is_ok (snd (warmup_stats exact_world)) = true) by (vm_compute; reflexivity).
  assert (Hne : stats_probs <> []) by (vm_compute; discriminate).
  destruct (warmup_statistics Qc_sqrt (CR := toy grads_weights) exact_world
              (fst (warmup_stats exact_world)) (ok_eta_unit _ H))
    as (_ & _ & Hstat).
  split; [exact H|]. split; [exact Hne|]. exact (Hstat Hne).
Defined.

End ExactStatisticsRun.


(** ** The files on disk *)

Section Disk.
Context {R : Type} {SR : Scalar R} {CR : Collab R}.

Lemma disk_bind {A B} (m : M A) (k : A -> M B) :
  writes_nothing m -> (forall a, writes_nothing (k a)) -> writes_nothing (bind m k).
Proof.
  intros Hm Hk w. specialize (Hm w). unfold bind.
  destruct (m w) as [w1 [a|e]]; cbn [fst] in *; [|done].
  by rewrite Hk.
Qed.

Lemma disk_ret {A} (a : A) : writes_nothing (ret a).
Proof. by intros w. Qed.

Lemma disk_raise {A} e : writes_nothing (raise (A := A) e).
Proof. by intros w. Qed.

Lemma disk_lift {A} (r : result A) : writes_nothing (lift r).
Proof. by intros w. Qed.

Lemma disk_get : writes_nothing get.
Proof. by intros w. Qed.

Lemma disk_call c : writes_nothing (call c).
Proof. by intros w. Qed.

Lemma disk_assert b : writes_nothing (assert b).
Proof. by destruct b; intros w. Qed.

Lemma disk_modify f : writes_nothing (modify f).
Proof. by intros w. Qed.

Lemma disk_act {A} (f : Trainer -> Trainer * A) : writes_nothing (act f).
Proof. by intros w. Qed.

Lemma disk_when b m : writes_nothing m -> writes_nothing (when b m).
Proof. destruct b; [done|]. intros _. apply disk_ret. Qed.

Lemma disk_torch_load path : writes_nothing (torch_load path).
Proof. by intros w. Qed.

Lemma disk_validate : writes_nothing validate.
Proof.
  intros w.
  destruct (validate_run w) as (w' & a & outs & _ & _ & Hf & _ & _ & _ & _ & _ & _ & E).
  rewrite E. by destruct (Nat.eqb (total_num a) 0).
Qed.

Lemma disk_warmup_stats : writes_nothing warmup_stats.
Proof.
  intros w.
  destruct (warmup_stats_run w) as (w1 & pbs & _ & _ & _ & _ & Hf & _ & _ & E).
  rewrite E. by destruct (cat pbs).
Qed.

End Disk.

Create HintDb disk discriminated.

#[global] Hint Resolve disk_validate disk_warmup_stats : disk.

Ltac disk :=
  repeat first
    [ solve [auto with disk nocore]
    | apply disk_ret | apply disk_raise | apply disk_lift | apply disk_get
    | apply disk_call | apply disk_assert | apply disk_modify | apply disk_act
    | apply disk_torch_load
    | apply disk_when
    | apply disk_bind; [|intros ?]
    | match goal with
      | |- writes_nothing (match ?x with _ => _ end) => destruct x
      end ].

Section DiskOfSteps.
Context {R : Type} {SR : Scalar R} {CR : Collab R}.

Lemma disk_net_forward img : writes_nothing (net_forward img).
Proof. unfold net_forward. disk. Qed.

Lemma disk_load path : writes_nothing (__load__model__ path).
Proof. unfold __load__model__. disk. Qed.

Lemma disk_backward_and_step ls : writes_nothing (backward_and_step ls).
Proof.
  unfold backward_and_step, scaler_scale_backward, loss_backward, restore_model,
    self_scaler_step, self_scaler_update, self_optim_step, self_scaler, self_eps,
    self_grad_w.
  disk.
Qed.

End DiskOfSteps.

#[global] Hint Resolve disk_net_forward disk_load disk_backward_and_step : disk.

Section DiskOfRuns.
Context {R : Type} {SR : Scalar R} {CR : Collab R}.

Lemma disk_forward_losses l b1 b2 : writes_nothing (forward_losses l b1 b2).
Proof.
  unfold forward_losses, plain_losses, sharp_losses, sharp_eps, self_grad_w,
    perturb_model, self_eps.
  disk.
Qed.

Lemma disk_warmup_step b : writes_nothing (warmup_step b).
Proof.
  unfold warmup_step, scaler_scale_backward, loss_backward, self_scaler_step,
    self_scaler_update, self_optim_step, self_scaler.
  disk.
Qed.

Lemma disk_warmup_loop bs : writes_nothing (warmup_loop bs).
Proof.
  induction bs as [|b bs IH]; cbn [warmup_loop]; [disk|].
  apply disk_bind; [disk | intros t].
  destruct (_ <=? _); [disk|].
  apply disk_bind; [apply disk_warmup_step | intros _; exact IH].
Qed.

Lemma disk_warmup_train : writes_nothing warmup_train.
Proof. unfold warmup_train. pose proof disk_warmup_loop. disk. Qed.

Lemma disk_init_body : writes_nothing init_body.
Proof. unfold init_body. pose proof disk_warmup_train. disk. Qed.

(** A sequence ends in [J] from a world in [I] when its first action keeps
    [I] and the rest ends in [J]. *)
Lemma ends_bind {A B} (I J : World -> Prop) (m : M A) (k : A -> M B) :
  (forall w, I w -> I (fst (m w))) ->
  (forall w, I w -> J w) ->
  (forall a w, I w -> J (fst (k a w))) ->
  forall w, I w -> J (fst (bind m k w)).
Proof.
  intros Hm HJ Hk w Hw. specialize (Hm w Hw). unfold bind.
  destruct (m w) as [w1 [a|e]]; cbn [fst] in *; [by apply Hk | by apply HJ].
Qed.

Lemma eval_block_off log (w : World) :
  NUM_EVAL_ITERS (cfg (self w)) <> 0 ->
  ((curr_iter (self w) + 1) mod NUM_EVAL_ITERS (cfg (self w)) =? 0) = false ->
  eval_block log w = (w, Ok log).
Proof.
  intros HN Hoff. unfold eval_block.
  erewrite bind_ok by reflexivity.
  erewrite bind_ok
    by (unfold lift, py_mod; rewrite (proj2 (Z.eqb_neq _ _) HN); reflexivity).
  by rewrite Hoff.
Qed.

(** X16. Only an evaluation on the cadence writes to disk. Construction
    (with or without resuming and warmup), a warmup and a load leave the
    files as they are, whether they return or raise; so does a training
    iteration off the evaluation cadence. *)
Theorem disk_written_only_by_evaluation :
  (forall c d files, fs (fst (__init__ c d files)) = files) /\
  (forall w : World, fs (fst (warmup_train w)) = fs w) /\
  (forall path (w : World), fs (fst (__load__model__ path w)) = fs w) /\
  (forall (l : Locals R) batch_lb batch_ulb (w : World),
     NUM_EVAL_ITERS (cfg (self w)) <> 0 ->
     ((curr_iter (self w) + 1) mod NUM_EVAL_ITERS (cfg (self w)) =? 0) = false ->
     fs (fst (train_step l batch_lb batch_ulb w)) = fs w).
Proof.
  split; [|split; [|split]].
  - intros c d files. unfold __init__. by rewrite disk_init_body.
  - apply disk_warmup_train.
  - apply disk_load.
  - intros l b1 b2 w0 HN Hoff.
    pose (I := fun w : World => same_counter (self w0) (self w) /\ fs w = fs w0).
    pose (J := fun w : World => fs w = fs w0).
    assert (HI : forall {A} (m : M A), keeps same_counter m -> writes_nothing m ->
                   forall w, I w -> I (fst (m w))).
    { intros A m Hc Hd w [Hw1 Hw2]. split; [|by rewrite Hd].
      etransitivity; [exact Hw1 | apply Hc]. }
    assert (HJ : forall w, I w -> J w) by (by intros w [_ Hw]).
    assert (Hw0 : I w0) by (by split).
    enough (HG : forall w, I w -> J (fst (train_step l b1 b2 w))) by exact (HG w0 Hw0).
    unfold train_step.
    apply (ends_bind I J);
      [apply HI; [apply counter_forward_losses | apply disk_forward_losses] | exact HJ
      | intros ll].
    apply (ends_bind I J);
      [apply HI; [apply counter_backward_and_step | apply disk_backward_and_step]
      | exact HJ | intros _].
    apply (ends_bind I J);
      [apply HI; [apply counter_sched_step | unfold self_sched_step; disk] | exact HJ
      | intros _].
    apply (ends_bind I J);
      [apply HI; [apply counter_net_update | unfold self_net_update; disk] | exact HJ
      | intros _].
    apply (ends_bind I J);
      [apply HI; [apply counter_zero_grad | unfold self_model_zero_grad; disk] | exact HJ
      | intros _].
    apply (ends_bind I J);
      [apply HI; [apply counter_make_log_dict | unfold make_log_dict, read_loss_po; disk]
      | exact HJ | intros log].
    apply (ends_bind I J); [| exact HJ | intros log'].
    { intros w [[Hc Hi] Hf]. rewrite eval_block_off; [by split|by rewrite Hc|by rewrite Hc, Hi]. }
    intros w Hw. apply HJ in Hw. unfold J in *. rewrite <- Hw.
    match goal with |- fs (fst (?m w)) = fs w =>
      assert (Hd : writes_nothing m) by disk; apply Hd end.
Qed.

End DiskOfRuns.


(** ** The total loss *)

Section CounterOfSharp.
Context {R : Type} {SR : Scalar R} {CR : Collab R}.

Lemma counter_sharp_eps g1 labels : keeps same_counter (sharp_eps g1 labels).
Proof. unfold sharp_eps, self_grad_w. keeps. Qed.

Lemma counter_perturb_model : keeps same_counter perturb_model.
Proof. unfold perturb_model, self_eps. keeps. Qed.

End CounterOfSharp.

#[global] Hint Resolve counter_sharp_eps counter_perturb_model : frame.

Section TotalLoss.
Context {R : Type} {SR : Scalar R} {CR : Collab R}.

(** X17. The total loss of an iteration. It is the labeled loss plus
    [ulb_loss_ratio] times the self-adaptive threshold loss plus
    [ent_loss_ratio] times the fairness loss, and in sharpness-aware mode
    the consistency term is added exactly when [POLOSS] is set. The term
    is computed and bound to [loss_po] (and the banks are updated) in
    sharpness-aware mode whether [POLOSS] is set or not; without
    sharpness-aware mode the locals that live across iterations are
    returned unchanged. *)
Theorem total_loss_formula (l : Locals R) (batch_lb : BatchLb) (batch_ulb : BatchUlb)
    (w w1 : World) (ll : Losses * Locals R) :
  forward_losses l batch_lb batch_ulb w = (w1, Ok ll) ->
  let ls := fst ll in
  let l' := snd ll in
  let c := cfg (self w) in
  let base := (loss_lb ls + ULB_LOSS_RATIO c * loss_sat ls
               + ENT_LOSS_RATIO c * loss_saf ls)%S in
  if X_SHARP c
  then exists po, loss_po l' = Some po /\
                  loss ls = (if POLOSS c then base + po else base)%S
  else loss ls = base /\ l' = l.
Proof.
  intros E. cbv zeta. unfold forward_losses in E.
  minv E as wa u Ea. unfold assert in Ea.
  destruct (Nat.eqb _ _); [|discriminate]. inversion Ea; subst wa; clear Ea.
  minv E as wb t Eb. inversion Eb; subst wb t; clear Eb.
  mframe same_counter E as wc u' Ec Kc.
  mframe same_counter E as wd out Ed Kd.
  mframe same_counter E as we ch Ee Ke.
  assert (Kwe : cfg (self we) = cfg (self w)).
  { destruct Kc as [Kc _], Kd as [Kd _], Ke as [Ke _]. congruence. }
  destruct (X_SHARP (cfg (self w))) eqn:Hs; cbn [negb] in E.
  - unfold sharp_losses in E.
    mframe same_counter E as wf u1 Ef Kf.
    mframe same_counter E as wg u2 Eg Kg.
    mframe same_counter E as wh u3 Eh Kh.
    mframe same_counter E as wi out_hat Ei Ki.
    mframe same_counter E as wj ch' Ej Kj.
    mframe same_counter E as wk t1 Ek Kk. inversion Ek; subst wk t1; clear Ek.
    destruct (sat_criterion _ _ _ _ _) as [[[[? ?] ?] ?] ?].
    mframe same_counter E as wl u4 El Kl.
    minv E as wm t2 Em. inversion Em; subst wm t2; clear Em.
    destruct (saf_criterion _ _ _ _).
    minv E as wn po En. minv E as wo lb Eo.
    apply (f_equal fst) in En, Eo. cbn in En, Eo. subst wn wo.
    inversion E; subst; clear E. cbn [fst snd loss loss_lb loss_sat loss_saf loss_po].
    assert (Kc' : cfg (self w1) = cfg (self w)).
    { destruct Kf as [Kf _], Kg as [Kg _], Kh as [Kh _], Ki as [Ki _], Kj as [Kj _],
        Kl as [Kl _]. congruence. }
    rewrite Kc'. exists po. split; reflexivity.
  - unfold plain_losses in E.
    minv E as wf t1 Ef. inversion Ef; subst wf t1; clear Ef.
    destruct (sat_criterion _ _ _ _ _) as [[[[? ?] ?] ?] ?].
    mframe same_counter E as wg u4 Eg Kg.
    minv E as wh t2 Eh. inversion Eh; subst wh t2; clear Eh.
    destruct (saf_criterion _ _ _ _).
    inversion E; subst; clear E. cbn [fst snd loss loss_lb loss_sat loss_saf].
    assert (Kc' : cfg (self w1) = cfg (self w)).
    { destruct Kg as [Kg _]. congruence. }
    rewrite Kc'. split; reflexivity.
Qed.

End TotalLoss.

Section TotalLossRun.

Abbreviation losses_world :=
  (toy_world (SR := float_scalar) grads_weights (toy_cfg true false false 0 3 5) 3).
Abbreviation losses_run :=
  (forward_losses (initial_locals (self losses_world)) (toy_batch_lb grads_weights)
                  (toy_batch_ulb grads_weights) losses_world).
Abbreviation losses_of_run := (fst (from_ok plain_no_losses (snd losses_run))).
Abbreviation locals_of_run := (snd (from_ok plain_no_losses (snd losses_run))).

Lemma total_loss_formula_witness :
  X_SHARP (cfg (self losses_world)) = true /\
  POLOSS (cfg (self losses_world)) = true /\
  exists po, loss_po locals_of_run = Some po /\
    loss losses_of_run
    = (if POLOSS (cfg (self losses_world))
       then loss_lb losses_of_run
            + ULB_LOSS_RATIO (cfg (self losses_world)) * loss_sat losses_of_run
            + ENT_LOSS_RATIO (cfg (self losses_world)) * loss_saf losses_of_run + po
       else loss_lb losses_of_run
            + ULB_LOSS_RATIO (cfg (self losses_world)) * loss_sat losses_of_run
            + ENT_LOSS_RATIO (cfg (self losses_world)) * loss_saf losses_of_run)%S.
Proof.
  assert (H : is_ok (snd losses_run) = true) by (vm_compute; reflexivity).
  pose proof (total_loss_formula (initial_locals (self losses_world))
                (toy_batch_lb grads_weights) (toy_batch_ulb grads_weights)
                losses_world (fst losses_run) (from_ok plain_no_losses (snd losses_run))
                (ok_eta plain_no_losses losses_run H)) as HT.
  cbv zeta in HT.
  assert (Hx : X_SHARP (cfg (self losses_world)) = true) by reflexivity.
  rewrite Hx in HT.
  split; [reflexivity|]. split; [reflexivity | exact HT].
Defined.

End TotalLossRun.

(** ** The statistics of an iteration *)

Section StatisticsOfIteration.
Context {R : Type} {SR : Scalar R} {CR : Collab R}.

(** X18. Which logits feed the threshold loss and the statistics. Without
    sharpness-aware mode there is one forward pass, and the criterion
    receives its weak and its strong logits. In sharpness-aware mode the
    first pass runs with the running statistics enabled and the second
    pass runs on the perturbed parameters with the running statistics
    disabled, on the buffers the first pass left; the criterion receives
    the weak logits of the first, unperturbed pass and the strong logits
    of the second, perturbed pass. In both modes [tau_t], [p_t] and
    [label_hist] are replaced by what the criterion returns for their old
    values, and the parameters are still perturbed when the losses are
    returned. *)
Theorem statistics_update (l : Locals R) (batch_lb : BatchLb) (batch_ulb : BatchUlb)
    (w w1 : World) (ll : Losses * Locals R) :
  forward_losses l batch_lb batch_ulb w = (w1, Ok ll) ->
  let t := self w in
  let img := iteration_images batch_lb batch_ulb in
  let num_lb := length (lb_img_w batch_lb) in
  let old r := r (tau_t t) (p_t t) (label_hist t) in
  if X_SHARP (cfg t)
  then
    let out := net_call (net t) (parameters t) (enable_running_stats (buffers t)) img in
    let out_hat := net_call (net t) (parameters (self w1))
                            (disable_running_stats (snd out)) img in
    exists logits_ulb_w logits_ulb_s logits_ulb_w_hat logits_ulb_s_hat,
      chunk2 (skipn num_lb (values (fst (fst out)))) = Ok (logits_ulb_w, logits_ulb_s) /\
      chunk2 (skipn num_lb (values (fst (fst out_hat))))
      = Ok (logits_ulb_w_hat, logits_ulb_s_hat) /\
      let sat := old (sat_criterion logits_ulb_w logits_ulb_s_hat) in
      loss_sat (fst ll) = sat_loss sat /\ mask (fst ll) = sat_mask sat /\
      tau_t (self w1) = sat_tau sat /\ p_t (self w1) = sat_p sat /\
      label_hist (self w1) = sat_hist sat /\
      buffers (self w1) = snd out_hat /\
      exists e, eps (self w1) = Some e /\
                perturb_params (parameters t) e = (parameters (self w1), None)
  else
    let out := net_call (net t) (parameters t) (buffers t) img in
    exists logits_ulb_w logits_ulb_s,
      chunk2 (skipn num_lb (values (fst (fst out)))) = Ok (logits_ulb_w, logits_ulb_s) /\
      let sat := old (sat_criterion logits_ulb_w logits_ulb_s) in
      loss_sat (fst ll) = sat_loss sat /\ mask (fst ll) = sat_mask sat /\
      tau_t (self w1) = sat_tau sat /\ p_t (self w1) = sat_p sat /\
      label_hist (self w1) = sat_hist sat /\
      buffers (self w1) = snd out /\ parameters (self w1) = parameters t.
Proof.
  intros E. cbv zeta. unfold iteration_images.
  pose proof E as E0. unfold forward_losses in E.
  minv E as wa u Ea. unfold assert in Ea.
  destruct (Nat.eqb _ _); [|discriminate]. inversion Ea; subst wa; clear Ea.
  minv E as wb t Eb. inversion Eb; subst wb t; clear Eb.
  destruct (X_SHARP (cfg (self w))) eqn:Hs; cbn [when negb] in E.
  - destruct (sharp_forward_inv _ _ _ _ _ _ Hs E0) as (e & g & He & _ & _ & Hp).
    minv E as wc u' Ec. inversion Ec; subst wc; clear Ec.
    minv E as wd out Ed. inversion Ed; subst wd out; clear Ed.
    cbn [self fs calls net parameters buffers set_buffers fst snd] in E.
    minv E as we ch Ee. unfold lift in Ee.
    match type of Ee with (_, ?r) = _ => destruct r as [ch0|] eqn:Hch; [|discriminate] end.
    inversion Ee; subst we ch; clear Ee.
    unfold sharp_losses in E.
    minv E as wf u1 Ef. destruct u1. apply sharp_eps_frame in Ef.
    minv E as wg u2 Eg. destruct u2. apply perturb_model_frame in Eg.
    minv E as wh u3 Eh. inversion Eh; subst wh; clear Eh.
    minv E as wi out_hat Ei. inversion Ei; subst wi out_hat; clear Ei.
    cbn [self fs calls net parameters buffers set_buffers fst snd] in E.
    minv E as wj ch' Ej. unfold lift in Ej.
    match type of Ej with (_, ?r) = _ => destruct r as [ch1|] eqn:Hch'; [|discriminate] end.
    inversion Ej; subst wj ch'; clear Ej.
    minv E as wk t1 Ek. inversion Ek; subst wk t1; clear Ek.
    cbn [self fs calls net parameters buffers tau_t p_t label_hist set_buffers
         fst snd] in E.
    rewrite Eg, Ef in E.
    cbn [net parameters buffers tau_t p_t label_hist set_parameters set_eps set_grad_w
         set_buffers] in E.
    destruct (sat_criterion _ _ _ _ _) as [[[[s1 s2] s3] s4] s5] eqn:Hsat.
    minv E as wl u4 El. inversion El; subst wl; clear El.
    minv E as wm t2 Em. inversion Em; subst wm t2; clear Em.
    destruct (saf_criterion _ _ _ _).
    minv E as wn po En. minv E as wo lb Eo.
    apply (f_equal fst) in En, Eo. cbn in En, Eo. subst wn wo.
    inversion E; subst w1 ll; clear E.
    cbn [self parameters buffers tau_t p_t label_hist eps set_tau_t set_p_t
         set_label_hist set_buffers fst snd loss_sat mask] in *.
    rewrite Eg, Ef in Hch'.
    cbn [net parameters buffers set_parameters set_eps set_grad_w set_buffers] in Hch'.
    destruct ch0 as [cw cs], ch1 as [cw' cs'].
    exists cw, cs, cw', cs'. cbn [fst snd values] in Hsat.
    split; [first [reflexivity | exact Hch]|]. split; [first [reflexivity | exact Hch']|].
    rewrite Hsat. unfold sat_loss, sat_mask, sat_tau, sat_p, sat_hist. cbn [fst snd].
    do 5 (split; [reflexivity|]).
    rewrite Eg, Ef. cbn [net parameters buffers set_parameters set_eps set_grad_w
                         set_buffers].
    split; [reflexivity|]. exists e. split; [exact He | exact Hp].
  - minv E as wc u' Ec. inversion Ec; subst wc; clear Ec.
    minv E as wd out Ed. inversion Ed; subst wd out; clear Ed.
    cbn [self fs calls net parameters buffers set_buffers fst snd] in E.
    minv E as we ch Ee. unfold lift in Ee.
    match type of Ee with (_, ?r) = _ => destruct r as [ch0|] eqn:Hch; [|discriminate] end.
    inversion Ee; subst we ch; clear Ee.
    unfold plain_losses in E.
    minv E as wf t1 Ef. inversion Ef; subst wf t1; clear Ef.
    cbn [self tau_t p_t label_hist set_buffers] in E.
    destruct (sat_criterion _ _ _ _ _) as [[[[s1 s2] s3] s4] s5] eqn:Hsat.
    minv E as wg u4 Eg. inversion Eg; subst wg; clear Eg.
    minv E as wh t2 Eh. inversion Eh; subst wh t2; clear Eh.
    destruct (saf_criterion _ _ _ _).
    inversion E; subst w1 ll; clear E.
    cbn [self parameters buffers tau_t p_t label_hist set_tau_t set_p_t
         set_label_hist set_buffers fst snd loss_sat mask] in *.
    destruct ch0 as [cw cs]. exists cw, cs. cbn [fst snd] in Hsat.
    split; [first [reflexivity | exact Hch]|].
    rewrite Hsat. unfold sat_loss, sat_mask, sat_tau, sat_p, sat_hist. cbn [fst snd].
    by repeat split.
Qed.

End StatisticsOfIteration.

Section StatisticsRun.

Abbreviation stats_world :=
  (toy_world (SR := float_scalar) grads_weights (toy_cfg true false false 0 3 5) 3).
Abbreviation stats_run :=
  (forward_losses (initial_locals (self stats_world)) (toy_batch_lb grads_weights)
                  (toy_batch_ulb grads_weights) stats_world).
Abbreviation stats_images :=
  (iteration_images (toy_batch_lb grads_weights) (toy_batch_ulb grads_weights)).
Abbreviation first_pass :=
  (net_call (Collab := toy grads_weights) (net (self stats_world))
            (parameters (self stats_world))
            (enable_running_stats (Collab := toy grads_weights) (buffers (self stats_world)))
            stats_images).
Abbreviation second_pass :=
  (net_call (Collab := toy grads_weights) (net (self stats_world))
            (parameters (self (fst stats_run)))
            (disable_running_stats (Collab := toy grads_weights) (snd first_pass))
            stats_images).

Lemma statistics_update_witness :
  is_ok (snd stats_run) = true /\
  X_SHARP (cfg (self stats_world)) = true /\
  exists logits_ulb_w logits_ulb_s logits_ulb_w_hat logits_ulb_s_hat,
    chunk2 (skipn (length (lb_img_w (toy_batch_lb grads_weights)))
                  (values (fst (fst first_pass))))
    = Ok (logits_ulb_w, logits_ulb_s) /\
    chunk2 (skipn (length (lb_img_w (toy_batch_lb grads_weights)))
                  (values (fst (fst second_pass))))
    = Ok (logits_ulb_w_hat, logits_ulb_s_hat) /\
    tau_t (self (fst stats_run))
    = sat_tau (sat_criterion (Collab := toy grads_weights) logits_ulb_w logits_ulb_s_hat (tau_t (self stats_world))
                             (p_t (self stats_world)) (label_hist (self stats_world))).
Proof.
  assert (H : is_ok (snd stats_run) = true) by (vm_compute; reflexivity).
  pose proof (statistics_update (initial_locals (self stats_world))
                (toy_batch_lb grads_weights) (toy_batch_ulb grads_weights)
                stats_world (fst stats_run) (from_ok plain_no_losses (snd stats_run))
                (ok_eta plain_no_losses stats_run H)) as HT.
  cbv zeta in HT.
  assert (Hx : X_SHARP (cfg (self stats_world)) = true) by reflexivity.
  rewrite Hx in HT.
  destruct HT as (lw & ls & lw' & ls' & H1 & H2 & _ & _ & H3 & _).
  split; [exact H|]. split; [reflexivity|].
  exists lw, ls, lw', ls'. split; [exact H1|]. split; [exact H2 | exact H3].
Defined.

End StatisticsRun.

(** * The training iteration as a whole

    The order of the updates of an iteration and the cadence of its
    evaluation, stated on the iteration itself: what it calls, and the
    trainer and the files it leaves. *)

(** ** A training iteration, step by step *)

Section UpdatesOfIteration.
Context {R : Type} {SR : Scalar R} {CR : Collab R}.

Lemma restore_model_run (w w' : World) :
  restore_model w = (w', Ok tt) ->
  exists e gw p g,
    eps (self w) = Some e /\ grad_w (self w) = Some gw /\
    restore_params (parameters (self w)) (grad (self w)) e gw = (p, g, None) /\
    w' = {| self := set_parameters p (set_grad g (self w)); fs := fs w; calls := calls w |}.
Proof.
  unfold restore_model, self_eps, self_grad_w, bind, act, get, raise, ret.
  destruct (eps (self w)) as [e|]; [|discriminate]. cbn.
  destruct (grad_w (self w)) as [gw|]; [|discriminate]. cbn.
  destruct (restore_params _ _ _ _) as [[p g] [x|]] eqn:Ep; cbn;
    intros E; inversion E; subst; clear E.
  exists e, gw, p, g. repeat split; try reflexivity; by destruct w.
Qed.

(** The backward pass, the restoration and the optimizer step of an
    iteration that gets through them. *)
Lemma backward_and_step_run (ls : Losses) (w w' : World) :
  backward_and_step ls w = (w', Ok tt) ->
  let t := self w in
  exists gb p g op,
    backward_pass t (graphs ls) = Some gb /\
    (if X_SHARP (cfg t)
     then exists e gw, eps t = Some e /\ grad_w t = Some gw /\
                       restore_params (parameters t) gb e gw = (p, g, None)
     else p = parameters t /\ g = gb) /\
    optimizer_step t p g = Some op /\
    self w' = set_optim (fst op) (set_parameters (snd op)
                (set_grad g (set_scaler (scaler_after t) t))) /\
    fs w' = fs w /\
    calls w' = calls w ++ CBackward
                 :: (if AMP_ENABLED (cfg t) then [CScalerStep; CScalerUpdate]
                     else [COptimStep]).
Proof.
  intros E. cbv zeta. unfold backward_and_step in E.
  minv E as w0 t E0. inversion E0; subst w0 t; clear E0.
  unfold backward_pass, optimizer_step, scaler_after.
  destruct (AMP_ENABLED (cfg (self w))) eqn:Hamp.
  - minv E as w1 u1 E1. unfold scaler_scale_backward, self_scaler in E1.
    minv E1 as wa sc Ea. minv Ea as wb t Eb. inversion Eb; subst wb t; clear Eb.
    destruct (scaler (self w)) as [sc0|] eqn:Hsc; [|discriminate].
    inversion Ea; subst wa sc; clear Ea.
    minv E1 as wc uc Ec. destruct uc. inversion Ec; subst wc; clear Ec.
    inversion E1; subst w1; clear E1.
    minv E as w2 u2 E2.
    assert (HR : exists p g,
               (if X_SHARP (cfg (self w))
                then exists e gw, eps (self w) = Some e /\ grad_w (self w) = Some gw /\
                       restore_params (parameters (self w))
                         (scaled_backward sc0 (graphs ls) (grad (self w))) e gw
                       = (p, g, None)
                else p = parameters (self w) /\
                     g = scaled_backward sc0 (graphs ls) (grad (self w))) /\
               self w2 = set_parameters p (set_grad g (self w)) /\
               fs w2 = fs w /\ calls w2 = calls w ++ [CBackward]).
    { destruct (X_SHARP (cfg (self w))); cbn [when] in E2.
      - destruct u2. apply restore_model_run in E2 as (e & gw & p & g & He & Hg & Hr & ->).
        cbn [self fs calls eps grad_w parameters grad set_grad] in *.
        exists p, g. split; [by exists e, gw|]. cbn.
        repeat split; try reflexivity; by destruct (self w).
      - inversion E2; subst w2. cbn. eexists _, _. split; [done|].
        repeat split; try reflexivity; by destruct (self w). }
    destruct HR as (p & g & Hpg & Hs2 & Hf2 & Hc2).
    minv E as w3 u3 E3. unfold self_scaler_step, self_scaler in E3.
    minv E3 as wa sc Ea. minv Ea as wb t Eb. inversion Eb; subst wb t; clear Eb.
    rewrite Hs2 in Ea. cbn [scaler set_parameters set_grad] in Ea. rewrite Hsc in Ea.
    inversion Ea; subst wa sc; clear Ea.
    minv E3 as wc uc Ec. destruct uc. inversion Ec; subst wc; clear Ec.
    inversion E3; subst w3; clear E3.
    unfold self_scaler_update, self_scaler in E.
    minv E as wa sc Ea. minv Ea as wb t Eb. inversion Eb; subst wb t; clear Eb.
    cbn [self scaler set_optim set_parameters] in Ea. rewrite Hs2 in Ea.
    cbn [scaler set_parameters set_grad] in Ea. rewrite Hsc in Ea.
    inversion Ea; subst wa sc; clear Ea.
    minv E as wc uc Ec. destruct uc. inversion Ec; subst wc; clear Ec.
    inversion E; subst w'; clear E.
    cbn [self fs calls]. rewrite ?Hs2, ?Hf2, ?Hc2.
    cbn [optim parameters grad set_parameters set_grad].
    eexists _, p, g, _. split; [reflexivity|]. split; [exact Hpg|].
    split; [reflexivity|]. rewrite <- !app_assoc. cbn [app].
    repeat split; try reflexivity; by destruct (self w).
  - minv E as w1 u1 E1. unfold loss_backward in E1.
    minv E1 as wc uc Ec. destruct uc. inversion Ec; subst wc; clear Ec.
    inversion E1; subst w1; clear E1.
    minv E as w2 u2 E2.
    assert (HR : exists p g,
               (if X_SHARP (cfg (self w))
                then exists e gw, eps (self w) = Some e /\ grad_w (self w) = Some gw /\
                       restore_params (parameters (self w))
                         (backward (graphs ls) (grad (self w))) e gw
                       = (p, g, None)
                else p = parameters (self w) /\
                     g = backward (graphs ls) (grad (self w))) /\
               self w2 = set_parameters p (set_grad g (self w)) /\
               fs w2 = fs w /\ calls w2 = calls w ++ [CBackward]).
    { destruct (X_SHARP (cfg (self w))); cbn [when] in E2.
      - destruct u2. apply restore_model_run in E2 as (e & gw & p & g & He & Hg & Hr & ->).
        cbn [self fs calls eps grad_w parameters grad set_grad] in *.
        exists p, g. split; [by exists e, gw|]. cbn.
        repeat split; try reflexivity; by destruct (self w).
      - inversion E2; subst w2. cbn. eexists _, _. split; [done|].
        repeat split; try reflexivity; by destruct (self w). }
    destruct HR as (p & g & Hpg & Hs2 & Hf2 & Hc2).
    unfold self_optim_step in E.
    minv E as wc uc Ec. destruct uc. inversion Ec; subst wc; clear Ec.
    inversion E; subst w'; clear E.
    cbn [self fs calls]. rewrite ?Hs2, ?Hf2, ?Hc2.
    cbn [optim parameters grad set_parameters set_grad].
    eexists _, p, g, _. split; [reflexivity|]. split; [exact Hpg|].
    split; [reflexivity|]. rewrite <- !app_assoc. cbn [app].
    repeat split; try reflexivity; by destruct (self w).
Qed.

Lemma make_log_dict_same (ls : Losses) (l : Locals R) (w w' : World) log :
  make_log_dict ls l w = (w', Ok log) -> w' = w.
Proof.
  unfold make_log_dict, read_loss_po, bind, get, ret, raise.
  destruct (loss_po l); intros E; inversion E; done.
Qed.

(** A training iteration that returns, step by step: the losses, the
    updates, the log record, the evaluation block and the counter. *)
Lemma train_step_run l b1 b2 (w w' : World) l' :
  train_step l b1 b2 w = (w', Ok l') ->
  exists (w1 : World) ll (w5 : World) log log' (w7 : World),
    forward_losses l b1 b2 w = (w1, Ok ll) /\ l' = snd ll /\
    (let t1 := self w1 in
     exists gb p g op,
       backward_pass t1 (graphs (fst ll)) = Some gb /\
       (if X_SHARP (cfg t1)
        then exists e gw, eps t1 = Some e /\ grad_w t1 = Some gw /\
                          restore_params (parameters t1) gb e gw = (p, g, None)
        else p = parameters t1 /\ g = gb) /\
       optimizer_step t1 p g = Some op /\
       let so := sched_step (sched t1) (fst op) in
       self w5 = set_grad (zero_grad g)
                   (set_net (net_update (net t1) (snd op) (buffers t1))
                      (set_sched (fst so) (set_optim (snd so) (set_parameters (snd op)
                         (set_scaler (scaler_after t1) t1)))))) /\
    fs w5 = fs w1 /\
    calls w5 = calls w1 ++ CBackward
                 :: (if AMP_ENABLED (cfg (self w1)) then [CScalerStep; CScalerUpdate]
                     else [COptimStep])
                 ++ [CSchedStep; CEmaUpdate; CZeroGrad] /\
    make_log_dict (fst ll) (snd ll) w5 = (w5, Ok log) /\
    eval_block log w5 = (w7, Ok log') /\
    self w' = set_curr_iter (curr_iter (self w7) + 1) (self w7) /\
    fs w' = fs w7 /\
    exists m, py_mod (curr_iter (self w7) + 1) (NUM_LOG_ITERS (cfg (self w7))) = Ok m /\
              calls w' = calls w7 ++ (if m =? 0 then [CPprint] else []).
Proof.
  unfold train_step. intros E.
  minv E as w1 ll E1.
  minv E as w2 u2 E2. destruct u2.
  apply backward_and_step_run in E2 as (gb & p & g & op & Hb & Hr & Ho & Hs2 & Hf2 & Hc2).
  minv E as w3 u3 E3. unfold self_sched_step in E3.
  minv E3 as wa ua Ea. destruct ua. inversion Ea; subst wa; clear Ea. inversion E3; subst w3; clear E3.
  minv E as w4 u4 E4. unfold self_net_update in E4.
  minv E4 as wa ua Ea. destruct ua. inversion Ea; subst wa; clear Ea. inversion E4; subst w4; clear E4.
  minv E as w5 u5 E5. unfold self_model_zero_grad in E5.
  minv E5 as wa ua Ea. destruct ua. inversion Ea; subst wa; clear Ea. inversion E5; subst w5; clear E5.
  minv E as w6 log E6. pose proof (make_log_dict_same _ _ _ _ _ E6) as ->.
  minv E as w7 log' E7.
  minv E as w8 t E8. inversion E8; subst w8 t; clear E8.
  minv E as w9 m E9. unfold lift in E9.
  destruct (py_mod _ _) as [m0|] eqn:Hm; [|discriminate].
  inversion E9; subst w9 m; clear E9.
  minv E as w10 u10 E10.
  assert (HP : self w10 = self w7 /\ fs w10 = fs w7 /\
                calls w10 = calls w7 ++ (if m0 =? 0 then [CPprint] else [])).
  { destruct (m0 =? 0); cbn [when] in E10; inversion E10; subst; cbn;
      rewrite ?app_nil_r; done. }
  destruct HP as (Hs10 & Hf10 & Hc10).
  minv E as w11 u11 E11. inversion E11; subst w11; clear E11.
  inversion E; subst w' l'; clear E.
  match type of E6 with make_log_dict _ _ ?W = _ => exists w1, ll, W, log, log', w7 end.
  split; [exact E1|]. split; [reflexivity|].
  split.
  { cbv zeta. exists gb, p, g, op. split; [exact Hb|]. split; [exact Hr|].
    split; [exact Ho|]. cbn [self]. rewrite Hs2.
    cbn [sched optim net parameters buffers grad
         set_optim set_parameters set_grad set_scaler set_sched set_net].
    by destruct (self w1). }
  cbn [self fs calls]. split; [exact Hf2|].
  split; [rewrite Hc2, <- !app_assoc; cbn [app];
          destruct (AMP_ENABLED (cfg (self w1))); reflexivity|].
  split; [exact E6|]. split; [exact E7|].
  rewrite Hs10. split; [reflexivity|]. split; [exact Hf10|].
  exists m0. split; [exact Hm | exact Hc10].
Qed.

End UpdatesOfIteration.

Section IterationFrames.
Context {R : Type} {SR : Scalar R} {CR : Collab R}.

#[export] Instance same_training_reflexive : Reflexive (same_training (R := R)).
Proof. intros t. by repeat split. Qed.

#[export] Instance same_training_transitive : Transitive (same_training (R := R)).
Proof. intros t1 t2 t3 (?&?&?&?&?) (?&?&?&?&?). repeat split; congruence. Qed.

#[export] Instance same_run_reflexive : Reflexive (same_run (R := R)).
Proof. intros t. by repeat split. Qed.

#[export] Instance same_run_transitive : Transitive (same_run (R := R)).
Proof. intros t1 t2 t3 (?&?&?&?&?) (?&?&?&?&?). repeat split; congruence. Qed.

Lemma run_net_forward img : keeps same_run (net_forward img).
Proof. unfold net_forward. keeps. Qed.

(** An evaluation that returns: the trainer it leaves. *)
Lemma validate_ok_state (w w' : World) (vd : gmap string R) :
  validate w = (w', Ok vd) ->
  let t := self w in
  let eb := net_eval (net t) (buffers t) in
  let r := forward_all (net_call (fst eb) (parameters t)) (snd eb) (test_dl (dm t)) in
  let tr := net_train (fst eb) (snd r) in
  self w' = set_net (fst tr) (set_buffers (snd tr) t) /\
  fs w' = fs w /\
  calls w' = calls w ++ CValidate :: repeat CForward (length (test_dl (dm t))).
Proof.
  intros E0.
  destruct (validate_run w) as (w1 & a & outs & Hm & [Hn Hb] & Hf & Hc & _ & _ & _ & _ & _ & E).
  cbv zeta in *. rewrite E in E0.
  destruct (Nat.eqb (total_num a) 0); [discriminate|].
  inversion E0; subst w1 vd; clear E0.
  split; [|by split].
  unfold same_but_mode in Hm. rewrite Hm, Hn, Hb. reflexivity.
Qed.

End IterationFrames.

#[global] Hint Resolve run_net_forward : frame.

Section IterationFrames2.
Context {R : Type} {SR : Scalar R} {CR : Collab R}.

Lemma run_forward_losses l b1 b2 : keeps same_run (forward_losses l b1 b2).
Proof.
  unfold forward_losses, plain_losses, sharp_losses, sharp_eps, self_grad_w,
    perturb_model, self_eps.
  keeps.
Qed.

(** The evaluation block of an iteration that gets through it. *)
Lemma eval_block_run log (w w7 : World) log' :
  eval_block log w = (w7, Ok log') ->
  NUM_EVAL_ITERS (cfg (self w)) <> 0 /\
  if (curr_iter (self w) + 1) mod NUM_EVAL_ITERS (cfg (self w)) =? 0
  then exists (wv : World) vd acc b,
         validate w = (wv, Ok vd) /\
         vd !! "validation/accuracy" = Some acc /\
         tb (self wv) = Some b /\
         let t1 := after_eval (self wv) acc in
         let c := cfg (self wv) in
         let better := s_ltb (best_test_acc (self wv)) acc in
         self w7 = set_tb (Some (tb_update b log' (curr_iter t1))) t1 /\
         fs w7 = <[last_path c := save_dict t1]>
                   (if better then <[best_path c := save_dict t1]> (fs wv) else fs wv) /\
         calls w7 = calls wv ++ (if better then [CSave (best_path c)] else [])
                      ++ [CSave (last_path c); CTbUpdate (curr_iter t1)]
  else w7 = w /\ log' = log.
Proof.
  intros E.
  assert (HN : NUM_EVAL_ITERS (cfg (self w)) <> 0).
  { intros HE. rewrite (eval_block_zero _ _ HE) in E. discriminate. }
  split; [exact HN|].
  destruct ((curr_iter (self w) + 1) mod NUM_EVAL_ITERS (cfg (self w)) =? 0) eqn:Hhit.
  - destruct (validate w) as [wv [vd|e]] eqn:Ev.
    + destruct (validate_accuracy _ _ _ Ev) as [acc Hacc].
      pose proof (eval_block_hit log w wv vd acc HN Hhit Ev Hacc) as Eh.
      cbv zeta in Eh. rewrite Eh in E. clear Eh.
      unfold self_tb_update, self_tb, bind, get, modify, call, ret, raise in E.
      cbn [self fs calls fst snd] in E.
      destruct (after_eval_counter (self wv) acc) as (_ & _ & Htb).
      destruct (tb (after_eval (self wv) acc)) as [b|] eqn:Eb; [|discriminate].
      inversion E; subst w7 log'; clear E.
      exists wv, vd, acc, b. split; [reflexivity|]. split; [exact Hacc|].
      split; [by rewrite <- Htb|]. cbv zeta. cbn [self fs calls].
      split; [reflexivity|]. split; [reflexivity|].
      rewrite <- !app_assoc. reflexivity.
    + rewrite (eval_block_validate_raises _ _ _ _ HN Hhit Ev) in E. discriminate.
  - rewrite (eval_block_off _ _ HN Hhit) in E. by inversion E.
Qed.

Lemma training_eval_block log (w w7 : World) log' :
  eval_block log w = (w7, Ok log') -> same_training (self w) (self w7).
Proof.
  intros E. destruct (eval_block_run _ _ _ _ E) as [_ H].
  destruct (_ =? 0).
  - destruct H as (wv & vd & acc & b & Ev & _ & _ & Hs & _).
    cbv zeta in Hs. apply validate_ok_state in Ev as [Hv _]. cbv zeta in Hv.
    rewrite Hs. unfold after_eval. rewrite Hv.
    by destruct (s_ltb _ _).
  - destruct H as [-> _]. reflexivity.
Qed.

End IterationFrames2.

(** ** C5: the order of the updates of an iteration *)

Section OrderOfUpdates.
Context {R : Type} {SR : Scalar R} {CR : Collab R}.

(** C5. The updates of a training iteration. In every iteration the
    calls that update the training state are made in the order: backward
    pass, optimizer step (through the gradient scaler under AMP),
    scheduler step, EMA update; an iteration that raises has made a
    prefix of this sequence and an iteration that returns has made all
    four, each once. An iteration that returns has computed each update
    from the result of the one before it: the optimizer has stepped the
    parameters on the gradients of the backward pass (restored and
    completed by the first-pass gradient in sharpness-aware mode), the
    scheduler has stepped on the optimizer that made this step, and the
    EMA model has been updated from the parameters the optimizer step
    returned. The iteration ends with these parameters, this optimizer
    and scheduler, zeroed gradients, and this EMA model, passed through
    the evaluation when the iteration is on the evaluation cadence. *)
Theorem update_order (l : Locals R) (batch_lb : BatchLb) (batch_ulb : BatchUlb)
    (w : World) :
  (exists new,
     calls (fst (train_step l batch_lb batch_ulb w)) = calls w ++ new /\
     omap update_of new `prefix_of` [UBackward; UStep; USched; UEma] /\
     (is_ok (snd (train_step l batch_lb batch_ulb w)) = true ->
      omap update_of new = [UBackward; UStep; USched; UEma])) /\
  forall (w' : World) l',
    train_step l batch_lb batch_ulb w = (w', Ok l') ->
    exists (w1 : World) ll,
      forward_losses l batch_lb batch_ulb w = (w1, Ok ll) /\
      let c := cfg (self w) in
      let t1 := self w1 in
      exists gb p g op,
        backward_pass t1 (graphs (fst ll)) = Some gb /\
        (if X_SHARP c
         then exists e gw, eps t1 = Some e /\ grad_w t1 = Some gw /\
                           restore_params (parameters t1) gb e gw = (p, g, None)
         else p = parameters t1 /\ g = gb) /\
        optimizer_step t1 p g = Some op /\
        let so := sched_step (sched t1) (fst op) in
        let ema := net_update (net t1) (snd op) (buffers t1) in
        let eb := net_eval ema (buffers t1) in
        let r := forward_all (net_call (fst eb) (snd op)) (snd eb)
                             (test_dl (dm (self w))) in
        parameters (self w') = snd op /\
        optim (self w') = snd so /\
        sched (self w') = fst so /\
        grad (self w') = zero_grad g /\
        net (self w')
        = (if (curr_iter (self w) + 1) mod NUM_EVAL_ITERS c =? 0
           then fst (net_train (fst eb) (snd r)) else ema).
Proof.
  split; [apply train_step_trace|].
  intros w' l' E.
  apply train_step_run in E
    as (w1 & ll & w5 & log & log' & w7 & E1 & _ & Hup & _ & _ & _ & E7 & Hs' & _).
  exists w1, ll. split; [exact E1|].
  pose proof (run_forward_losses l batch_lb batch_ulb w) as K.
  rewrite E1 in K. cbn [fst] in K. destruct K as (Kc & Kd & Ki & _).
  cbv zeta in Hup |- *. rewrite <- Kc, <- Kd, <- Ki.
  destruct Hup as (gb & p & g & op & Hb & Hr & Ho & Hs5).
  exists gb, p, g, op. split; [exact Hb|]. split; [exact Hr|]. split; [exact Ho|].
  destruct (training_eval_block _ _ _ _ E7) as (Kp & Kg & Ko & Ks & _).
  rewrite Hs'. cbn [parameters optim sched grad net set_curr_iter].
  rewrite Kp, Ko, Ks, Kg, Hs5.
  cbn [parameters optim sched grad set_grad set_net set_sched set_optim].
  repeat (split; [reflexivity|]).
  destruct (eval_block_run _ _ _ _ E7) as [_ H]. rewrite Hs5 in H.
  cbn [cfg curr_iter set_grad set_net set_sched set_optim set_parameters set_scaler] in H.
  destruct (_ =? 0).
  - destruct H as (wv & vd & acc & b & Ev & _ & _ & Hs7 & _).
    cbv zeta in Hs7. apply validate_ok_state in Ev as [Hv _]. cbv zeta in Hv.
    rewrite Hs7, Hv, Hs5. unfold after_eval.
    destruct (s_ltb _ _); reflexivity.
  - destruct H as [-> _]. rewrite Hs5. reflexivity.
Qed.

End OrderOfUpdates.

Section OrderOfUpdatesRun.

Abbreviation order_world :=
  (toy_world (SR := float_scalar) grads_weights (toy_cfg true true false 0 3 5) 3).
Abbreviation order_step :=
  (train_step (initial_locals (self order_world)) (toy_batch_lb grads_weights)
              (toy_batch_ulb grads_weights) order_world).

(** An iteration under AMP, off the evaluation cadence, that returns: the
    four updates are made in order, and the EMA model it leaves is the
    one updated from the parameters it leaves. *)
Lemma update_order_witness :
  is_ok (snd order_step) = true /\
  (exists new, calls (fst order_step) = calls order_world ++ new /\
               omap update_of new = [UBackward; UStep; USched; UEma]) /\
  exists (w1 : World (CR := toy (SR := float_scalar) grads_weights)) ll,
    forward_losses (initial_locals (self order_world)) (toy_batch_lb grads_weights)
                   (toy_batch_ulb grads_weights) order_world = (w1, Ok ll) /\
    net (self (fst order_step))
    = net_update (net (self w1)) (parameters (self (fst order_step))) (buffers (self w1)).
Proof.
  assert (H1 : is_ok (snd order_step) = true) by (vm_compute; reflexivity).
  split; [exact H1|].
  destruct (update_order (initial_locals (self order_world)) (toy_batch_lb grads_weights)
              (toy_batch_ulb grads_weights) order_world) as [(new & E & _ & Hall) Hstate].
  split; [exists new; split; [exact E | exact (Hall H1)]|].
  destruct (Hstate (fst order_step) (from_ok (initial_locals (self order_world))
                                             (snd order_step))
                   (ok_eta _ order_step H1))
    as (w1 & ll & E1 & gb & p & g & op & _ & _ & _ & Hp & _ & _ & _ & Hn).
  exists w1, ll. split; [exact E1|].
  assert (Hoff : ((curr_iter (self order_world) + 1)
                  mod NUM_EVAL_ITERS (cfg (self order_world)) =? 0) = false)
    by reflexivity.
  rewrite Hoff in Hn. rewrite Hn, Hp. reflexivity.
Defined.

End OrderOfUpdatesRun.

(** ** C6: evaluation cadence and checkpoints *)

Section Evaluations.
Context {R : Type} {SR : Scalar R} {CR : Collab R}.














End Evaluations.


Section EvaluationsOfIteration.
Context {R : Type} {SR : Scalar R} {CR : Collab R}.







End EvaluationsOfIteration.

Section PlainEval.
Context {R : Type} {SR : Scalar R} {CR : Collab R}.


End PlainEval.

Section CadenceOfEvaluation.
Context {R : Type} {SR : Scalar R} {CR : Collab R}.



End CadenceOfEvaluation.

Section CadenceRun.

Abbreviation cadence_step :=
  (train_step (initial_locals (self eval_world)) (toy_batch_lb grads_weights)
              (toy_batch_ulb grads_weights) eval_world).


End CadenceRun.

